(** * video-cliper: the clip planner and the portrait export of [ClipCreator]

    A shallow embedding of [src/components/ClipCreator.tsx].

    JavaScript numbers are IEEE 754 doubles.  Where the outcome depends on
    their rounding, in the slicing loop of [autoGenerateClips] and in the
    rectangle of [drawFrame], the code is written on Rocq's primitive
    binary64 floats (module [Binary64]).  Elsewhere seconds, milliseconds
    and pixel sizes are modelled as exact rationals ([Q]): finite, NaN-free
    values with exact arithmetic, compared with [Qeq] ([==]) unless the code
    copies a value unchanged; what is proved of them is stated as holding
    over exact rationals.  Loops that the source writes as [while] get a
    fuel argument and answer [None] when the fuel runs out. *)

From Stdlib Require Import String Ascii Decimal DecimalString.
From Stdlib Require Import QArith Qround Qpower Lqa Lia ZArith Bool List.
From Stdlib Require Floats Uint63.
Import ListNotations.
Open Scope Q_scope.

(** ** Data model *)

(** [Video] and [VideoClip] are the rows of [lib/supabase]; only the fields
    that [ClipCreator] reads are kept. *)
Record Video := mkVideo {
  video_id : string;
  video_title : string;
  file_path : string;
  video_duration : Q
}.

Record VideoClip := mkVideoClip {
  clip_id : string;
  clip_title : string;
  start_time : Q;
  clip_duration : Q
}.

(** [interface ClipSegment] *)
Record ClipSegment := mkClipSegment {
  start : Q;
  duration : Q;
  title : string
}.

(** The [useState] cells of the component. *)
Record State := mkState {
  clips : list ClipSegment;
  clipDuration : Q;
  generating : bool;
  generatedClips : list VideoClip;
  exportingClipId : option string;
  errorMessage : option string;
  videoUrl : string
}.

Definition setClips (v : list ClipSegment) (s : State) : State :=
  mkState v (clipDuration s) (generating s) (generatedClips s)
          (exportingClipId s) (errorMessage s) (videoUrl s).
Definition setClipDuration (v : Q) (s : State) : State :=
  mkState (clips s) v (generating s) (generatedClips s)
          (exportingClipId s) (errorMessage s) (videoUrl s).
Definition setGenerating (v : bool) (s : State) : State :=
  mkState (clips s) (clipDuration s) v (generatedClips s)
          (exportingClipId s) (errorMessage s) (videoUrl s).
Definition setGeneratedClips (v : list VideoClip) (s : State) : State :=
  mkState (clips s) (clipDuration s) (generating s) v
          (exportingClipId s) (errorMessage s) (videoUrl s).
Definition setExportingClipId (v : option string) (s : State) : State :=
  mkState (clips s) (clipDuration s) (generating s) (generatedClips s)
          v (errorMessage s) (videoUrl s).
Definition setErrorMessage (v : option string) (s : State) : State :=
  mkState (clips s) (clipDuration s) (generating s) (generatedClips s)
          (exportingClipId s) v (videoUrl s).

(** [useState(30)] and the other initial cells. *)
Definition initialState : State :=
  mkState [] 30 false [] None None EmptyString.

(** The video of the worked example: 95 seconds long. *)
Definition video95 : Video := mkVideo "v1" "demo" "u/demo.mp4" 95.

(** ** Small JavaScript helpers *)

(** [Math.min] on two finite numbers. *)
Definition Math_min (a b : Q) : Q := if Qlt_le_dec b a then b else a.

(** A natural number printed by a template literal. *)
Definition show_nat (n : nat) : string := NilEmpty.string_of_uint (Nat.to_uint n).

(** [`Clip ${n}`] *)
Definition clipTitle (n : nat) : string := ("Clip " ++ show_nat n)%string.

(** [n] as a number. *)
Definition Qnat (n : nat) : Q := inject_Z (Z.of_nat n).

(** ** Segment planner *)

Module Planner.

(** [addClip], with [currentTime] the playback position read from the
    player ([0] when there is none). *)
Definition addClip (video : Video) (currentTime : Q) (s : State) : State :=
  let d := Math_min (clipDuration s) (video_duration video - currentTime) in
  setClips (clips s ++ [mkClipSegment currentTime d (clipTitle (length (clips s) + 1))]) s.

(** [removeClip]: [clips.filter((_, i) => i !== index)]. *)
Fixpoint filter_index (index i : nat) (l : list ClipSegment) : list ClipSegment :=
  match l with
  | [] => []
  | c :: rest =>
      if Nat.eqb i index then filter_index index (S i) rest
      else c :: filter_index index (S i) rest
  end.

Definition removeClip (index : nat) (s : State) : State :=
  setClips (filter_index index 0 (clips s)) s.

(** *** Confirming the drafts *)

(** What [generateClips] asks of the outside world, in the order asked. *)
Inductive Call :=
| Alert (msg : string)
| GetUser
| Insert (videoId clipTitle' filePath : string) (startTime dur : Q)
| SelectClips (videoId : string)
| ConsoleError.

(** The answers of the hosted services: the signed-in user, whether the
    insert of a given draft is refused, and the rows a later select
    returns ([None] when the select fails). *)
Record Backend := mkBackend {
  currentUser : option string;
  insertRefused : ClipSegment -> bool;
  selectedRows : option (list VideoClip)
}.

(** [loadExistingClips] *)
Definition loadExistingClips (video : Video) (b : Backend) (s : State) : State * list Call :=
  match selectedRows b with
  | None =>
      (setErrorMessage (Some "Tidak bisa memuat klip yang sudah dibuat."%string) s,
       [SelectClips (video_id video); ConsoleError])
  | Some data => (setGeneratedClips data s, [SelectClips (video_id video)])
  end.

Definition insertCall (video : Video) (clip : ClipSegment) : Call :=
  Insert (video_id video) (title clip) (file_path video) (start clip) (duration clip).

(** [generateClips].  The two guards return before [setGenerating(true)];
    past them the user is looked up, one insert per draft is issued (all of
    them, [clips.map] starts every request), and only if none is refused
    the list is reloaded and the drafts are cleared. *)
Definition generateClips (video : Video) (b : Backend) (s : State) : State * list Call :=
  if Nat.eqb (length (clips s)) 0 then
    (s, [Alert "Please add some clips first"%string])
  else if existsb (fun clip => if Qlt_le_dec 0 (duration clip) then false else true) (clips s) then
    (s, [Alert "Clip duration must be greater than 0 seconds"%string])
  else
    let s1 := setGenerating true s in
    match currentUser b with
    | None =>
        (setGenerating false s1,
         [GetUser; ConsoleError; Alert "Failed to generate clips. Please try again."%string])
    | Some _ =>
        let inserts := map (insertCall video) (clips s) in
        if existsb (insertRefused b) (clips s) then
          (setGenerating false s1,
           GetUser :: inserts ++
             [ConsoleError; Alert "Failed to generate clips. Please try again."%string])
        else
          let (s2, loaded) := loadExistingClips video b s1 in
          (setGenerating false (setClips [] s2),
           GetUser :: inserts ++ loaded ++ [Alert "Clips created successfully!"%string])
    end.

(** A call that reaches the session provider or the record store. *)
Definition isPersistenceCall (c : Call) : bool :=
  match c with
  | GetUser | Insert _ _ _ _ _ | SelectClips _ => true
  | Alert _ | ConsoleError => false
  end.

(** A signed-in user and a store that accepts everything. *)
Definition backendOk : Backend := mkBackend (Some "user-1"%string) (fun _ => false) (Some []).

(** One good draft and one of duration 0, as [addClip] makes at the end of
    the video. *)
Definition draftZero : State :=
  setClips [mkClipSegment 0 30 "Clip 1"; mkClipSegment 95 0 "Clip 2"] initialState.

(** *** Specification vocabulary *)

(** [n] slices of length [L] are needed to get from [cur] to [T]. *)
Definition remaining (n : nat) (T L cur : Q) : Prop :=
  match n with
  | O => T <= cur
  | S m => cur + Qnat m * L < T /\ T <= cur + Qnat (S m) * L
  end.

(** The half-open intervals of [segs], taken in order, tile [[a, b)]:
    each starts where the previous one ends and none is empty. *)
Fixpoint chain (a : Q) (segs : list ClipSegment) (b : Q) : Prop :=
  match segs with
  | [] => a == b
  | s :: rest => start s == a /\ 0 < duration s /\ chain (start s + duration s) rest b
  end.

Definition inside (t : Q) (s : ClipSegment) : Prop :=
  start s <= t /\ t < start s + duration s.

Definition dummy : ClipSegment := mkClipSegment 0 0 EmptyString.

Definition seg (segs : list ClipSegment) (i : nat) : ClipSegment := nth i segs dummy.

End Planner.

(** ** Portrait export *)

Module PortraitExport.

(** *** The frame geometry of [drawFrame] *)

(** [canvas.width = 720; canvas.height = 1280] *)
Definition canvas_width : Q := 720.
Definition canvas_height : Q := 1280.

Record DrawRect := mkDrawRect {
  drawWidth : Q;
  drawHeight : Q;
  offsetX : Q;
  offsetY : Q
}.

(** The four numbers [drawFrame] passes to [ctx.drawImage], from the
    intrinsic size of the source video. *)
Definition drawRect (videoWidth videoHeight : Q) : DrawRect :=
  let sourceRatio := videoWidth / videoHeight in
  let targetRatio := canvas_width / canvas_height in
  if Qlt_le_dec targetRatio sourceRatio then
    let dH := canvas_height in
    let dW := videoWidth * (dH / videoHeight) in
    mkDrawRect dW dH (- (dW - canvas_width) / 2) 0
  else
    let dW := canvas_width in
    let dH := videoHeight * (dW / videoWidth) in
    mkDrawRect dW dH 0 (- (dH - canvas_height) / 2).

(** The rectangle covers the canvas and is centred on it. *)
Definition covers (r : DrawRect) : Prop :=
  canvas_width <= drawWidth r /\ canvas_height <= drawHeight r /\
  offsetX r <= 0 /\ offsetY r <= 0 /\
  canvas_width <= offsetX r + drawWidth r /\
  canvas_height <= offsetY r + drawHeight r /\
  offsetX r + drawWidth r - canvas_width == - offsetX r /\
  offsetY r + drawHeight r - canvas_height == - offsetY r.

(** *** The browser as the export sees it *)

Definition TrackId := nat.

(** [recorder.state]; the export never pauses the recorder. *)
Inductive RecorderState := inactive | recording.

(** What one export does to the page, the media objects and the recorder. *)
Inductive Effect :=
| SetCurrentTime (t : Q)
| CanvasCaptureStream
| SourceCaptureStream
| RecorderNew (mime : string)
| RecorderStart
| RecorderStop
| VideoPlay
| VideoPause
| TrackStop (t : TrackId)
| RequestAnimationFrame
| SetTimeout (ms : Q)
| FillRect (x y w h : Q)
| DrawImage (x y w h : Q)
| CreateBlob (parts : list nat) (mime : string)
| Download (fileName : string)
| LogError.

(** Capabilities of the browser and the facts about the media of one
    export: the intrinsic size of the source and the tracks its streams
    carry. *)
Record Env := mkEnv {
  hasMediaRecorder : bool;
  hasCaptureStream : bool;
  hasContext2d : bool;
  isTypeSupported : string -> bool;
  videoWidth : Q;
  videoHeight : Q;
  canvasVideoTracks : list TrackId;
  sourceVideoTracks : list TrackId;
  sourceAudioTracks : list TrackId
}.

(** What the browser delivers to the handlers and awaits of one export. *)
Inductive Event :=
| LoadedMetadata
| LoadError
| Seeked
| PlayResolved
| PlayRejected
| AnimationFrame
| DataAvailable (size : nat)
| TimerExpired
| RecorderStopped
| RecorderError.

(** Where the [async] function is suspended. *)
Inductive Phase := AwaitMetadata | AwaitSeeked | AwaitPlay | AwaitRecording | Returned.

(** [recordingPromise] *)
Inductive PromiseState := Pending | Resolved | Rejected.

(** The variables of one invocation of [exportPortraitClip], with the log
    of its effects (time in milliseconds, oldest first). *)
Record Job := mkJob {
  job_clip : VideoClip;
  phase : Phase;
  recordingStopped : bool;
  recorder : option RecorderState;
  chunks : list nat;
  mimeType : string;
  composedTracks : list TrackId;
  sourceTracks : list TrackId;
  timer : option Q;
  frameRequested : bool;
  recordingPromise : PromiseState;
  trace : list (Q * Effect)
}.

Definition with_phase (v : Phase) (j : Job) : Job :=
  mkJob (job_clip j) v (recordingStopped j) (recorder j) (chunks j) (mimeType j)
        (composedTracks j) (sourceTracks j) (timer j) (frameRequested j)
        (recordingPromise j) (trace j).
Definition with_recordingStopped (v : bool) (j : Job) : Job :=
  mkJob (job_clip j) (phase j) v (recorder j) (chunks j) (mimeType j)
        (composedTracks j) (sourceTracks j) (timer j) (frameRequested j)
        (recordingPromise j) (trace j).
Definition with_recorder (v : option RecorderState) (j : Job) : Job :=
  mkJob (job_clip j) (phase j) (recordingStopped j) v (chunks j) (mimeType j)
        (composedTracks j) (sourceTracks j) (timer j) (frameRequested j)
        (recordingPromise j) (trace j).
Definition with_chunks (v : list nat) (j : Job) : Job :=
  mkJob (job_clip j) (phase j) (recordingStopped j) (recorder j) v (mimeType j)
        (composedTracks j) (sourceTracks j) (timer j) (frameRequested j)
        (recordingPromise j) (trace j).
Definition with_mimeType (v : string) (j : Job) : Job :=
  mkJob (job_clip j) (phase j) (recordingStopped j) (recorder j) (chunks j) v
        (composedTracks j) (sourceTracks j) (timer j) (frameRequested j)
        (recordingPromise j) (trace j).
Definition with_streams (composed source : list TrackId) (j : Job) : Job :=
  mkJob (job_clip j) (phase j) (recordingStopped j) (recorder j) (chunks j) (mimeType j)
        composed source (timer j) (frameRequested j)
        (recordingPromise j) (trace j).
Definition with_timer (v : option Q) (j : Job) : Job :=
  mkJob (job_clip j) (phase j) (recordingStopped j) (recorder j) (chunks j) (mimeType j)
        (composedTracks j) (sourceTracks j) v (frameRequested j)
        (recordingPromise j) (trace j).
Definition with_frameRequested (v : bool) (j : Job) : Job :=
  mkJob (job_clip j) (phase j) (recordingStopped j) (recorder j) (chunks j) (mimeType j)
        (composedTracks j) (sourceTracks j) (timer j) v
        (recordingPromise j) (trace j).
Definition with_recordingPromise (v : PromiseState) (j : Job) : Job :=
  mkJob (job_clip j) (phase j) (recordingStopped j) (recorder j) (chunks j) (mimeType j)
        (composedTracks j) (sourceTracks j) (timer j) (frameRequested j)
        v (trace j).

(** Effects issued at time [now] go to the end of the log. *)
Definition emit (now : Q) (effs : list Effect) (j : Job) : Job :=
  mkJob (job_clip j) (phase j) (recordingStopped j) (recorder j) (chunks j) (mimeType j)
        (composedTracks j) (sourceTracks j) (timer j) (frameRequested j)
        (recordingPromise j) (trace j ++ map (pair now) effs).

(** *** Messages and names *)

Definition msgNotReady : string := "Video belum siap diekspor.".
Definition msgNoMediaRecorder : string :=
  "Browser tidak mendukung MediaRecorder untuk ekspor 9:16.".
Definition msgExportFailed : string :=
  "Gagal membuat video potrait. Coba lagi di browser lain jika masalah berlanjut.".

Definition preferredMimeTypes : list string :=
  ["video/webm;codecs=vp9"; "video/webm;codecs=vp8"; "video/webm"]%string.

(** [\s] and [toLowerCase] on the ASCII part of a title. *)
Definition isSpace (c : ascii) : bool :=
  let n := nat_of_ascii c in
  Nat.eqb n 32 || (Nat.leb 9 n && Nat.leb n 13).

Definition lowerChar (c : ascii) : ascii :=
  let n := nat_of_ascii c in
  if Nat.leb 65 n && Nat.leb n 90 then ascii_of_nat (n + 32) else c.

(** [title.replace(/\s+/g, '-')]: every run of white space becomes one dash. *)
Fixpoint dashSpaces (inRun : bool) (s : string) : string :=
  match s with
  | EmptyString => EmptyString
  | String c rest =>
      if isSpace c then
        if inRun then dashSpaces true rest else String "-" (dashSpaces true rest)
      else String c (dashSpaces false rest)
  end.

Fixpoint toLowerCase (s : string) : string :=
  match s with
  | EmptyString => EmptyString
  | String c rest => String (lowerChar c) (toLowerCase rest)
  end.

(** [link.download] *)
Definition downloadName (clipTitle' : string) : string :=
  (toLowerCase (dashSpaces false clipTitle') ++ "-portrait.webm")%string.

(** *** The closures of one export *)

(** [drawFrame]: nothing once the recording is stopped or the recorder is
    inactive; otherwise black fill, the frame, and the next request. *)
Definition drawFrame (now : Q) (env : Env) (j : Job) : Job :=
  if recordingStopped j then j
  else match recorder j with
       | Some recording =>
           let r := drawRect (videoWidth env) (videoHeight env) in
           with_frameRequested true
             (emit now [FillRect 0 0 canvas_width canvas_height;
                        DrawImage (offsetX r) (offsetY r) (drawWidth r) (drawHeight r);
                        RequestAnimationFrame] j)
       | _ => j
       end.

(** [recorder.ondataavailable] *)
Definition ondataavailable (size : nat) (j : Job) : Job :=
  if Nat.ltb 0 size then with_chunks (chunks j ++ [size]) j else j.

(** [stopRecording]: guarded by [recordingStopped]; the first call stops the
    recorder, then every track of the composed stream, then every track of
    the source stream, then pauses the source. *)
Definition stopRecording (now : Q) (j : Job) : Job :=
  if recordingStopped j then j
  else
    emit now ([RecorderStop] ++ map TrackStop (composedTracks j)
                ++ map TrackStop (sourceTracks j) ++ [VideoPause])
      (with_recorder (Some inactive) (with_recordingStopped true j)).

(** [catch] and [finally] of [exportPortraitClip]. *)
Definition failExport (now : Q) (j : Job) (s : State) : Job * State :=
  (with_phase Returned (emit now [LogError] j),
   setExportingClipId None (setErrorMessage (Some msgExportFailed) s)).

(** The code after [await recordingPromise] when the promise resolved, then
    [finally]. *)
Definition finishExport (now : Q) (j : Job) (s : State) : Job * State :=
  (with_phase Returned
     (emit now [Download (downloadName (clip_title (job_clip j)))] (stopRecording now j)),
   setExportingClipId None s).

(** The code from [sourceVideo.onseeked] to [await sourceVideo.play()]. *)
Definition prepareCapture (now : Q) (env : Env) (j : Job) (s : State) : Job * State :=
  if negb (hasCaptureStream env) then failExport now j s
  else if negb (hasContext2d env) then failExport now j s
  else
    let j1 := with_streams (canvasVideoTracks env ++ sourceAudioTracks env)
                (sourceVideoTracks env ++ sourceAudioTracks env)
                (emit now [CanvasCaptureStream; SourceCaptureStream] j) in
    match find (isTypeSupported env) preferredMimeTypes with
    | None => failExport now j1 s
    | Some mime =>
        (with_phase AwaitPlay
           (emit now [RecorderNew mime; RecorderStart; VideoPlay]
              (with_recorder (Some recording) (with_mimeType mime j1))),
         s)
    end.

(** The code from the resolution of [sourceVideo.play()] to
    [await recordingPromise]; a promise that is already settled is taken up
    at once. *)
Definition startDrawing (now : Q) (j : Job) (s : State) : Job * State :=
  let ms := clip_duration (job_clip j) * 1000 in
  let j1 := with_phase AwaitRecording
              (with_timer (Some (now + ms))
                 (with_frameRequested true
                    (emit now [RequestAnimationFrame; SetTimeout ms] j))) in
  match recordingPromise j1 with
  | Pending => (j1, s)
  | Resolved => finishExport now j1 s
  | Rejected => failExport now j1 s
  end.

(** [recorder.onstop]: builds the blob and resolves the promise; the
    function resumes if it is waiting for it. *)
Definition onstop (now : Q) (j : Job) (s : State) : Job * State :=
  let j1 := emit now [CreateBlob (chunks j) (mimeType j)] j in
  match recordingPromise j1 with
  | Pending =>
      let j2 := with_recordingPromise Resolved j1 in
      match phase j2 with
      | AwaitRecording => finishExport now j2 s
      | _ => (j2, s)
      end
  | _ => (j1, s)
  end.

(** [recorder.onerror]: rejects the promise. *)
Definition onerror (now : Q) (j : Job) (s : State) : Job * State :=
  match recordingPromise j with
  | Pending =>
      let j1 := with_recordingPromise Rejected j in
      match phase j1 with
      | AwaitRecording => failExport now j1 s
      | _ => (j1, s)
      end
  | _ => (j, s)
  end.

(** *** One export, event by event *)

(** The synchronous start of [exportPortraitClip]: the two early returns,
    then the function waits for the metadata of a new video element. *)
Definition exportPortraitClip (env : Env) (clip : VideoClip) (s : State)
  : option Job * State :=
  if String.eqb (videoUrl s) EmptyString then
    (None, setErrorMessage (Some msgNotReady) s)
  else if negb (hasMediaRecorder env) then
    (None, setErrorMessage (Some msgNoMediaRecorder) s)
  else
    (Some (mkJob clip AwaitMetadata false None [] EmptyString [] [] None false Pending []),
     setExportingClipId (Some (clip_id clip)) (setErrorMessage None s)).

(** One event delivered at time [now].  An event nobody listens to, a timer
    that is not armed or not yet due, a frame callback nobody requested:
    nothing happens. *)
Definition step (env : Env) (now : Q) (ev : Event) (js : Job * State) : Job * State :=
  let (j, s) := js in
  match ev with
  | LoadedMetadata =>
      match phase j with
      | AwaitMetadata =>
          (with_phase AwaitSeeked (emit now [SetCurrentTime (start_time (job_clip j))] j), s)
      | _ => js
      end
  | LoadError =>
      match phase j with
      | AwaitMetadata => failExport now j s
      | _ => js
      end
  | Seeked =>
      match phase j with
      | AwaitSeeked => prepareCapture now env j s
      | _ => js
      end
  | PlayResolved =>
      match phase j with
      | AwaitPlay => startDrawing now j s
      | _ => js
      end
  | PlayRejected =>
      match phase j with
      | AwaitPlay => failExport now j s
      | _ => js
      end
  | AnimationFrame =>
      if frameRequested j then (drawFrame now env (with_frameRequested false j), s) else js
  | DataAvailable size =>
      match recorder j with
      | Some _ => (ondataavailable size j, s)
      | None => js
      end
  | TimerExpired =>
      match timer j with
      | Some due =>
          if Qle_bool due now then (stopRecording now (with_timer None j), s) else js
      | None => js
      end
  | RecorderStopped =>
      match recorder j with
      | Some _ => onstop now j s
      | None => js
      end
  | RecorderError =>
      match recorder j with
      | Some _ => onerror now j s
      | None => js
      end
  end.

(** A run: timed events delivered in order. *)
Fixpoint run (env : Env) (evs : list (Q * Event)) (js : Job * State) : Job * State :=
  match evs with
  | [] => js
  | (now, ev) :: rest => run env rest (step env now ev js)
  end.

(** How often an effect was issued. *)
Definition sameEffect (a b : Effect) : bool :=
  match a, b with
  | RecorderStart, RecorderStart => true
  | RecorderStop, RecorderStop => true
  | VideoPause, VideoPause => true
  | TrackStop t, TrackStop u => Nat.eqb t u
  | _, _ => false
  end.

Definition issued (e : Effect) (tr : list (Q * Effect)) : nat :=
  length (filter (fun te => sameEffect e (snd te)) tr).

Definition isDownload (e : Effect) : bool :=
  match e with Download _ => true | _ => false end.
Definition isCreateBlob (e : Effect) : bool :=
  match e with CreateBlob _ _ => true | _ => false end.
Definition isRecorderStart (e : Effect) : bool :=
  match e with RecorderStart => true | _ => false end.
Definition isTrackStop (e : Effect) : bool :=
  match e with TrackStop _ => true | _ => false end.

Definition never (p : Effect -> bool) (tr : list (Q * Effect)) : Prop :=
  forallb (fun te => negb (p (snd te))) tr = true.

(** The time an effect satisfying [p] was first issued. *)
Definition timeOf (p : Effect -> bool) (tr : list (Q * Effect)) : option Q :=
  option_map fst (find (fun te => p (snd te)) tr).

(** Calling the stop path at each of the given times, in order. *)
Fixpoint stopRepeatedly (times : list Q) (j : Job) : Job :=
  match times with
  | [] => j
  | now :: rest => stopRepeatedly rest (stopRecording now j)
  end.

(** What the stop bookkeeping of a job must look like: nothing issued
    before the stop path ran; after it, one recorder stop, one pause, and
    for each track one stop per stream that carries it. *)
Definition stopInv (j : Job) : Prop :=
  (recordingStopped j = false ->
     issued RecorderStop (trace j) = 0%nat /\ issued VideoPause (trace j) = 0%nat /\
     forall t, issued (TrackStop t) (trace j) = 0%nat) /\
  (recordingStopped j = true ->
     issued RecorderStop (trace j) = 1%nat /\ issued VideoPause (trace j) = 1%nat /\
     forall t, issued (TrackStop t) (trace j) =
               (count_occ Nat.eq_dec (composedTracks j) t +
                count_occ Nat.eq_dec (sourceTracks j) t)%nat) /\
  (recorder j = None ->
     recordingStopped j = false /\ timer j = None /\ frameRequested j = false /\
     recordingPromise j = Pending) /\
  (phase j = AwaitMetadata \/ phase j = AwaitSeeked -> recorder j = None) /\
  (phase j = AwaitPlay \/ phase j = AwaitRecording -> recorder j <> None).

(** A browser in which the export cannot record: no [MediaRecorder], no
    [captureStream] on the video element, or none of the three containers. *)
Definition unsupported (env : Env) : Prop :=
  hasMediaRecorder env = false \/ hasCaptureStream env = false \/
  Forall (fun m => isTypeSupported env m = false) preferredMimeTypes.

(** An export that has not created a recorder: nothing recorded, nothing
    buffered, nothing saved, and if it has returned the failure is shown. *)
Definition idleInv (js : Job * State) : Prop :=
  recorder (fst js) = None /\ chunks (fst js) = [] /\ timer (fst js) = None /\
  frameRequested (fst js) = false /\
  never isRecorderStart (trace (fst js)) /\ never isCreateBlob (trace (fst js)) /\
  never isDownload (trace (fst js)) /\
  (phase (fst js) = AwaitMetadata \/ phase (fst js) = AwaitSeeked \/
   (phase (fst js) = Returned /\ errorMessage (snd js) = Some msgExportFailed /\
    exportingClipId (snd js) = None)).

(** *** Time *)

Definition isRecorderStop (e : Effect) : bool :=
  match e with RecorderStop => true | _ => false end.

(** Events delivered in time order, none before [t]. *)
Fixpoint sortedFrom (t : Q) (evs : list (Q * Event)) : Prop :=
  match evs with
  | [] => True
  | (now, _) :: rest => t <= now /\ sortedFrom now rest
  end.

(** Where an armed stop timer comes from: the recorder and the playback
    were started at some [t0]; at [tArm], not earlier, the first frame was
    requested and the timer was armed with the clip's duration in
    milliseconds. *)
Definition armedAt (clip : VideoClip) (j : Job) (t0 tArm due : Q) : Prop :=
  In (t0, RecorderStart) (trace j) /\ In (t0, VideoPlay) (trace j) /\
  In (tArm, RequestAnimationFrame) (trace j) /\
  In (tArm, SetTimeout (clip_duration clip * 1000)) (trace j) /\
  t0 <= tArm /\ due = tArm + clip_duration clip * 1000.

Definition timerInv (bound : Q) (clip : VideoClip) (j : Job) : Prop :=
  job_clip j = clip /\
  Forall (fun te => fst te <= bound) (trace j) /\
  (phase j = AwaitPlay ->
   exists t0, In (t0, RecorderStart) (trace j) /\ In (t0, VideoPlay) (trace j)) /\
  (forall due, timer j = Some due -> exists t0 tArm, armedAt clip j t0 tArm due).

(** C4 as the specification words it: the time from the start of the
    recorder to its stop is the clip's duration, up to one tick. *)
Definition stopsOnTime (tick : Q) (j : Job) : Prop :=
  forall t0 t1,
    timeOf isRecorderStart (trace j) = Some t0 ->
    timeOf isRecorderStop (trace j) = Some t1 ->
    clip_duration (job_clip j) * 1000 <= t1 - t0 /\
    t1 - t0 <= clip_duration (job_clip j) * 1000 + tick.

(** C5 as the specification words it: after the stop path has been
    triggered, the recorder was stopped once, the source paused once and
    each track of the two streams stopped once. *)
Definition stopsEachOnce (j : Job) : Prop :=
  issued RecorderStop (trace j) = 1%nat /\ issued VideoPause (trace j) = 1%nat /\
  forall t, In t (composedTracks j ++ sourceTracks j) ->
            issued (TrackStop t) (trace j) = 1%nat.

(** *** The view and its exports *)

(** The [Ekspor 9:16] button of a clip: [disabled={exportingClipId === clip.id}]. *)
Definition exportDisabled (s : State) (clip : VideoClip) : bool :=
  match exportingClipId s with
  | Some id => String.eqb id (clip_id clip)
  | None => false
  end.


(** The mounted view, its state cells and the exports started from it. *)
Record View := mkView {
  mounted : bool;
  cells : State;
  jobs : list Job
}.

Inductive ViewEvent :=
| ClickExport (clip : VideoClip)
| JobEvent (i : nat) (ev : Event)
| CloseView.

(** Replace element [i] of a list (nothing out of range). *)
Fixpoint replaceAt (i : nat) (j : Job) (l : list Job) : list Job :=
  match l, i with
  | [], _ => []
  | _ :: rest, O => j :: rest
  | x :: rest, S i' => x :: replaceAt i' j rest
  end.

(** One event of the view at time [now].  A click reaches
    [exportPortraitClip] only if the view is mounted and the button is not
    disabled.  [onClose] unmounts the view; the component registers no
    cleanup, so the exports are not touched. *)
Definition viewStep (env : Env) (now : Q) (ev : ViewEvent) (v : View) : View :=
  match ev with
  | ClickExport clip =>
      if mounted v && negb (exportDisabled (cells v) clip) then
        match exportPortraitClip env clip (cells v) with
        | (Some j, s) => mkView (mounted v) s (jobs v ++ [j])
        | (None, s) => mkView (mounted v) s (jobs v)
        end
      else v
  | JobEvent i ev' =>
      match nth_error (jobs v) i with
      | Some j =>
          let (j', s') := step env now ev' (j, cells v) in
          mkView (mounted v) s' (replaceAt i j' (jobs v))
      | None => v
      end
  | CloseView => mkView false (cells v) (jobs v)
  end.

Fixpoint viewRun (env : Env) (evs : list (Q * ViewEvent)) (v : View) : View :=
  match evs with
  | [] => v
  | (now, ev) :: rest => viewRun env rest (viewStep env now ev v)
  end.

(** An export is in flight until its function has returned; it is
    recording while its recorder is. *)
Definition inFlight (j : Job) : bool :=
  match phase j with Returned => false | _ => true end.

Definition isRecording (j : Job) : bool :=
  match recorder j with Some recording => true | _ => false end.




Definition inFlightCount (v : View) : nat := length (filter inFlight (jobs v)).

Definition b2n (b : bool) : nat := if b then 1%nat else 0%nat.


(** A session in which the export of one clip only is ever requested keeps
    this: at most one export in flight, and while there is one the flag
    holds that clip. *)
Definition singleInv (clip : VideoClip) (v : View) : Prop :=
  (inFlightCount v <= 1)%nat /\
  (inFlightCount v = 1%nat -> exportingClipId (cells v) = Some (clip_id clip)).

Definition isClick (ev : ViewEvent) : bool :=
  match ev with ClickExport _ => true | _ => false end.

(** C9 as the specification words it: once the view is closed every export
    has run its stop path, its tracks are stopped and no timer is left. *)
Definition cancelledOnClose (v : View) : Prop :=
  forall j, In j (jobs v) ->
    recordingStopped j = true /\ timer j = None /\
    forall t, In t (composedTracks j ++ sourceTracks j) ->
              (1 <= issued (TrackStop t) (trace j))%nat.

(** *** Sample browsers, clips and jobs *)

Definition supportsWebm (m : string) : bool := String.eqb m "video/webm".

(** A landscape 1920x1080 source with sound; everything is supported. *)
Definition env1080 : Env :=
  mkEnv true true true (fun _ => true) 1920 1080 [0%nat] [1%nat] [2%nat].

(** A portrait 1080x1920 source. *)
Definition env1920 : Env :=
  mkEnv true true true supportsWebm 1080 1920 [0%nat] [1%nat] [2%nat].

(** A browser without any WebM encoder. *)
Definition envNoWebm : Env :=
  mkEnv true true true (fun _ => false) 1920 1080 [0%nat] [1%nat] [2%nat].

(** Ten seconds starting at second 30. *)
Definition clipA : VideoClip := mkVideoClip "a" "Clip 1" 30 10.
Definition clipB : VideoClip := mkVideoClip "b" "Clip 2" 60 10.

(** The view once the public URL of the video is known. *)
Definition readyState : State :=
  mkState [] 30 false [clipA; clipB] None None "https://cdn.example/v.mp4".

(** An export of [clipA] that is recording since time 0. *)
Definition jobRecording : Job :=
  fst (run env1080 [(0, LoadedMetadata); (0, Seeked); (0, PlayResolved)]
         (mkJob clipA AwaitMetadata false None [] EmptyString [] [] None false Pending [],
          readyState)).

(** An export of [clipA] whose playback takes half a second to start; the
    stop timer then fires exactly when it is due. *)
Definition slowPlay : list (Q * Event) :=
  [(0, LoadedMetadata); (100, Seeked); (600, PlayResolved); (10600, TimerExpired)].

Definition jobSlowPlay : Job :=
  fst (run env1080 slowPlay
         (mkJob clipA AwaitMetadata false None [] EmptyString [] [] None false Pending [],
          readyState)).

Definition readyView : View := mkView true readyState [].


(** [clipA] is exported and the view is closed five seconds into the
    recording; later the timer fires and the recorder delivers its data. *)
Definition closeRun : list (Q * ViewEvent) :=
  [(0, ClickExport clipA); (50, JobEvent 0 LoadedMetadata); (100, JobEvent 0 Seeked);
   (150, JobEvent 0 PlayResolved); (5000, CloseView)].

(** The export of [closeRun] at the moment the view is closed. *)
Definition jobAtClose : Job :=
  fst (run env1080 [(50, LoadedMetadata); (100, Seeked); (150, PlayResolved)]
         (mkJob clipA AwaitMetadata false None [] EmptyString [] [] None false Pending [],
          setExportingClipId (Some (clip_id clipA)) (setErrorMessage None readyState))).

Definition afterClose : list (Q * ViewEvent) :=
  [(10150, JobEvent 0 TimerExpired); (10160, JobEvent 0 (DataAvailable 4096));
   (10170, JobEvent 0 RecorderStopped)].

End PortraitExport.

(** ** Drafts: what the planner functions are observed by *)

Module Drafts.
Import Planner.

Definition isInsert (c : Call) : bool :=
  match c with Insert _ _ _ _ _ => true | _ => false end.

Definition isSelect (c : Call) : bool :=
  match c with SelectClips _ => true | _ => false end.

(** The drafts pass the two guards of [generateClips]. *)
Definition draftsAccepted (l : list ClipSegment) : bool :=
  negb (Nat.eqb (length l) 0) &&
  negb (existsb (fun clip => if Qlt_le_dec 0 (duration clip) then false else true) l).

(** Every insert of these drafts is accepted by the store. *)
Definition allAccepted (b : Backend) (l : list ClipSegment) : bool :=
  negb (existsb (insertRefused b) l).

Definition signedIn (b : Backend) : bool :=
  match currentUser b with Some _ => true | None => false end.

(** The [onChange] of a draft's title field: [newClips = [...clips];
    newClips[index].title = value; setClips(newClips)].  With no draft at
    [index] the assignment throws and the state is not set: [None]. *)
Fixpoint setTitleAt (index : nat) (value : string) (l : list ClipSegment)
  : option (list ClipSegment) :=
  match l, index with
  | [], _ => None
  | c :: rest, O => Some (mkClipSegment (start c) (duration c) value :: rest)
  | c :: rest, S i =>
      match setTitleAt i value rest with
      | Some rest' => Some (c :: rest')
      | None => None
      end
  end.

Definition editTitle (index : nat) (value : string) (s : State) : option State :=
  match setTitleAt index value (clips s) with
  | Some l => Some (setClips l s)
  | None => None
  end.

(** A store that refuses the insert of every draft that starts at [t]. *)
Definition backendRefusing (t : Q) : Backend :=
  mkBackend (Some "user-1"%string) (fun c => Qeq_bool (start c) t) (Some []).

Definition backendSignedOut : Backend := mkBackend None (fun _ => false) (Some []).

(** Two good drafts. *)
Definition twoDrafts : State :=
  setClips [mkClipSegment 0 30 "Clip 1"; mkClipSegment 30 30 "Clip 2"] initialState.

End Drafts.

(** ** Observations on the log of an export *)

Module ExportObs.
Import PortraitExport.

(** How many logged effects satisfy [p]. *)
Definition occurrences (p : Effect -> bool) (tr : list (Q * Effect)) : nat :=
  length (filter (fun te => p (snd te)) tr).

Definition isDrawImage (e : Effect) : bool :=
  match e with DrawImage _ _ _ _ => true | _ => false end.

(** A browser in which the export can record: [captureStream], a 2d
    context, and [mime] the first supported candidate. *)
Definition supports (env : Env) (mime : string) : Prop :=
  hasCaptureStream env = true /\ hasContext2d env = true /\
  find (isTypeSupported env) preferredMimeTypes = Some mime.

(** The job [exportPortraitClip] creates, and the state it leaves. *)
Definition freshJob (clip : VideoClip) : Job :=
  mkJob clip AwaitMetadata false None [] EmptyString [] [] None false Pending [].

Definition startedState (clip : VideoClip) (s : State) : State :=
  setExportingClipId (Some (clip_id clip)) (setErrorMessage None s).

(** The stop path of a failed export has run at [at]: the code has called
    [recorder.stop()] once, then, and [track.stop()] once for each track of
    each stream; no file was saved and the failure message is shown. *)
Definition releasedAt (env : Env) (at' : Q) (js : Job * State) : Prop :=
  recordingStopped (fst js) = true /\
  timer (fst js) = None /\
  occurrences isRecorderStop (trace (fst js)) = 1%nat /\
  occurrences isTrackStop (trace (fst js)) =
    (length (canvasVideoTracks env ++ sourceAudioTracks env) +
     length (sourceVideoTracks env ++ sourceAudioTracks env))%nat /\
  In (at', RecorderStop) (trace (fst js)) /\
  occurrences isDownload (trace (fst js)) = 0%nat /\
  errorMessage (snd js) = Some msgExportFailed.

(** [dataavailable] events, one per size. *)
Definition dataEvents (l : list (Q * nat)) : list (Q * Event) :=
  map (fun tn => (fst tn, DataAvailable (snd tn))) l.

(** At most one file is saved, and only by an export that has returned
    with its promise resolved and its stop path run. *)
Definition saveInv (j : Job) : Prop :=
  (phase j = Returned \/ phase j = AwaitMetadata \/ phase j = AwaitSeeked \/
   phase j = AwaitPlay \/ phase j = AwaitRecording) /\
  (occurrences isDownload (trace j) = 0%nat \/
   (occurrences isDownload (trace j) = 1%nat /\ phase j = Returned /\
    recordingPromise j = Resolved /\ recordingStopped j = true)).

(** An export whose playback never started: returned with the failure
    shown, its recorder still recording, nothing stopped, no timer. *)
Definition leakInv (js : Job * State) : Prop :=
  phase (fst js) = Returned /\ timer (fst js) = None /\
  recordingStopped (fst js) = false /\ recorder (fst js) = Some recording /\
  occurrences isRecorderStart (trace (fst js)) = 1%nat /\
  occurrences isRecorderStop (trace (fst js)) = 0%nat /\
  occurrences isTrackStop (trace (fst js)) = 0%nat /\
  occurrences isDownload (trace (fst js)) = 0%nat /\
  errorMessage (snd js) = Some msgExportFailed /\ exportingClipId (snd js) = None.

(** Once the stop path has run, [k] frames have been drawn and no more. *)
Definition stoppedInv (k : nat) (j : Job) : Prop :=
  recordingStopped j = true /\ occurrences isDrawImage (trace j) = k.

(** ASCII text. *)
Fixpoint isAscii (s : string) : bool :=
  match s with
  | EmptyString => true
  | String c rest => Nat.ltb (nat_of_ascii c) 128 && isAscii rest
  end.

Definition isUpper (c : ascii) : bool :=
  Nat.leb 65 (nat_of_ascii c) && Nat.leb (nat_of_ascii c) 90.

Fixpoint allChars (p : ascii -> bool) (s : string) : bool :=
  match s with
  | EmptyString => true
  | String c rest => p c && allChars p rest
  end.

End ExportObs.

(** ** Times as text *)

Module Display.

(** The integer part towards zero, as [%] uses it. *)
Definition trunc (x : Q) : Z := if Qlt_le_dec x 0 then Qceiling x else Qfloor x.

(** [a % b] on finite numbers, [b] not 0: the remainder has the sign of [a]. *)
Definition js_rem (a b : Q) : Q := a - b * inject_Z (trunc (a / b)).

(** An integral number printed by a template literal or [toString]. *)
Definition show_int (z : Z) : string := NilZero.string_of_int (Z.to_int z).

Fixpoint fill (n : nat) (c : ascii) : string :=
  match n with
  | O => EmptyString
  | S n' => String c (fill n' c)
  end.

(** [s.padStart(n, c)] with a one-character filler. *)
Definition padStart (n : nat) (c : ascii) (s : string) : string :=
  (fill (n - String.length s) c ++ s)%string.

(** [formatTime] of [ClipCreator], which is also [formatDuration] of
    [VideoList]. *)
Definition formatTime (seconds : Q) : string :=
  let mins := Qfloor (seconds / 60) in
  let secs := Qfloor (js_rem seconds 60) in
  (show_int mins ++ ":" ++ padStart 2 "0" (show_int secs))%string.

Definition twoChars (k : nat) : bool :=
  Nat.eqb (String.length (padStart 2 "0" (show_int (Z.of_nat k)))) 2.

End Display.

(** ** Uploading a video *)

Module Upload.

(** What [handleFileChange] reads of the chosen file; the size in bytes. *)
Record File := mkFile {
  file_name : string;
  file_type : string;
  file_size : N
}.

(** The [useState] cells of [VideoUpload]. *)
Record UploadState := mkUploadState {
  uploading : bool;
  progress : nat;
  error : option string
}.

Inductive UploadCall :=
| AuthGetUser
| StorageUpload (path : string)
| InsertVideo (userId title' path : string) (dur : Q) (status : string)
| LogUploadError
| ScheduleDone (ms : nat)
| UploadComplete.

(** How the hidden video element answers once its source is set. *)
Inductive Metadata := MetadataFailed | MetadataLoaded (dur : Q) | MetadataPending.

(** The answers of the outside world to one upload. *)
Record Services := mkServices {
  user : option string;
  dateNow : N;
  uploadRefused : bool;
  metadata : Metadata;
  insertRefused : bool
}.

(** [name.split('.')], with [cur] the piece being read. *)
Fixpoint splitDots (s cur : string) : list string :=
  match s with
  | EmptyString => [cur]
  | String c rest =>
      if Ascii.eqb c "." then cur :: splitDots rest EmptyString
      else splitDots rest (cur ++ String c EmptyString)
  end.

(** [file.name.split('.').pop()] *)
Definition fileExt (name : string) : string := last (splitDots name EmptyString) EmptyString.

(** A whole number printed by a template literal. *)
Definition show_N (n : N) : string := NilZero.string_of_uint (N.to_uint n).

(** [`${user.id}/${Date.now()}.${fileExt}`] *)
Definition storagePath (uid : string) (now : N) (name : string) : string :=
  (uid ++ "/" ++ show_N now ++ "." ++ fileExt name)%string.

Definition maxSizeMb : Q := 500.

Definition msgNotVideo : string := "Please select a valid video file".
Definition msgTooLarge : string :=
  "Video is too large. Please upload a file smaller than 500MB.".
Definition msgSignIn : string := "Please sign in to upload videos".
Definition msgUploadFailed : string := "Failed to upload video. Please try again.".
Definition msgNoMetadata : string :=
  "Failed to read video metadata. Please try another file.".

(** [file.size / (1024 * 1024) > maxSizeMb] *)
Definition tooLarge (f : File) : bool :=
  if Qlt_le_dec maxSizeMb (inject_Z (Z.of_N (file_size f)) / (1024 * 1024))
  then true else false.

(** [handleFileChange], with what the handlers it installs do when the
    video element answers.  A refused insert is thrown inside the [async]
    handler of [onloadedmetadata], where nothing catches it. *)
Definition handleFileChange (sv : Services) (file : option File) (st : UploadState)
  : UploadState * list UploadCall :=
  match file with
  | None => (st, [])
  | Some f =>
      if negb (String.prefix "video/" (file_type f)) then
        (mkUploadState (uploading st) (progress st) (Some msgNotVideo), [])
      else if tooLarge f then
        (mkUploadState (uploading st) (progress st) (Some msgTooLarge), [])
      else
        match user sv with
        | None => (mkUploadState false 0 (Some msgSignIn), [AuthGetUser])
        | Some uid =>
            let path := storagePath uid (dateNow sv) (file_name f) in
            if uploadRefused sv then
              (mkUploadState false 0 (Some msgUploadFailed),
               [AuthGetUser; StorageUpload path; LogUploadError])
            else
              match metadata sv with
              | MetadataPending =>
                  (mkUploadState true 0 None, [AuthGetUser; StorageUpload path])
              | MetadataFailed =>
                  (mkUploadState false 0 (Some msgNoMetadata),
                   [AuthGetUser; StorageUpload path])
              | MetadataLoaded d =>
                  let row := InsertVideo uid (file_name f) path d "completed" in
                  if insertRefused sv then
                    (mkUploadState true 0 None, [AuthGetUser; StorageUpload path; row])
                  else
                    (mkUploadState true 100 None,
                     [AuthGetUser; StorageUpload path; row; ScheduleDone 500])
              end
        end
  end.

(** The callback of [setTimeout(..., 500)]. *)
Definition uploadDone (st : UploadState) : UploadState * list UploadCall :=
  (mkUploadState false (progress st) (error st), [UploadComplete]).

Definition isStorageUpload (c : UploadCall) : bool :=
  match c with StorageUpload _ => true | _ => false end.
Definition isInsertVideo (c : UploadCall) : bool :=
  match c with InsertVideo _ _ _ _ _ => true | _ => false end.

(** No dot in a string. *)
Fixpoint noDot (s : string) : bool :=
  match s with
  | EmptyString => true
  | String c rest => negb (Ascii.eqb c ".") && noDot rest
  end.

Definition idle : UploadState := mkUploadState false 0 None.

Definition movie : File := mkFile "holiday.final.mp4" "video/mp4" 52428800%N.

Definition servicesOk : Services :=
  mkServices (Some "u42"%string) 1700000000000%N false (MetadataLoaded 95) false.

End Upload.

(** ** The planner and the draw rectangle on doubles *)

(** JavaScript numbers are IEEE 754 binary64 values.  This module writes
    the arithmetic of [autoGenerateClips] and of [drawFrame] on Rocq's
    primitive binary64 floats, rounding included; [toQ] gives the exact
    rational value of a finite double. *)
Module Binary64.
Import PrimFloat SpecFloat FloatOps.

(** The magnitude [m * 2^e]. *)
Definition mag (m : positive) (e : Z) : Q := inject_Z (Zpos m) * 2 ^ e.

(** The value of a finite binary64 datum. *)
Definition SF2Q (x : spec_float) : Q :=
  match x with
  | S754_finite s m e => if s then - mag m e else mag m e
  | _ => 0
  end.

(** The exact value of a finite double ([0] for the others). *)
Definition toQ (f : float) : Q := SF2Q (Prim2SF f).

(** [Number.isFinite] *)
Definition isFinite (f : float) : bool :=
  match Prim2SF f with
  | S754_finite _ _ _ | S754_zero _ => true
  | _ => false
  end.

(** *** Classes of values *)

(** A finite value: zero or a normal or subnormal number. *)
Definition finiteSF (x : spec_float) : bool :=
  match x with S754_finite _ _ _ | S754_zero _ => true | _ => false end.

(** Zero or below, [-Infinity] included; zero or above; above zero; and
    the values of a given sign bit. *)
Definition nonposSF (x : spec_float) : Prop :=
  match x with
  | S754_zero _ | S754_infinity true | S754_finite true _ _ => True
  | _ => False
  end.




(** [n] as a double (exact below [2^53]). *)
Definition number (n : nat) : float := of_uint63 (Uint63.of_Z (Z.of_nat n)).

(** [Math.min]: NaN if an argument is NaN, and [-0] counts as smaller
    than [+0]. *)
Definition Math_min (a b : float) : float :=
  if is_nan a || is_nan b then nan
  else if (b <? a)%float then b
  else if (a <? b)%float then a
  else if get_sign a then a else b.

(** [interface ClipSegment] *)
Record ClipSegment := mkClipSegment {
  start : float;
  duration : float;
  title : string
}.



(** The [while] loop of [autoGenerateClips]. *)
Fixpoint autoGenerateClips_loop (fuel : nat) (videoDuration clipDur currentTime : float)
         (newClips : list ClipSegment) : option (list ClipSegment) :=
  match fuel with
  | O => None
  | S fuel' =>
      if (currentTime <? videoDuration)%float then
        let d := Math_min clipDur (videoDuration - currentTime)%float in
        autoGenerateClips_loop fuel' videoDuration clipDur (currentTime + d)%float
          (newClips ++ [mkClipSegment currentTime d (clipTitle (length newClips + 1))])
      else Some newClips
  end.

(** [autoSlice totalDuration sliceLength]: the array the loop builds from
    [currentTime = 0] and [newClips = []]. *)
Definition autoSlice (fuel : nat) (totalDuration sliceLength : float) : option (list ClipSegment) :=
  autoGenerateClips_loop fuel totalDuration sliceLength 0%float [].



(** The subtraction, resp. the addition, of two doubles rounds nothing:
    the result is finite and is the exact difference, resp. sum. *)
Definition exact_sub (a b : float) : bool :=
  isFinite (a - b)%float && Qeq_bool (toQ (a - b)%float) (toQ a - toQ b).

Definition exact_add (a b : float) : bool :=
  isFinite (a + b)%float && Qeq_bool (toQ (a + b)%float) (toQ a + toQ b).

(** None of the first [k] iterations of the loop from [currentTime]
    rounds: neither [video.duration - currentTime] nor
    [currentTime += duration]. *)
Fixpoint exactIterations (k : nat) (videoDuration clipDur currentTime : float) : bool :=
  match k with
  | O => true
  | S k' =>
      if (currentTime <? videoDuration)%float then
        let d := Math_min clipDur (videoDuration - currentTime)%float in
        exact_sub videoDuration currentTime && exact_add currentTime d &&
        exactIterations k' videoDuration clipDur (currentTime + d)%float
      else true
  end.

(** The number of slices of the specification:
    [ceil (totalDuration / sliceLength)] on the exact values. *)
Definition sliceCount (totalDuration sliceLength : float) : nat :=
  Z.to_nat (Qceiling (toQ totalDuration / toQ sliceLength)).

(** *** Whole numbers of seconds *)

(** The whole numbers [0, 1, ..., n] as doubles. *)
Definition wholeNumbers (n : nat) : list float := map number (seq 0 (S n)).

(** Each of them is finite and has its own value. *)
Definition wholeValues (n : nat) : bool :=
  forallb (fun k => isFinite (number k) && Qeq_bool (toQ (number k)) (Qnat k))
          (seq 0 (S n)).

(** Along two lists: [fa + fb] is [fab], and [fab - fa] is [fb]. *)
Fixpoint sumsAgree (fa : float) (bs sums : list float) : bool :=
  match bs, sums with
  | fb :: bs', fab :: sums' =>
      Leibniz.eqb (fa + fb)%float fab && Leibniz.eqb (fab - fa)%float fb &&
      sumsAgree fa bs' sums'
  | _, _ => true
  end.

(** For every [a] heading a suffix [a, a + 1, ..., n] of [nums] and every
    [b] with [a + b <= n]: the sum of the doubles [a] and [b] is the double
    [a + b], and the difference of [a + b] and [a] is [b]. *)
Fixpoint wholeSums (nums suffix : list float) : bool :=
  match suffix with
  | [] => true
  | fa :: rest => sumsAgree fa nums suffix && wholeSums nums rest
  end.

(** The range checked exhaustively: durations and slice lengths up to 2048
    whole seconds. *)
Definition longestChecked : nat := 2048.

(** *** Sample runs *)

(** 156 seconds in slices of 5.2 seconds, that is, of the double nearest
    to 5.2. *)
Definition slice5_2 : float := 0x1.4cccccccccccdp+2.
Definition segments156 : list ClipSegment :=
  match autoSlice 40 156 slice5_2 with Some segs => segs | None => [] end.


(** *** The rectangle of [drawFrame] *)

Record DrawRect := mkDrawRect {
  drawWidth : float;
  drawHeight : float;
  offsetX : float;
  offsetY : float
}.

(** [canvas.width = 720; canvas.height = 1280;] *)
Definition canvas_width : float := 720.
Definition canvas_height : float := 1280.

(** The rectangle computed by [drawFrame] from [videoWidth] and
    [videoHeight]. *)
Definition drawRect (videoWidth videoHeight : float) : DrawRect :=
  let sourceRatio := (videoWidth / videoHeight)%float in
  let targetRatio := (canvas_width / canvas_height)%float in
  if (targetRatio <? sourceRatio)%float then
    let drawHeight := canvas_height in
    let drawWidth := (videoWidth * (drawHeight / videoHeight))%float in
    mkDrawRect drawWidth drawHeight (- (drawWidth - canvas_width) / 2)%float 0%float
  else
    let drawWidth := canvas_width in
    let drawHeight := (videoHeight * (drawWidth / videoWidth))%float in
    mkDrawRect drawWidth drawHeight 0%float (- (drawHeight - canvas_height) / 2)%float.

(** The six inequalities of a covering rectangle, as the doubles compare. *)
Definition covers (r : DrawRect) : bool :=
  ((canvas_width <=? drawWidth r) && (canvas_height <=? drawHeight r) &&
   (offsetX r <=? 0) && (offsetY r <=? 0) &&
   (canvas_width <=? offsetX r + drawWidth r) &&
   (canvas_height <=? offsetY r + drawHeight r))%float.

(** [2^-40] of a pixel. *)
Definition tolerance : float := 0x1p-40.

(** The same inequalities, each allowed to fail by [tolerance]. *)
Definition coversWithin (r : DrawRect) : bool :=
  ((canvas_width - tolerance <=? drawWidth r) &&
   (canvas_height - tolerance <=? drawHeight r) &&
   (offsetX r <=? tolerance) && (offsetY r <=? tolerance) &&
   (canvas_width - tolerance <=? offsetX r + drawWidth r) &&
   (canvas_height - tolerance <=? offsetY r + drawHeight r))%float.

(** The rectangle is centred on the canvas, up to [tolerance]: the
    overflow on the left equals the overflow on the right, and likewise
    above and below. *)
Definition centredWithin (r : DrawRect) : bool :=
  ((abs (offsetX r + offsetX r + drawWidth r - canvas_width) <=? tolerance) &&
   (abs (offsetY r + offsetY r + drawHeight r - canvas_height) <=? tolerance))%float.

(** The rectangle has the aspect ratio of the source, up to a relative
    error of [2^-45]. *)
Definition keepsAspectWithin (videoWidth videoHeight : float) (r : DrawRect) : bool :=
  (abs (drawWidth r * videoHeight - drawHeight r * videoWidth)
   <=? 0x1p-45 * (drawHeight r * videoWidth))%float.

(** One side of the rectangle is the canvas's own, unscaled and at
    offset [0]. *)
Definition fitsOneSide (r : DrawRect) : bool :=
  (Leibniz.eqb (drawHeight r) canvas_height && Leibniz.eqb (offsetY r) 0) ||
  (Leibniz.eqb (drawWidth r) canvas_width && Leibniz.eqb (offsetX r) 0).

(** The largest frame side checked exhaustively: 2048 pixels. *)
Definition largestSide : nat := 2048.

(** Every whole frame size up to [side] by [side] pixels gets a rectangle
    that covers, is centred and keeps the aspect, each up to its tolerance. *)
Definition allSizes (side : nat) : bool :=
  let sizes := map number (seq 1 side) in
  forallb (fun w =>
    forallb (fun h =>
      let r := drawRect w h in
      coversWithin r && centredWithin r && keepsAspectWithin w h r)
      sizes)
    sizes.

(** A source of 693x1232 pixels: exactly 9:16. *)
Definition rect693 : DrawRect := drawRect 693 1232.

End Binary64.

(** The exact values of a segment of doubles. *)
Definition exactSegment (c : Binary64.ClipSegment) : ClipSegment :=
  mkClipSegment (Binary64.toQ (Binary64.start c)) (Binary64.toQ (Binary64.duration c))
                (Binary64.title c).

(** ** The page around the creator view *)

Module App.
Import PortraitExport.













End App.

(** ** Facts about doubles *)

Module Binary64Facts.
Import PrimFloat SpecFloat FloatOps FloatAxioms.

Lemma digits2_pos_bounds (m : positive) :
  (2 ^ (Zpos (digits2_pos m) - 1) <= Zpos m < 2 ^ Zpos (digits2_pos m))%Z.
Proof.
  induction m as [m IH | m IH |]; simpl digits2_pos.
  - rewrite Pos2Z.inj_succ.
    replace (Z.succ (Zpos (digits2_pos m)) - 1)%Z with (Z.succ (Zpos (digits2_pos m) - 1))%Z by lia.
    rewrite !Z.pow_succ_r by lia. lia.
  - rewrite Pos2Z.inj_succ.
    replace (Z.succ (Zpos (digits2_pos m)) - 1)%Z with (Z.succ (Zpos (digits2_pos m) - 1))%Z by lia.
    rewrite !Z.pow_succ_r by lia. lia.
  - simpl. lia.
Qed.

Lemma pow2_pos (e : Z) : 0 < 2 ^ e.
Proof. apply Qpower_0_lt. reflexivity. Qed.

Lemma mag_pos (m : positive) (e : Z) : 0 < Binary64.mag m e.
Proof.
  unfold Binary64.mag. apply Qmult_lt_0_compat; [| apply pow2_pos].
  rewrite <- (Zlt_Qlt 0). lia.
Qed.

Lemma mag_same_exp (m1 m2 : positive) (e : Z) :
  match Pos.compare m1 m2 with
  | Lt => Binary64.mag m1 e < Binary64.mag m2 e
  | Eq => Binary64.mag m1 e == Binary64.mag m2 e
  | Gt => Binary64.mag m2 e < Binary64.mag m1 e
  end.
Proof.
  unfold Binary64.mag. pose proof (pow2_pos e) as Hp.
  destruct (Pos.compare_spec m1 m2) as [H | H | H].
  - subst. reflexivity.
  - apply Qmult_lt_compat_r; [exact Hp |]. rewrite <- Zlt_Qlt. lia.
  - apply Qmult_lt_compat_r; [exact Hp |]. rewrite <- Zlt_Qlt. lia.
Qed.

Lemma bounded_digits (m : positive) (e : Z) :
  bounded prec emax m e = true ->
  (-1074 <= e)%Z /\ (Zpos (digits2_pos m) <= 53)%Z /\
  ((-1074 < e)%Z -> Zpos (digits2_pos m) = 53%Z).
Proof.
  unfold bounded, canonical_mantissa, fexp, emin, prec, emax.
  intros H. apply andb_prop in H. destruct H as [H _].
  apply Z.eqb_eq in H. lia.
Qed.

Lemma mag_lt_exp (m1 m2 : positive) (e1 e2 : Z) :
  bounded prec emax m1 e1 = true -> bounded prec emax m2 e2 = true ->
  (e1 < e2)%Z -> Binary64.mag m1 e1 < Binary64.mag m2 e2.
Proof.
  intros H1 H2 He.
  destruct (bounded_digits m1 e1 H1) as (Hlo1 & Hd1 & _).
  destruct (bounded_digits m2 e2 H2) as (_ & _ & Hd2).
  specialize (Hd2 ltac:(lia)).
  pose proof (digits2_pos_bounds m1) as [_ Hm1].
  pose proof (digits2_pos_bounds m2) as [Hm2 _].
  rewrite Hd2 in Hm2.
  assert (Hm1' : (Zpos m1 < 2 ^ 53)%Z).
  { eapply Z.lt_le_trans; [exact Hm1 |]. apply Z.pow_le_mono_r; lia. }
  assert (Hpow : (2 ^ 1 <= 2 ^ (e2 - e1))%Z) by (apply Z.pow_le_mono_r; lia).
  assert (Hz : (Zpos m1 < Zpos m2 * 2 ^ (e2 - e1))%Z).
  { change (2 ^ (53 - 1))%Z with 4503599627370496%Z in Hm2.
    change (2 ^ 53)%Z with 9007199254740992%Z in Hm1'.
    change (2 ^ 1)%Z with 2%Z in Hpow. nia. }
  unfold Binary64.mag.
  assert (Hsplit : 2 ^ e2 == inject_Z (2 ^ (e2 - e1)) * 2 ^ e1).
  { rewrite Zpower_Qpower by lia. rewrite <- Qpower_plus by discriminate.
    replace (e2 - e1 + e1)%Z with e2 by ring. reflexivity. }
  rewrite Hsplit, Qmult_assoc, <- inject_Z_mult.
  apply Qmult_lt_compat_r; [apply pow2_pos |].
  rewrite <- Zlt_Qlt. exact Hz.
Qed.

(** [SFcompare] on two finite binary64 values is the order of their exact values. *)
Lemma SFcompare_exact (x y : spec_float) :
  valid_binary x = true -> valid_binary y = true ->
  Binary64.finiteSF x = true -> Binary64.finiteSF y = true ->
  match SFcompare x y with
  | Some Lt => Binary64.SF2Q x < Binary64.SF2Q y
  | Some Eq => Binary64.SF2Q x == Binary64.SF2Q y
  | Some Gt => Binary64.SF2Q y < Binary64.SF2Q x
  | None => False
  end.
Proof.
  intros Vx Vy Fx Fy.
  destruct x as [sx | sx | | sx mx ex]; try discriminate;
    destruct y as [sy | sy | | sy my ey]; try discriminate; simpl.
  - reflexivity.
  - pose proof (mag_pos my ey). fold (Binary64.mag my ey). destruct sy; lra.
  - pose proof (mag_pos mx ex). fold (Binary64.mag mx ex). destruct sx; lra.
  - simpl in Vx, Vy. fold (Binary64.mag mx ex) (Binary64.mag my ey).
    pose proof (mag_pos mx ex). pose proof (mag_pos my ey).
    destruct sx, sy; try lra.
    + destruct (Z.compare_spec ex ey) as [He | He | He].
      * subst. pose proof (mag_same_exp mx my ey) as Hc.
        change (Pos.compare_cont Eq mx my) with (Pos.compare mx my).
        destruct (Pos.compare mx my); simpl; lra.
      * pose proof (mag_lt_exp mx my ex ey Vx Vy He). lra.
      * pose proof (mag_lt_exp my mx ey ex Vy Vx He). lra.
    + destruct (Z.compare_spec ex ey) as [He | He | He].
      * subst. pose proof (mag_same_exp mx my ey) as Hc.
        change (Pos.compare_cont Eq mx my) with (Pos.compare mx my).
        destruct (Pos.compare mx my); simpl; lra.
      * pose proof (mag_lt_exp mx my ex ey Vx Vy He). lra.
      * pose proof (mag_lt_exp my mx ey ex Vy Vx He). lra.
Qed.

Lemma isFinite_SF (a : float) : Binary64.isFinite a = Binary64.finiteSF (Prim2SF a).
Proof. reflexivity. Qed.

Lemma ltb_exact (a b : float) :
  Binary64.isFinite a = true -> Binary64.isFinite b = true ->
  ((a <? b)%float = true <-> Binary64.toQ a < Binary64.toQ b).
Proof.
  intros Fa Fb. rewrite ltb_spec. unfold SFltb, Binary64.toQ.
  pose proof (SFcompare_exact (Prim2SF a) (Prim2SF b) (Prim2SF_valid a) (Prim2SF_valid b) Fa Fb) as H.
  destruct (SFcompare (Prim2SF a) (Prim2SF b)) as [[| |] |]; split; intros; try easy; try lra.
Qed.

Lemma ltb_exact_false (a b : float) :
  Binary64.isFinite a = true -> Binary64.isFinite b = true ->
  ((a <? b)%float = false <-> Binary64.toQ b <= Binary64.toQ a).
Proof.
  intros Fa Fb. pose proof (ltb_exact a b Fa Fb) as H.
  destruct (a <? b)%float; split; intros; try easy.
  - assert (Binary64.toQ a < Binary64.toQ b) by (apply H; reflexivity). lra.
  - apply Qnot_lt_le. intros Hlt. apply H in Hlt. discriminate.
Qed.

Lemma SFcompare_refl (x : spec_float) : x <> S754_nan -> SFcompare x x = Some Eq.
Proof.
  destruct x as [s | s | | s m e]; intros H; try easy; simpl.
  - destruct s; reflexivity.
  - rewrite Z.compare_refl, Pos.compare_cont_refl. destruct s; reflexivity.
Qed.

Lemma is_nan_SF (a : float) :
  is_nan a = match Prim2SF a with S754_nan => true | _ => false end.
Proof.
  unfold is_nan. rewrite eqb_spec. unfold SFeqb.
  destruct (Prim2SF a) eqn:E; try (rewrite SFcompare_refl by discriminate; reflexivity).
  reflexivity.
Qed.

Lemma isFinite_not_nan (a : float) : Binary64.isFinite a = true -> is_nan a = false.
Proof.
  rewrite is_nan_SF, isFinite_SF. destruct (Prim2SF a); simpl; congruence.
Qed.

(** [Math.min] of two finite doubles is one of them, the exact minimum. *)
Lemma Math_min_exact (a b : float) :
  Binary64.isFinite a = true -> Binary64.isFinite b = true ->
  Binary64.isFinite (Binary64.Math_min a b) = true /\
  Binary64.toQ (Binary64.Math_min a b) ==
    (if Qlt_le_dec (Binary64.toQ b) (Binary64.toQ a) then Binary64.toQ b else Binary64.toQ a).
Proof.
  intros Fa Fb. unfold Binary64.Math_min.
  rewrite (isFinite_not_nan a Fa), (isFinite_not_nan b Fb). simpl.
  pose proof (ltb_exact b a Fb Fa) as Hba. pose proof (ltb_exact a b Fa Fb) as Hab.
  destruct (Qlt_le_dec (Binary64.toQ b) (Binary64.toQ a)) as [Hlt | Hle].
  - apply Hba in Hlt. rewrite Hlt. split; [exact Fb | reflexivity].
  - destruct (b <? a)%float eqn:E1.
    + assert (Binary64.toQ b < Binary64.toQ a) by (apply Hba; reflexivity). lra.
    + destruct (a <? b)%float eqn:E2; [split; [exact Fa | reflexivity] |].
      assert (Heq : Binary64.toQ a == Binary64.toQ b).
      { apply Qle_antisym; [exact Hle |]. apply Qnot_lt_le. intros H.
        apply Hab in H. discriminate. }
      destruct (get_sign a); split; trivial; [reflexivity | symmetry; exact Heq].
Qed.

(** *** Signs *)














Lemma sf_zero : Prim2SF 0%float = S754_zero false.
Proof. reflexivity. Qed.

Lemma leb_zero (a : float) : (a <=? 0)%float = true <-> Binary64.nonposSF (Prim2SF a).
Proof.
  rewrite leb_spec, sf_zero. unfold SFleb.
  destruct (Prim2SF a) as [[] | [] | | [] m e]; simpl; split; easy.
Qed.


Lemma nonpos_not_pos (a : float) : (a <=? 0)%float = true -> (0 <? a)%float = false.
Proof.
  intros H. apply leb_zero in H. rewrite ltb_spec, sf_zero. unfold SFltb.
  destruct (Prim2SF a) as [[] | [] | | [] m e]; simpl in *; easy.
Qed.





End Binary64Facts.

(** ** Facts about the segment planner *)

Module PlannerFacts.
Import Planner.

Lemma Qnat_S (n : nat) : Qnat (S n) == Qnat n + 1.
Proof.
  unfold Qnat. rewrite Nat2Z.inj_succ. unfold Z.succ.
  rewrite inject_Z_plus. reflexivity.
Qed.

Lemma Qnat_0 : Qnat 0 == 0.
Proof. reflexivity. Qed.

Lemma Qnat_nonneg (n : nat) : 0 <= Qnat n.
Proof.
  unfold Qnat. change 0 with (inject_Z 0). rewrite <- Zle_Qle. lia.
Qed.

Lemma Qnat_lt (i j : nat) : (i < j)%nat -> Qnat i < Qnat j.
Proof. intros H. unfold Qnat. rewrite <- Zlt_Qlt. lia. Qed.

Lemma Qnat_le (i j : nat) : (i <= j)%nat -> Qnat i <= Qnat j.
Proof. intros H. unfold Qnat. rewrite <- Zle_Qle. lia. Qed.

Lemma Math_min_l (a b : Q) : a <= b -> Math_min a b == a.
Proof.
  intros H. unfold Math_min. destruct (Qlt_le_dec b a) as [Hlt | Hle]; [lra | reflexivity].
Qed.

Lemma Math_min_r (a b : Q) : b <= a -> Math_min a b == b.
Proof.
  intros H. unfold Math_min. destruct (Qlt_le_dec b a) as [Hlt | Hle]; [reflexivity | lra].
Qed.

Lemma Math_min_compat (a a' b b' : Q) :
  a == a' -> b == b' -> Math_min a b == Math_min a' b'.
Proof.
  intros Ha Hb. unfold Math_min.
  destruct (Qlt_le_dec b a), (Qlt_le_dec b' a'); lra.
Qed.

Lemma Math_min_le_l (a b : Q) : Math_min a b <= a.
Proof. unfold Math_min. destruct (Qlt_le_dec b a); lra. Qed.

Lemma Math_min_le_r (a b : Q) : Math_min a b <= b.
Proof. unfold Math_min. destruct (Qlt_le_dec b a); lra. Qed.

Lemma Math_min_pos (a b : Q) : 0 < a -> 0 < b -> 0 < Math_min a b.
Proof. intros Ha Hb. unfold Math_min. destruct (Qlt_le_dec b a); assumption. Qed.

(** One push moves from [remaining (S n)] to [remaining n]. *)
Lemma remaining_step (n : nat) (T L cur : Q) :
  0 < L -> remaining (S n) T L cur ->
  cur < T /\ remaining n T L (cur + Math_min L (T - cur)) /\
  (n <> O -> Math_min L (T - cur) == L) /\
  (n = O -> Math_min L (T - cur) == T - cur).
Proof.
  intros HL [Hlo Hhi].
  pose proof (Qnat_nonneg n) as Hn.
  assert (Hcur : cur < T) by nra.
  split; [exact Hcur |].
  destruct n as [| m].
  - rewrite Qnat_S in Hhi. change (Qnat 0) with 0 in *.
    assert (Hd : Math_min L (T - cur) == T - cur) by (apply Math_min_r; lra).
    repeat split.
    + simpl. rewrite Hd. lra.
    + intros H; now elim H.
    + intros _; exact Hd.
  - rewrite Qnat_S in Hlo. rewrite !Qnat_S in Hhi.
    pose proof (Qnat_nonneg m) as Hm.
    assert (Hd : Math_min L (T - cur) == L) by (apply Math_min_l; nra).
    repeat split.
    + rewrite Hd. nra.
    + rewrite Hd. rewrite Qnat_S. nra.
    + intros _; exact Hd.
    + intros H; discriminate H.
Qed.

(** *** Tilings in general *)

Lemma chain_le (segs : list ClipSegment) :
  forall a b, chain a segs b -> a <= b.
Proof.
  induction segs as [| s rest IH]; intros a b H; simpl in H.
  - lra.
  - destruct H as (Hs & Hd & Hrest). apply IH in Hrest. lra.
Qed.

Lemma chain_starts_from (segs : list ClipSegment) :
  forall a b i, chain a segs b -> (i < length segs)%nat ->
    a <= start (seg segs i) /\ start (seg segs i) + duration (seg segs i) <= b /\
    0 < duration (seg segs i).
Proof.
  induction segs as [| s rest IH]; intros a b i H Hi; simpl in Hi; [lia |].
  destruct H as (Hs & Hd & Hrest).
  destruct i as [| i]; unfold seg; simpl.
  - apply chain_le in Hrest. lra.
  - destruct (IH _ _ i Hrest ltac:(lia)) as (H1 & H2 & H3). unfold seg in *. lra.
Qed.

(** Consecutive segments touch. *)
Lemma chain_contiguous (segs : list ClipSegment) :
  forall a b i, chain a segs b -> (S i < length segs)%nat ->
    start (seg segs (S i)) == start (seg segs i) + duration (seg segs i).
Proof.
  induction segs as [| s rest IH]; intros a b i H Hi; simpl in Hi; [lia |].
  destruct H as (Hs & Hd & Hrest).
  destruct i as [| i]; unfold seg; simpl.
  - destruct rest as [| s' rest']; simpl in Hi; [lia |].
    simpl in Hrest. simpl. tauto.
  - apply (IH _ _ i Hrest). lia.
Qed.

(** An earlier segment ends before a later one starts. *)
Lemma chain_disjoint (segs : list ClipSegment) :
  forall a b i j, chain a segs b -> (i < j)%nat -> (j < length segs)%nat ->
    start (seg segs i) + duration (seg segs i) <= start (seg segs j).
Proof.
  induction segs as [| s rest IH]; intros a b i j H Hij Hj; simpl in Hj; [lia |].
  destruct H as (Hs & Hd & Hrest).
  destruct j as [| j]; [lia |].
  destruct i as [| i]; unfold seg; simpl.
  - destruct (chain_starts_from rest _ _ j Hrest ltac:(lia)) as (H1 & _). exact H1.
  - apply (IH _ _ i j Hrest); lia.
Qed.

Lemma chain_increasing (segs : list ClipSegment) :
  forall a b i j, chain a segs b -> (i < j)%nat -> (j < length segs)%nat ->
    start (seg segs i) < start (seg segs j).
Proof.
  intros a b i j H Hij Hj.
  pose proof (chain_disjoint segs a b i j H Hij Hj) as Hd.
  destruct (chain_starts_from segs a b i H ltac:(lia)) as (_ & _ & Hpos). lra.
Qed.

(** Every instant of [[a, b)] lies in some segment. *)
Lemma chain_covers (segs : list ClipSegment) :
  forall a b t, chain a segs b -> a <= t -> t < b ->
    exists i, (i < length segs)%nat /\ inside t (seg segs i).
Proof.
  induction segs as [| s rest IH]; intros a b t H Hat Htb; simpl in H.
  - lra.
  - destruct H as (Hs & Hd & Hrest).
    destruct (Qlt_le_dec t (start s + duration s)) as [Hin | Hout].
    + exists O. split; [simpl; lia |]. unfold inside, seg; simpl. lra.
    + destruct (IH _ _ t Hrest Hout Htb) as (i & Hi & Hinside).
      exists (S i). split; [simpl; lia | exact Hinside].
Qed.

(** No instant lies in two segments, and segments stay inside [[a, b)]. *)
Lemma chain_inside_unique (segs : list ClipSegment) :
  forall a b t i j, chain a segs b ->
    (i < length segs)%nat -> (j < length segs)%nat ->
    inside t (seg segs i) -> inside t (seg segs j) -> i = j.
Proof.
  intros a b t i j H Hi Hj [Hi1 Hi2] [Hj1 Hj2].
  destruct (Nat.lt_trichotomy i j) as [Hlt | [Heq | Hgt]]; [| exact Heq |].
  - pose proof (chain_disjoint segs a b i j H Hlt Hj). lra.
  - pose proof (chain_disjoint segs a b j i H Hgt Hi). lra.
Qed.

Lemma chain_inside_range (segs : list ClipSegment) :
  forall a b t i, chain a segs b -> (i < length segs)%nat ->
    inside t (seg segs i) -> a <= t /\ t < b.
Proof.
  intros a b t i H Hi [H1 H2].
  destruct (chain_starts_from segs a b i H Hi) as (Ha & Hb & _). lra.
Qed.

(** *** The number of pushes *)

Lemma remaining_ceiling (T L : Q) :
  0 < T -> 0 < L -> remaining (Z.to_nat (Qceiling (T / L))) T L 0.
Proof.
  intros HT HL.
  assert (Hx : T == (T / L) * L) by (field; lra).
  set (x := T / L) in *.
  assert (Hxpos : 0 < x).
  { unfold x. apply Qlt_shift_div_l; lra. }
  pose proof (Qle_ceiling x) as Hup.
  pose proof (Qceiling_lt x) as Hlo.
  set (c := Qceiling x) in *.
  assert (Hc : (0 < c)%Z).
  { rewrite Zlt_Qlt. change (inject_Z 0) with 0. lra. }
  destruct (Z.to_nat c) as [| m] eqn:Hm; [lia |].
  assert (HSm : Qnat (S m) == inject_Z c).
  { unfold Qnat. rewrite <- Hm. rewrite Z2Nat.id by lia. reflexivity. }
  assert (Hm' : Qnat m == inject_Z (c - 1)).
  { unfold Qnat. replace (Z.of_nat m) with (c - 1)%Z by lia. reflexivity. }
  simpl. rewrite HSm, Hm'. split; nra.
Qed.

(** *** Confirming *)

(** C7.  [generateClips] on an empty draft list, and on a list holding a
    draft whose duration is not positive, only raises an alert: the state
    cells (drafts and persisted clips among them) are unchanged and no call
    reaches the session provider or the record store, whatever those
    services would have answered. *)
Theorem generateClips_rejects :
  forall (video : Video) (b : Backend) (s : State),
    clips s = [] \/ (exists clip, In clip (clips s) /\ duration clip <= 0) ->
    exists msg : string,
      generateClips video b s = (s, [Alert msg]) /\
      fst (generateClips video b s) = s /\
      clips (fst (generateClips video b s)) = clips s /\
      generatedClips (fst (generateClips video b s)) = generatedClips s /\
      existsb isPersistenceCall (snd (generateClips video b s)) = false /\
      ~ In GetUser (snd (generateClips video b s)) /\
      (forall clip, ~ In (insertCall video clip) (snd (generateClips video b s))).
Proof.
  intros video b s H.
  assert (Hshape : exists msg, generateClips video b s = (s, [Alert msg])).
  { unfold generateClips. destruct H as [Hempty | (clip & Hin & Hdur)].
    - rewrite Hempty. simpl. eexists; reflexivity.
    - destruct (Nat.eqb (length (clips s)) 0); [eexists; reflexivity |].
      assert (Hex : existsb (fun c => if Qlt_le_dec 0 (duration c) then false else true)
                      (clips s) = true).
      { apply existsb_exists. exists clip. split; [exact Hin |].
        destruct (Qlt_le_dec 0 (duration clip)); [lra | reflexivity]. }
      rewrite Hex. eexists; reflexivity. }
  destruct Hshape as [msg Heq]. exists msg. rewrite Heq. simpl.
  repeat split; try reflexivity.
  - intros [Habs | []]. discriminate Habs.
  - intros clip [Habs | []]. discriminate Habs.
Qed.

Lemma generateClips_rejects_witness :
  (exists msg, generateClips video95 backendOk initialState = (initialState, [Alert msg])) /\
  (exists msg, generateClips video95 backendOk draftZero = (draftZero, [Alert msg])).
Proof.
  split.
  - destruct (generateClips_rejects video95 backendOk initialState) as (msg & H & _).
    + left. reflexivity.
    + exists msg. exact H.
  - destruct (generateClips_rejects video95 backendOk draftZero) as (msg & H & _).
    + right. exists (mkClipSegment 95 0 "Clip 2"). split.
      * simpl. right. left. reflexivity.
      * simpl. apply Qle_refl.
    + exists msg. exact H.
Defined.

End PlannerFacts.

(** ** Facts about the slicing loop on doubles *)

Module AutoSliceFacts.
Import Planner.
Import PrimFloat.

(** *** Unfolding *)

Lemma loop_step (fuel : nat) (T L cur : float) (acc : list Binary64.ClipSegment) :
  Binary64.autoGenerateClips_loop (S fuel) T L cur acc =
  if (cur <? T)%float then
    Binary64.autoGenerateClips_loop fuel T L (cur + Binary64.Math_min L (T - cur))%float
      (acc ++ [Binary64.mkClipSegment cur (Binary64.Math_min L (T - cur)%float)
                 (clipTitle (length acc + 1))])
  else Some acc.
Proof. reflexivity. Qed.

Lemma exactIterations_step (k : nat) (T L cur : float) :
  Binary64.exactIterations (S k) T L cur =
  if (cur <? T)%float then
    Binary64.exact_sub T cur &&
    Binary64.exact_add cur (Binary64.Math_min L (T - cur)%float) &&
    Binary64.exactIterations k T L (cur + Binary64.Math_min L (T - cur))%float
  else true.
Proof. reflexivity. Qed.

(** More fuel does not change a result. *)
Lemma loop_fuel (fuel : nat) :
  forall (T L cur : float) (acc r : list Binary64.ClipSegment) (fuel' : nat),
    Binary64.autoGenerateClips_loop fuel T L cur acc = Some r -> (fuel <= fuel')%nat ->
    Binary64.autoGenerateClips_loop fuel' T L cur acc = Some r.
Proof.
  induction fuel as [| fuel IH]; intros T L cur acc r fuel' H Hle; [discriminate H |].
  destruct fuel' as [| fuel']; [lia |].
  rewrite loop_step in *. destruct (cur <? T)%float; [| exact H].
  apply (IH _ _ _ _ _ fuel' H). lia.
Qed.

(** *** Iterations that do not round *)

Lemma remaining_compat (n : nat) (T L c c' : Q) :
  c == c' -> remaining n T L c -> remaining n T L c'.
Proof.
  intros H. destruct n as [| m]; simpl.
  - intros Hc. rewrite <- H. exact Hc.
  - intros [H1 H2]. split; rewrite <- H; assumption.
Qed.

Lemma chain_from (segs : list ClipSegment) (a a' b : Q) :
  a == a' -> chain a segs b -> chain a' segs b.
Proof.
  intros H. destruct segs as [| s rest]; simpl.
  - intros Hab. rewrite <- H. exact Hab.
  - intros (Hs & Hd & Hr). split; [rewrite <- H; exact Hs | split; assumption].
Qed.

Lemma exact_sub_spec (a b : float) :
  Binary64.exact_sub a b = true ->
  Binary64.isFinite (a - b)%float = true /\
  Binary64.toQ (a - b)%float == Binary64.toQ a - Binary64.toQ b.
Proof.
  unfold Binary64.exact_sub. intros H. apply andb_true_iff in H.
  destruct H as [H1 H2]. split; [exact H1 | apply Qeq_bool_iff; exact H2].
Qed.

Lemma exact_add_spec (a b : float) :
  Binary64.exact_add a b = true ->
  Binary64.isFinite (a + b)%float = true /\
  Binary64.toQ (a + b)%float == Binary64.toQ a + Binary64.toQ b.
Proof.
  unfold Binary64.exact_add. intros H. apply andb_true_iff in H.
  destruct H as [H1 H2]. split; [exact H1 | apply Qeq_bool_iff; exact H2].
Qed.

(** One iteration that rounds nothing does on the exact values what the
    specification says: the slice is [min L (T - cur)] long and the cursor
    moves by as much. *)
Lemma exact_iteration (T L cur : float) (n : nat) :
  Binary64.isFinite T = true -> Binary64.isFinite L = true ->
  Binary64.isFinite cur = true -> 0 < Binary64.toQ L ->
  remaining (S n) (Binary64.toQ T) (Binary64.toQ L) (Binary64.toQ cur) ->
  Binary64.exactIterations (S n) T L cur = true ->
  (cur <? T)%float = true /\
  Binary64.isFinite (cur + Binary64.Math_min L (T - cur))%float = true /\
  Binary64.toQ (Binary64.Math_min L (T - cur)%float)
  == Math_min (Binary64.toQ L) (Binary64.toQ T - Binary64.toQ cur) /\
  Binary64.toQ (cur + Binary64.Math_min L (T - cur))%float
  == Binary64.toQ cur + Math_min (Binary64.toQ L) (Binary64.toQ T - Binary64.toQ cur) /\
  Binary64.exactIterations n T L (cur + Binary64.Math_min L (T - cur))%float = true.
Proof.
  intros FT FL Fc HL Hrem Hex.
  destruct (PlannerFacts.remaining_step n _ _ _ HL Hrem) as (Hlt & _).
  assert (Hltb : (cur <? T)%float = true) by (apply Binary64Facts.ltb_exact; assumption).
  rewrite exactIterations_step, Hltb in Hex.
  apply andb_true_iff in Hex. destruct Hex as [Hex Hrest].
  apply andb_true_iff in Hex. destruct Hex as [Hsub Hadd].
  apply exact_sub_spec in Hsub. destruct Hsub as [Fx Hx].
  apply exact_add_spec in Hadd. destruct Hadd as [Fn Hn].
  destruct (Binary64Facts.Math_min_exact L (T - cur)%float FL Fx) as [Fd Hd].
  assert (Hd' : Binary64.toQ (Binary64.Math_min L (T - cur)%float)
                == Math_min (Binary64.toQ L) (Binary64.toQ T - Binary64.toQ cur)).
  { rewrite Hd. unfold Math_min.
    destruct (Qlt_le_dec (Binary64.toQ (T - cur)%float) (Binary64.toQ L)),
             (Qlt_le_dec (Binary64.toQ T - Binary64.toQ cur) (Binary64.toQ L)); lra. }
  split; [exact Hltb |]. split; [exact Fn |]. split; [exact Hd' |].
  split; [rewrite Hn, Hd'; reflexivity | exact Hrest].
Qed.

(** [n] iterations that round nothing: the loop returns after them, and the
    exact values of the pushed segments tile [[cur, T)] in slices of [L]. *)
Lemma loop_exact (T L : float) :
  Binary64.isFinite T = true -> Binary64.isFinite L = true -> 0 < Binary64.toQ L ->
  forall (n fuel : nat) (cur : float) (acc : list Binary64.ClipSegment),
    Binary64.isFinite cur = true ->
    remaining n (Binary64.toQ T) (Binary64.toQ L) (Binary64.toQ cur) ->
    Binary64.exactIterations n T L cur = true ->
    (n < fuel)%nat ->
    exists segs : list Binary64.ClipSegment,
      Binary64.autoGenerateClips_loop fuel T L cur acc = Some (acc ++ segs) /\
      length segs = n /\
      (n <> O -> chain (Binary64.toQ cur) (map exactSegment segs) (Binary64.toQ T)) /\
      (forall i, (i < n)%nat ->
         start (seg (map exactSegment segs) i)
         == Binary64.toQ cur + Qnat i * Binary64.toQ L /\
         duration (seg (map exactSegment segs) i)
         == Math_min (Binary64.toQ L)
              (Binary64.toQ T - (Binary64.toQ cur + Qnat i * Binary64.toQ L)) /\
         title (seg (map exactSegment segs) i) = clipTitle (length acc + i + 1)).
Proof.
  intros FT FL HL.
  induction n as [| n IH]; intros fuel cur acc Fc Hrem Hex Hfuel;
    (destruct fuel as [| fuel]; [lia |]).
  - exists []. simpl in Hrem.
    assert (Hge : (cur <? T)%float = false) by (apply Binary64Facts.ltb_exact_false; assumption).
    rewrite loop_step, Hge, app_nil_r.
    split; [reflexivity |]. split; [reflexivity |]. split; [intros H; now elim H |].
    intros i Hi. lia.
  - destruct (exact_iteration T L cur n FT FL Fc HL Hrem Hex)
      as (Hltb & Fn & Hd & Hnext & Hrest).
    destruct (PlannerFacts.remaining_step n _ _ _ HL Hrem) as (Hlt & Hrem' & Hfull & Hlast).
    set (d := Binary64.Math_min L (T - cur)%float) in *.
    set (s0 := Binary64.mkClipSegment cur d (clipTitle (length acc + 1))).
    assert (Hrem'' : remaining n (Binary64.toQ T) (Binary64.toQ L)
                       (Binary64.toQ (cur + d)%float)).
    { apply (remaining_compat n _ _ _ _ (Qeq_sym _ _ Hnext)). exact Hrem'. }
    destruct (IH fuel (cur + d)%float (acc ++ [s0]) Fn Hrem'' Hrest ltac:(lia))
      as (segs & Hrun & Hlen & Hchain & Hnth).
    exists (s0 :: segs).
    split.
    { rewrite loop_step, Hltb. fold d. fold s0. rewrite Hrun, <- app_assoc. reflexivity. }
    split; [simpl; now rewrite Hlen |].
    assert (Hdpos : 0 < Binary64.toQ d).
    { rewrite Hd. apply PlannerFacts.Math_min_pos; lra. }
    split.
    { intros _. unfold s0.
      cbn [map chain exactSegment start duration Binary64.start Binary64.duration].
      split; [reflexivity |]. split; [exact Hdpos |].
      destruct n as [| n'].
      - destruct segs; [| discriminate Hlen]. cbn [map chain].
        specialize (Hlast eq_refl). rewrite Hd, Hlast. ring.
      - apply (chain_from _ (Binary64.toQ (cur + d)%float)).
        + rewrite Hnext, Hd. reflexivity.
        + apply Hchain. discriminate. }
    intros i Hi. destruct i as [| i]; unfold seg; cbn [map nth exactSegment].
    + unfold s0.
      cbn [exactSegment start duration title Binary64.start Binary64.duration Binary64.title].
      change (Qnat 0) with 0. split; [ring |]. split.
      * rewrite Hd. apply PlannerFacts.Math_min_compat; [reflexivity | ring].
      * f_equal. lia.
    + assert (Hn : n <> O) by lia. specialize (Hfull Hn).
      destruct (Hnth i ltac:(lia)) as (Hs & Hdu & Ht). unfold seg in Hs, Hdu, Ht.
      assert (Hcursor : Binary64.toQ (cur + d)%float + Qnat i * Binary64.toQ L
                        == Binary64.toQ cur + Qnat (S i) * Binary64.toQ L).
      { rewrite Hnext, Hfull, PlannerFacts.Qnat_S. ring. }
      split; [rewrite Hs; exact Hcursor |]. split.
      * rewrite Hdu. apply PlannerFacts.Math_min_compat; [reflexivity |].
        rewrite Hcursor. reflexivity.
      * rewrite Ht. f_equal. rewrite length_app. simpl. lia.
Qed.

Lemma toQ_zero : Binary64.toQ 0%float == 0.
Proof. reflexivity. Qed.

Lemma sliceCount_ceiling (T L : float) :
  0 < Binary64.toQ T -> 0 < Binary64.toQ L ->
  Z.of_nat (Binary64.sliceCount T L) = Qceiling (Binary64.toQ T / Binary64.toQ L) /\
  (0 < Binary64.sliceCount T L)%nat /\
  remaining (Binary64.sliceCount T L) (Binary64.toQ T) (Binary64.toQ L) 0.
Proof.
  intros HT HL. pose proof (PlannerFacts.remaining_ceiling _ _ HT HL) as Hrem.
  fold (Binary64.sliceCount T L) in Hrem.
  assert (Hn : (0 < Binary64.sliceCount T L)%nat).
  { destruct (Binary64.sliceCount T L); [simpl in Hrem; lra | lia]. }
  split; [| split; assumption].
  unfold Binary64.sliceCount in *. lia.
Qed.

(** The run without rounding, from the start. *)
Lemma autoSlice_exact (T L : float) :
  Binary64.isFinite T = true -> Binary64.isFinite L = true ->
  0 < Binary64.toQ T -> 0 < Binary64.toQ L ->
  Binary64.exactIterations (Binary64.sliceCount T L) T L 0 = true ->
  exists segs : list Binary64.ClipSegment,
    (forall fuel, (length segs < fuel)%nat -> Binary64.autoSlice fuel T L = Some segs) /\
    length segs = Binary64.sliceCount T L /\
    chain 0 (map exactSegment segs) (Binary64.toQ T) /\
    (forall i, (i < length segs)%nat ->
       start (seg (map exactSegment segs) i) == Qnat i * Binary64.toQ L /\
       duration (seg (map exactSegment segs) i)
       == Math_min (Binary64.toQ L) (Binary64.toQ T - Qnat i * Binary64.toQ L) /\
       title (seg (map exactSegment segs) i) = clipTitle (i + 1)).
Proof.
  intros FT FL HT HL Hex.
  destruct (sliceCount_ceiling T L HT HL) as (_ & Hpos & Hrem).
  set (n := Binary64.sliceCount T L) in *.
  assert (Hrem0 : remaining n (Binary64.toQ T) (Binary64.toQ L) (Binary64.toQ 0%float))
    by exact Hrem.
  destruct (loop_exact T L FT FL HL n (S n) 0%float [] eq_refl Hrem0 Hex ltac:(lia))
    as (segs & Hrun & Hlen & Hchain & Hnth).
  exists segs. rewrite Hlen.
  split.
  { intros fuel Hfuel. unfold Binary64.autoSlice.
    apply (loop_fuel (S n)); [exact Hrun | lia]. }
  split; [reflexivity |].
  split; [apply Hchain; lia |].
  intros i Hi. destruct (Hnth i Hi) as (Hs & Hd & Ht).
  split; [rewrite Hs, toQ_zero; ring |].
  split; [| rewrite Ht; f_equal].
  rewrite Hd. apply PlannerFacts.Math_min_compat; [reflexivity |].
  rewrite toQ_zero. ring.
Qed.

Lemma chain_to (segs : list ClipSegment) :
  forall a b b', b == b' -> chain a segs b -> chain a segs b'.
Proof.
  induction segs as [| s rest IH]; intros a b b' H; simpl.
  - intros Hab. rewrite <- H. exact Hab.
  - intros (Hs & Hd & Hr). split; [exact Hs |]. split; [exact Hd |].
    apply (IH _ b); assumption.
Qed.

(** *** Whole numbers of seconds *)

Lemma whole_values_checked : Binary64.wholeValues Binary64.longestChecked = true.
Proof. vm_compute. reflexivity. Qed.

Lemma whole_sums_checked :
  Binary64.wholeSums (Binary64.wholeNumbers Binary64.longestChecked)
                     (Binary64.wholeNumbers Binary64.longestChecked) = true.
Proof. vm_compute. reflexivity. Qed.

Lemma wholeValues_unfold (n : nat) :
  Binary64.wholeValues n =
  forallb (fun k => Binary64.isFinite (Binary64.number k) &&
                    Qeq_bool (Binary64.toQ (Binary64.number k)) (Qnat k)) (seq 0 (S n)).
Proof. reflexivity. Qed.

Lemma whole_number (k : nat) :
  (k <= Binary64.longestChecked)%nat ->
  Binary64.isFinite (Binary64.number k) = true /\
  Binary64.toQ (Binary64.number k) == Qnat k.
Proof.
  intros Hk. pose proof whole_values_checked as H.
  rewrite wholeValues_unfold, forallb_forall in H.
  specialize (H k ltac:(apply in_seq; lia)).
  apply andb_true_iff in H. destruct H as [H1 H2].
  split; [exact H1 | apply Qeq_bool_iff; exact H2].
Qed.

Lemma sumsAgree_spec (fa : float) (bs : list float) :
  forall (sums : list float) (b : nat),
    Binary64.sumsAgree fa bs sums = true ->
    (b < length bs)%nat -> (b < length sums)%nat ->
    (fa + nth b bs 0 = nth b sums 0)%float /\ (nth b sums 0 - fa = nth b bs 0)%float.
Proof.
  induction bs as [| fb bs IH]; intros sums b H Hb Hs; [simpl in Hb; lia |].
  destruct sums as [| fab sums]; [simpl in Hs; lia |].
  cbn [Binary64.sumsAgree] in H.
  apply andb_true_iff in H. destruct H as [H Hrest].
  apply andb_true_iff in H. destruct H as [H1 H2].
  destruct b as [| b]; cbn [nth].
  - split; apply FloatAxioms.Leibniz.eqb_spec; assumption.
  - apply IH; [exact Hrest | simpl in Hb; lia | simpl in Hs; lia].
Qed.

Lemma wholeSums_spec (nums : list float) (suffix : list float) :
  forall a b : nat,
    Binary64.wholeSums nums suffix = true ->
    (length suffix <= length nums)%nat -> (a + b < length suffix)%nat ->
    (nth a suffix 0 + nth b nums 0 = nth (a + b) suffix 0)%float /\
    (nth (a + b) suffix 0 - nth a suffix 0 = nth b nums 0)%float.
Proof.
  induction suffix as [| fa rest IH]; intros a b H Hlen Hab; [simpl in Hab; lia |].
  cbn [Binary64.wholeSums] in H. apply andb_true_iff in H. destruct H as [Hrow Hrest].
  destruct a as [| a].
  - cbn [nth Nat.add].
    apply (sumsAgree_spec fa nums (fa :: rest) b Hrow); simpl in *; lia.
  - change (S a + b)%nat with (S (a + b)). cbn [nth].
    apply IH; [exact Hrest | simpl in Hlen; lia | simpl in Hab; lia].
Qed.

Lemma nth_wholeNumbers (n k : nat) :
  (k <= n)%nat -> nth k (Binary64.wholeNumbers n) 0%float = Binary64.number k.
Proof.
  intros Hk. unfold Binary64.wholeNumbers.
  change 0%float with (Binary64.number 0).
  rewrite map_nth, seq_nth by lia. reflexivity.
Qed.

(** Sums and differences of whole numbers within the range are exact. *)
Lemma whole_sum (a b : nat) :
  (a + b <= Binary64.longestChecked)%nat ->
  (Binary64.number a + Binary64.number b = Binary64.number (a + b))%float /\
  (Binary64.number (a + b) - Binary64.number a = Binary64.number b)%float.
Proof.
  intros Hab. set (n := Binary64.longestChecked) in *.
  assert (Hlen : length (Binary64.wholeNumbers n) = S n).
  { unfold Binary64.wholeNumbers. now rewrite length_map, length_seq. }
  pose proof (wholeSums_spec (Binary64.wholeNumbers n) (Binary64.wholeNumbers n) a b
                whole_sums_checked (Nat.le_refl _) ltac:(rewrite Hlen; lia)) as H.
  rewrite !nth_wholeNumbers in H by lia. exact H.
Qed.

Lemma Qnat_lt_inv (a b : nat) : Qnat a < Qnat b -> (a < b)%nat.
Proof. unfold Qnat. rewrite <- Zlt_Qlt. lia. Qed.

Lemma Qnat_plus (a b : nat) : Qnat (a + b) == Qnat a + Qnat b.
Proof. unfold Qnat. rewrite Nat2Z.inj_add, inject_Z_plus. reflexivity. Qed.

Lemma whole_ltb (a b : nat) :
  (a <= Binary64.longestChecked)%nat -> (b <= Binary64.longestChecked)%nat ->
  (Binary64.number a <? Binary64.number b)%float = Nat.ltb a b.
Proof.
  intros Ha Hb.
  destruct (whole_number a Ha) as [Fa Va]. destruct (whole_number b Hb) as [Fb Vb].
  destruct (Nat.ltb_spec a b) as [Hlt | Hge].
  - apply Binary64Facts.ltb_exact; trivial. rewrite Va, Vb. now apply PlannerFacts.Qnat_lt.
  - apply Binary64Facts.ltb_exact_false; trivial. rewrite Va, Vb.
    now apply PlannerFacts.Qnat_le.
Qed.

Lemma whole_min (a b : nat) :
  (a <= Binary64.longestChecked)%nat -> (b <= Binary64.longestChecked)%nat ->
  Binary64.Math_min (Binary64.number a) (Binary64.number b) = Binary64.number (Nat.min a b).
Proof.
  intros Ha Hb. unfold Binary64.Math_min.
  destruct (whole_number a Ha) as [Fa _]. destruct (whole_number b Hb) as [Fb _].
  rewrite (Binary64Facts.isFinite_not_nan _ Fa), (Binary64Facts.isFinite_not_nan _ Fb).
  cbn [orb]. rewrite (whole_ltb b a Hb Ha), (whole_ltb a b Ha Hb).
  destruct (Nat.ltb_spec b a) as [H1 | H1]; [f_equal; lia |].
  destruct (Nat.ltb_spec a b) as [H2 | H2]; [f_equal; lia |].
  assert (a = b) by lia. subst b. rewrite Nat.min_id.
  destruct (get_sign _); reflexivity.
Qed.

(** Whole numbers of seconds run without rounding, whatever the cursor
    they are at. *)
Lemma whole_iterations (t l : nat) :
  (t <= Binary64.longestChecked)%nat -> (l <= Binary64.longestChecked)%nat ->
  forall (k c : nat), (c <= t)%nat ->
    Binary64.exactIterations k (Binary64.number t) (Binary64.number l) (Binary64.number c)
    = true.
Proof.
  intros Ht Hl. induction k as [| k IH]; intros c Hc; [reflexivity |].
  rewrite exactIterations_step, (whole_ltb c t ltac:(lia) Ht).
  destruct (Nat.ltb_spec c t) as [Hlt | _]; [| reflexivity].
  destruct (whole_sum c (t - c) ltac:(lia)) as [_ Hsub].
  replace (c + (t - c))%nat with t in Hsub by lia.
  rewrite Hsub, (whole_min l (t - c) Hl ltac:(lia)).
  set (m := Nat.min l (t - c)).
  destruct (whole_sum c m ltac:(lia)) as [Hadd _].
  destruct (whole_number t Ht) as [_ Vt]. destruct (whole_number c ltac:(lia)) as [_ Vc].
  destruct (whole_number (t - c) ltac:(lia)) as [Fx Vx].
  destruct (whole_number m ltac:(lia)) as [_ Vm].
  destruct (whole_number (c + m) ltac:(lia)) as [Fn Vn].
  apply andb_true_iff. split; [apply andb_true_iff; split |].
  - unfold Binary64.exact_sub. rewrite Hsub, Fx. cbn [andb]. apply Qeq_bool_iff.
    rewrite Vx, Vt, Vc. replace t with (c + (t - c))%nat at 2 by lia.
    rewrite Qnat_plus. ring.
  - unfold Binary64.exact_add. rewrite Hadd, Fn. cbn [andb]. apply Qeq_bool_iff.
    rewrite Vn, Vc, Vm. apply Qnat_plus.
  - rewrite Hadd. apply IH. lia.
Qed.

Lemma whole_seconds (t l : nat) :
  (t <= Binary64.longestChecked)%nat -> (l <= Binary64.longestChecked)%nat ->
  Binary64.exactIterations
    (Binary64.sliceCount (Binary64.number t) (Binary64.number l))
    (Binary64.number t) (Binary64.number l) 0 = true.
Proof.
  intros Ht Hl. change 0%float with (Binary64.number 0).
  apply whole_iterations; trivial. lia.
Qed.

Lemma Qnat_pos (k : nat) : (1 <= k)%nat -> 0 < Qnat k.
Proof. intros H. unfold Qnat. rewrite <- (Zlt_Qlt 0). lia. Qed.

(** *** A slice length that is not positive *)


Lemma autoSlice_empty (T L : float) (fuel : nat) :
  (T <=? 0)%float = true -> Binary64.autoSlice (S fuel) T L = Some [].
Proof.
  intros HT. unfold Binary64.autoSlice. rewrite loop_step.
  now rewrite (Binary64Facts.nonpos_not_pos T HT).
Qed.

(** C1 as amended.  Take a finite positive duration [T] and a finite
    positive slice length [L] for which none of the first
    [ceil (T / L)] iterations of the loop rounds.  Then [autoSlice]
    returns (enough fuel given) segments whose count is [ceil (T / L)] and
    whose exact values have strictly increasing start times, tile
    [[0, T)] (contiguous, disjoint, covering every instant once), are
    titled [Clip 1], [Clip 2], ... and are all [L] long but possibly the
    last, which may be shorter.  With a duration that is not positive the
    result is empty, whatever the slice length.  For 95 seconds in slices
    of 30 the result is four segments starting at 0, 30, 60, 90 and lasting
    30, 30, 30, 5.  Whole numbers of seconds up to 2048, for the duration
    and for the slice length, run without rounding, so that count and
    tiling are those of the specification there. *)
Theorem autoSlice_partition :
  (forall T L : float,
      Binary64.isFinite T = true -> Binary64.isFinite L = true ->
      0 < Binary64.toQ T -> 0 < Binary64.toQ L ->
      Binary64.exactIterations (Binary64.sliceCount T L) T L 0 = true ->
      exists segs : list Binary64.ClipSegment,
        let exact := map exactSegment segs in
        (forall fuel, (length segs < fuel)%nat ->
                      Binary64.autoSlice fuel T L = Some segs) /\
        Z.of_nat (length segs) = Qceiling (Binary64.toQ T / Binary64.toQ L) /\
        (forall i j, (i < j)%nat -> (j < length segs)%nat ->
                     start (seg exact i) < start (seg exact j)) /\
        chain 0 exact (Binary64.toQ T) /\
        (forall i, (S i < length segs)%nat ->
                   start (seg exact (S i)) == start (seg exact i) + duration (seg exact i)) /\
        (forall i j, (i < j)%nat -> (j < length segs)%nat ->
                     start (seg exact i) + duration (seg exact i) <= start (seg exact j)) /\
        (forall t, 0 <= t /\ t < Binary64.toQ T <->
                   exists i, (i < length segs)%nat /\ inside t (seg exact i)) /\
        (forall t i j, (i < length segs)%nat -> (j < length segs)%nat ->
                       inside t (seg exact i) -> inside t (seg exact j) -> i = j) /\
        (forall i, (i < length segs)%nat ->
                   title (seg exact i) = clipTitle (i + 1) /\
                   start (seg exact i) == Qnat i * Binary64.toQ L /\
                   0 < duration (seg exact i) /\
                   duration (seg exact i) <= Binary64.toQ L /\
                   ((S i < length segs)%nat -> duration (seg exact i) == Binary64.toQ L)))
  /\ (forall (T L : float) (fuel : nat),
         (T <=? 0)%float = true -> Binary64.autoSlice (S fuel) T L = Some [])
  /\ Binary64.autoSlice 5 95 30 =
     Some [Binary64.mkClipSegment 0 30 "Clip 1"; Binary64.mkClipSegment 30 30 "Clip 2";
           Binary64.mkClipSegment 60 30 "Clip 3"; Binary64.mkClipSegment 90 5 "Clip 4"]
  /\ (forall t l : nat,
         (1 <= t <= Binary64.longestChecked)%nat -> (1 <= l <= Binary64.longestChecked)%nat ->
         exists segs : list Binary64.ClipSegment,
           (forall fuel, (length segs < fuel)%nat ->
              Binary64.autoSlice fuel (Binary64.number t) (Binary64.number l) = Some segs) /\
           Z.of_nat (length segs) = Qceiling (Qnat t / Qnat l) /\
           chain 0 (map exactSegment segs) (Qnat t)).
Proof.
  split; [| split; [| split]].
  - intros T L FT FL HT HL Hex.
    destruct (autoSlice_exact T L FT FL HT HL Hex) as (segs & Hrun & Hlen & Hch & Hnth).
    destruct (sliceCount_ceiling T L HT HL) as (Hceil & _ & _).
    exists segs. cbn zeta.
    assert (Hlm : length (map exactSegment segs) = length segs) by apply length_map.
    split; [exact Hrun |].
    split; [rewrite Hlen; exact Hceil |].
    split.
    { intros i j Hij Hj. apply (PlannerFacts.chain_increasing _ 0 (Binary64.toQ T)); trivial.
      now rewrite Hlm. }
    split; [exact Hch |].
    split.
    { intros i Hi. apply (PlannerFacts.chain_contiguous _ 0 (Binary64.toQ T)); trivial.
      now rewrite Hlm. }
    split.
    { intros i j Hij Hj. apply (PlannerFacts.chain_disjoint _ 0 (Binary64.toQ T)); trivial.
      now rewrite Hlm. }
    split.
    { intros t; split.
      - intros [H0 H1].
        destruct (PlannerFacts.chain_covers _ 0 (Binary64.toQ T) t Hch H0 H1) as (i & Hi & Hin).
        rewrite Hlm in Hi. now exists i.
      - intros (i & Hi & Hin).
        apply (PlannerFacts.chain_inside_range _ 0 (Binary64.toQ T) t i Hch); trivial.
        now rewrite Hlm. }
    split.
    { intros t i j Hi Hj.
      apply (PlannerFacts.chain_inside_unique _ 0 (Binary64.toQ T) t i j Hch);
        now rewrite Hlm. }
    intros i Hi. destruct (Hnth i Hi) as (Hs & Hd & Ht).
    destruct (PlannerFacts.chain_starts_from _ 0 (Binary64.toQ T) i Hch
                ltac:(now rewrite Hlm)) as (_ & _ & Hpos).
    split; [exact Ht |]. split; [exact Hs |]. split; [exact Hpos |].
    split; [rewrite Hd; apply PlannerFacts.Math_min_le_l |].
    intros HSi.
    pose proof (PlannerFacts.chain_contiguous _ 0 (Binary64.toQ T) i Hch
                  ltac:(now rewrite Hlm)) as Hnext.
    destruct (Hnth (S i) HSi) as (Hs' & _ & _).
    rewrite Hs, Hs', PlannerFacts.Qnat_S in Hnext. lra.
  - intros T L fuel HT. now apply autoSlice_empty.
  - vm_compute. reflexivity.
  - intros t l Ht Hl.
    destruct (whole_number t ltac:(lia)) as [FT HTq].
    destruct (whole_number l ltac:(lia)) as [FL HLq].
    assert (HT : 0 < Binary64.toQ (Binary64.number t)) by (rewrite HTq; apply Qnat_pos; lia).
    assert (HL : 0 < Binary64.toQ (Binary64.number l)) by (rewrite HLq; apply Qnat_pos; lia).
    destruct (autoSlice_exact _ _ FT FL HT HL (whole_seconds t l ltac:(lia) ltac:(lia)))
      as (segs & Hrun & Hlen & Hch & _).
    destruct (sliceCount_ceiling _ _ HT HL) as (Hceil & _ & _).
    exists segs. split; [exact Hrun |]. split.
    + rewrite Hlen, Hceil. apply Qceiling_comp. rewrite HTq, HLq. reflexivity.
    + apply (chain_to _ 0 (Binary64.toQ (Binary64.number t))); assumption.
Qed.

Lemma autoSlice_partition_witness :
  Binary64.isFinite 95 = true /\ Binary64.isFinite 30 = true /\
  0 < Binary64.toQ 95 /\ 0 < Binary64.toQ 30 /\
  Binary64.exactIterations (Binary64.sliceCount 95 30) 95 30 0 = true /\
  exists segs : list Binary64.ClipSegment,
    Z.of_nat (length segs) = Qceiling (Binary64.toQ 95 / Binary64.toQ 30) /\
    chain 0 (map exactSegment segs) (Binary64.toQ 95).
Proof.
  assert (FT : Binary64.isFinite 95 = true) by (vm_compute; reflexivity).
  assert (FL : Binary64.isFinite 30 = true) by (vm_compute; reflexivity).
  assert (HT : 0 < Binary64.toQ 95) by (vm_compute; reflexivity).
  assert (HL : 0 < Binary64.toQ 30) by (vm_compute; reflexivity).
  assert (Hex : Binary64.exactIterations (Binary64.sliceCount 95 30) 95 30 0 = true)
    by (vm_compute; reflexivity).
  split; [exact FT |]. split; [exact FL |]. split; [exact HT |]. split; [exact HL |].
  split; [exact Hex |].
  destruct (proj1 autoSlice_partition 95%float 30%float FT FL HT HL Hex)
    as (segs & _ & Hcount & _ & Hchain & _).
  exists segs. split; assumption.
Defined.

(** C1 as stated fails on doubles.  A video of 156 seconds cut in slices
    of 5.2 seconds gets 31 segments where [ceil (156 / 5.2)] is 30: the
    cursor, rounded at every addition, stands just below 156 after thirty
    slices, and a 31st segment of less than [2^-44] seconds is pushed.  The
    segments do not tile exactly either: the fourth does not start where
    the third ends. *)
Lemma autoSlice_count_above_ceiling :
  Binary64.isFinite 156 = true /\ Binary64.isFinite Binary64.slice5_2 = true /\
  0 < Binary64.toQ 156 /\ 0 < Binary64.toQ Binary64.slice5_2 /\
  (26 # 5) - (1 # 1000000000000000) < Binary64.toQ Binary64.slice5_2 /\
  Binary64.toQ Binary64.slice5_2 < (26 # 5) + (1 # 1000000000000000) /\
  Qceiling (Binary64.toQ 156 / Binary64.toQ Binary64.slice5_2) = 30%Z /\
  Qceiling (156 / (26 # 5)) = 30%Z /\
  (forall fuel, (31 < fuel)%nat ->
     Binary64.autoSlice fuel 156 Binary64.slice5_2 = Some Binary64.segments156) /\
  length Binary64.segments156 = 31%nat /\
  (exists last : Binary64.ClipSegment,
     nth_error Binary64.segments156 30 = Some last /\
     Binary64.title last = "Clip 31"%string /\
     (Binary64.start last <? 156)%float = true /\
     (0 <? Binary64.duration last)%float = true /\
     (Binary64.duration last <? 0x1p-44)%float = true) /\
  ~ start (seg (map exactSegment Binary64.segments156) 3)
    == start (seg (map exactSegment Binary64.segments156) 2)
       + duration (seg (map exactSegment Binary64.segments156) 2).
Proof.
  split; [vm_compute; reflexivity |]. split; [vm_compute; reflexivity |].
  split; [vm_compute; reflexivity |]. split; [vm_compute; reflexivity |].
  split; [vm_compute; reflexivity |]. split; [vm_compute; reflexivity |].
  split; [vm_compute; reflexivity |]. split; [vm_compute; reflexivity |].
  split.
  { intros fuel Hfuel. unfold Binary64.autoSlice.
    apply (loop_fuel 32); [vm_compute; reflexivity | lia]. }
  split; [vm_compute; reflexivity |].
  split.
  { eexists. split; [vm_compute; reflexivity |]. cbn [Binary64.title Binary64.start Binary64.duration].
    repeat split; vm_compute; reflexivity. }
  intros H. apply Qeq_bool_iff in H. vm_compute in H. discriminate H.
Qed.




End AutoSliceFacts.

(** ** Facts about the frame geometry *)

Module GeometryFacts.
Import PortraitExport.

(** The target ratio is 9:16. *)
Lemma targetRatio_value : canvas_width / canvas_height == 9 # 16.
Proof. reflexivity. Qed.

Lemma half (x : Q) : x / 2 == x * (1 # 2).
Proof. reflexivity. Qed.

(** The comparison of the two ratios, without divisions. *)
Lemma wider_cross (w h : Q) :
  0 < w -> 0 < h ->
  (canvas_width / canvas_height < w / h <-> 720 * h < 1280 * w).
Proof.
  intros Hw Hh. rewrite targetRatio_value.
  assert (Hr : w == (w / h) * h) by (field; lra).
  set (r := w / h) in *.
  split; intros H.
  - rewrite Hr. nra.
  - rewrite Hr in H. nra.
Qed.

Lemma drawRect_wider (w h : Q) :
  canvas_width / canvas_height < w / h ->
  drawRect w h =
  mkDrawRect (w * (canvas_height / h)) canvas_height
             (- (w * (canvas_height / h) - canvas_width) / 2) 0.
Proof.
  intros H. unfold drawRect.
  destruct (Qlt_le_dec (canvas_width / canvas_height) (w / h)) as [_ | Hle];
    [reflexivity | lra].
Qed.

Lemma drawRect_narrower (w h : Q) :
  w / h <= canvas_width / canvas_height ->
  drawRect w h =
  mkDrawRect canvas_width (h * (canvas_width / w))
             0 (- (h * (canvas_width / w) - canvas_height) / 2).
Proof.
  intros H. unfold drawRect.
  destruct (Qlt_le_dec (canvas_width / canvas_height) (w / h)) as [Hlt | _];
    [lra | reflexivity].
Qed.

(** The drawn width of a wider source, as a multiple of 1280. *)
Lemma wide_width (w h : Q) :
  0 < h -> w * (canvas_height / h) == 1280 * w / h.
Proof. intros Hh. unfold canvas_height. field. lra. Qed.

Lemma narrow_height (w h : Q) :
  0 < w -> h * (canvas_width / w) == 720 * h / w.
Proof. intros Hw. unfold canvas_width. field. lra. Qed.

Lemma drawRect_covers (w h : Q) : 0 < w -> 0 < h -> covers (drawRect w h).
Proof.
  intros Hw Hh. unfold covers.
  destruct (Qlt_le_dec (canvas_width / canvas_height) (w / h)) as [Hwide | Hnarrow].
  - rewrite (drawRect_wider w h Hwide). cbn [drawWidth drawHeight offsetX offsetY].
    apply wider_cross in Hwide; trivial.
    rewrite (wide_width w h Hh).
    assert (Hq : 1280 * w / h == 1280 * (w / h)) by (field; lra).
    assert (Hr : w == (w / h) * h) by (field; lra).
    set (r := w / h) in *. rewrite Hq.
    assert (Hbig : 720 < 1280 * r) by (rewrite Hr in Hwide; nra).
    unfold canvas_width, canvas_height. rewrite !half. repeat split; lra.
  - rewrite (drawRect_narrower w h Hnarrow). cbn [drawWidth drawHeight offsetX offsetY].
    assert (Hcross : 1280 * w <= 720 * h).
    { destruct (Qlt_le_dec (720 * h) (1280 * w)) as [Hlt | Hle]; [| exact Hle].
      apply wider_cross in Hlt; trivial. lra. }
    rewrite (narrow_height w h Hw).
    assert (Hq : 720 * h / w == 720 * (h / w)) by (field; lra).
    assert (Hr : h == (h / w) * w) by (field; lra).
    set (r := h / w) in *. rewrite Hq.
    assert (Hbig : 1280 <= 720 * r) by (rewrite Hr in Hcross; nra).
    unfold canvas_width, canvas_height. rewrite !half. repeat split; lra.
Qed.

(** What [drawFrame] adds to the log of a job that is recording. *)
Lemma drawFrame_recording (now : Q) (env : Env) (j : Job) :
  recordingStopped j = false -> recorder j = Some recording ->
  trace (drawFrame now env j) =
  trace j ++
    [(now, FillRect 0 0 canvas_width canvas_height);
     (now, DrawImage (offsetX (drawRect (videoWidth env) (videoHeight env)))
                     (offsetY (drawRect (videoWidth env) (videoHeight env)))
                     (drawWidth (drawRect (videoWidth env) (videoHeight env)))
                     (drawHeight (drawRect (videoWidth env) (videoHeight env))));
     (now, RequestAnimationFrame)].
Proof.
  intros Hs Hr. unfold drawFrame. rewrite Hs, Hr. reflexivity.
Qed.

Lemma drawFrame_idle (now : Q) (env : Env) (j : Job) :
  recordingStopped j = true \/ recorder j <> Some recording ->
  drawFrame now env j = j.
Proof.
  intros H. unfold drawFrame.
  destruct (recordingStopped j); [reflexivity |].
  destruct H as [H | H]; [discriminate |].
  destruct (recorder j) as [[|] |]; try reflexivity. now elim H.
Qed.

(** C2.  For a source of positive size that is relatively wider than the
    720x1280 canvas, the draw step uses the full canvas height, a width of
    [sourceWidth * (1280 / sourceHeight)], the horizontal offset
    [-(drawWidth - 720) / 2] and no vertical offset, and these are the
    numbers [drawFrame] hands to [drawImage].  For a 1920x1080 source:
    height 1280, width [1280 * 1920 / 1080] (2276 to the nearest pixel),
    horizontal offset [-(drawWidth - 720) / 2] (-778 to the nearest pixel),
    vertical offset 0. *)
Theorem drawFrame_wide_source :
  (forall (env : Env) (now : Q) (j : Job),
      0 < videoWidth env -> 0 < videoHeight env ->
      canvas_width / canvas_height < videoWidth env / videoHeight env ->
      recordingStopped j = false -> recorder j = Some recording ->
      exists r : DrawRect,
        trace (drawFrame now env j) =
        trace j ++ [(now, FillRect 0 0 720 1280);
                    (now, DrawImage (offsetX r) (offsetY r) (drawWidth r) (drawHeight r));
                    (now, RequestAnimationFrame)] /\
        r = drawRect (videoWidth env) (videoHeight env) /\
        drawHeight r == 1280 /\
        drawWidth r == videoWidth env * (1280 / videoHeight env) /\
        offsetX r == - (drawWidth r - 720) / 2 /\
        offsetY r == 0)
  /\ (canvas_width / canvas_height < 1920 / 1080 /\
      drawHeight (drawRect 1920 1080) == 1280 /\
      drawWidth (drawRect 1920 1080) == 1280 * 1920 / 1080 /\
      offsetX (drawRect 1920 1080) == - (drawWidth (drawRect 1920 1080) - 720) / 2 /\
      offsetY (drawRect 1920 1080) == 0 /\
      2276 - (1 # 2) < drawWidth (drawRect 1920 1080) /\
      drawWidth (drawRect 1920 1080) < 2276 + (1 # 2) /\
      - 778 - (1 # 2) < offsetX (drawRect 1920 1080) /\
      offsetX (drawRect 1920 1080) < - 778 + (1 # 2)).
Proof.
  split.
  - intros env now j Hw Hh Hwide Hs Hr.
    exists (drawRect (videoWidth env) (videoHeight env)).
    split; [exact (drawFrame_recording now env j Hs Hr) |].
    split; [reflexivity |].
    rewrite (drawRect_wider _ _ Hwide). cbn [drawWidth drawHeight offsetX offsetY].
    unfold canvas_height, canvas_width. repeat split; reflexivity.
  - vm_compute. repeat split; reflexivity || discriminate.
Qed.

(** A source and a job on which the wide branch runs: 1920x1080, one canvas
    track, one video and one audio track from the source. *)
Lemma drawFrame_wide_source_witness :
  exists r : DrawRect,
    trace (drawFrame 40 env1080 jobRecording) =
    trace jobRecording ++
      [(40, FillRect 0 0 720 1280);
       (40, DrawImage (offsetX r) (offsetY r) (drawWidth r) (drawHeight r));
       (40, RequestAnimationFrame)] /\
    drawHeight r == 1280 /\ offsetY r == 0.
Proof.
  destruct (proj1 drawFrame_wide_source env1080 40 jobRecording)
    as (r & Htr & _ & Hh & _ & _ & Hy); try reflexivity.
  exists r. split; [exact Htr |]. split; [exact Hh | exact Hy].
Defined.

(** The rectangle has the aspect ratio of the source. *)
Lemma drawRect_aspect (w h : Q) :
  0 < w -> 0 < h -> drawWidth (drawRect w h) * h == drawHeight (drawRect w h) * w.
Proof.
  intros Hw Hh.
  destruct (Qlt_le_dec (canvas_width / canvas_height) (w / h)) as [Hwide | Hnarrow].
  - rewrite (drawRect_wider w h Hwide). cbn [drawWidth drawHeight].
    unfold canvas_height. field. lra.
  - rewrite (drawRect_narrower w h Hnarrow). cbn [drawWidth drawHeight].
    unfold canvas_width. field. lra.
Qed.

(** *** The rectangle on doubles *)

Import PrimFloat.

Lemma drawRect_fitsOneSide (w h : float) :
  Binary64.fitsOneSide (Binary64.drawRect w h) = true.
Proof.
  unfold Binary64.fitsOneSide, Binary64.drawRect.
  destruct (ltb _ _);
    cbn [Binary64.drawWidth Binary64.drawHeight Binary64.offsetX Binary64.offsetY];
    [reflexivity | apply orb_true_iff; right; reflexivity].
Qed.

Lemma allSizes_unfold (side : nat) :
  Binary64.allSizes side =
  forallb (fun w =>
    forallb (fun h =>
      Binary64.coversWithin (Binary64.drawRect w h) &&
      Binary64.centredWithin (Binary64.drawRect w h) &&
      Binary64.keepsAspectWithin w h (Binary64.drawRect w h))
      (map Binary64.number (seq 1 side)))
    (map Binary64.number (seq 1 side)).
Proof. reflexivity. Qed.

Lemma all_sizes_checked : Binary64.allSizes Binary64.largestSide = true.
Proof. vm_compute. reflexivity. Qed.

Lemma whole_sizes (w h : nat) :
  (1 <= w <= Binary64.largestSide)%nat -> (1 <= h <= Binary64.largestSide)%nat ->
  Binary64.coversWithin (Binary64.drawRect (Binary64.number w) (Binary64.number h)) = true /\
  Binary64.centredWithin (Binary64.drawRect (Binary64.number w) (Binary64.number h)) = true /\
  Binary64.keepsAspectWithin (Binary64.number w) (Binary64.number h)
    (Binary64.drawRect (Binary64.number w) (Binary64.number h)) = true.
Proof.
  intros Hw Hh. pose proof all_sizes_checked as H.
  rewrite allSizes_unfold, forallb_forall in H.
  specialize (H (Binary64.number w) ltac:(apply in_map, in_seq; lia)).
  rewrite forallb_forall in H.
  specialize (H (Binary64.number h) ltac:(apply in_map, in_seq; lia)).
  apply andb_true_iff in H. destruct H as [H H3].
  apply andb_true_iff in H. destruct H as [H1 H2].
  repeat split; assumption.
Qed.

(** C3 as amended.  Over exact rationals, for a source of positive size
    the rectangle of the draw step covers the whole canvas, is centred on
    it and has the aspect ratio of the source, in both branches of the
    ratio comparison: it is at least 720 wide and 1280 high, its offsets
    are not positive, its far edges are at or beyond the canvas edges, what
    sticks out is the same on both sides, one of its sides is the canvas's
    own, and width to height is as in the source; this is the rectangle of
    every frame [drawFrame] paints.  On doubles one side of the rectangle
    is exactly the canvas's, at offset 0, whatever the source; the scaled
    side is rounded, and for every whole frame size up to 2048 by 2048
    pixels the rectangle covers the canvas and is centred up to [2^-40]
    pixel and keeps the aspect up to a relative error of [2^-45]. *)
Theorem drawFrame_cover_fit :
  (forall (env : Env) (now : Q) (j : Job),
      0 < videoWidth env -> 0 < videoHeight env ->
      let r := drawRect (videoWidth env) (videoHeight env) in
      (720 <= drawWidth r /\ 1280 <= drawHeight r /\
       offsetX r <= 0 /\ offsetY r <= 0 /\
       720 <= offsetX r + drawWidth r /\ 1280 <= offsetY r + drawHeight r /\
       offsetX r + drawWidth r - 720 == - offsetX r /\
       offsetY r + drawHeight r - 1280 == - offsetY r) /\
      ((drawWidth r == 720 /\ offsetX r == 0) \/ (drawHeight r == 1280 /\ offsetY r == 0)) /\
      drawWidth r * videoHeight env == drawHeight r * videoWidth env /\
      (drawFrame now env j = j \/
       trace (drawFrame now env j) =
       trace j ++ [(now, FillRect 0 0 720 1280);
                   (now, DrawImage (offsetX r) (offsetY r) (drawWidth r) (drawHeight r));
                   (now, RequestAnimationFrame)]))
  /\ (forall w h : float, Binary64.fitsOneSide (Binary64.drawRect w h) = true)
  /\ (forall w h : nat,
         (1 <= w <= Binary64.largestSide)%nat -> (1 <= h <= Binary64.largestSide)%nat ->
         let r := Binary64.drawRect (Binary64.number w) (Binary64.number h) in
         Binary64.coversWithin r = true /\ Binary64.centredWithin r = true /\
         Binary64.keepsAspectWithin (Binary64.number w) (Binary64.number h) r = true).
Proof.
  split; [| split].
  - intros env now j Hw Hh r.
    split; [exact (drawRect_covers _ _ Hw Hh) |].
    split.
    { unfold r, drawRect.
      destruct (Qlt_le_dec (canvas_width / canvas_height) (videoWidth env / videoHeight env));
        cbn [drawWidth drawHeight offsetX offsetY]; [right | left]; split; reflexivity. }
    split; [exact (drawRect_aspect _ _ Hw Hh) |].
    destruct (recordingStopped j) eqn:Hs.
    + left. apply drawFrame_idle. now left.
    + destruct (recorder j) as [[|] |] eqn:Hr.
      * left. apply drawFrame_idle. right. congruence.
      * right. exact (drawFrame_recording now env j Hs Hr).
      * left. apply drawFrame_idle. right. congruence.
  - exact drawRect_fitsOneSide.
  - intros w h Hw Hh r. exact (whole_sizes w h Hw Hh).
Qed.

Lemma drawFrame_cover_fit_witness :
  0 < videoWidth env1920 /\ 0 < videoHeight env1920 /\
  720 <= drawWidth (drawRect 1080 1920) /\ 1280 <= drawHeight (drawRect 1080 1920) /\
  drawWidth (drawRect 1080 1920) * 1920 == drawHeight (drawRect 1080 1920) * 1080.
Proof.
  assert (Hw : 0 < videoWidth env1920) by reflexivity.
  assert (Hh : 0 < videoHeight env1920) by reflexivity.
  split; [exact Hw |]. split; [exact Hh |].
  destruct (proj1 drawFrame_cover_fit env1920 0 jobRecording Hw Hh)
    as ((H1 & H2 & _) & _ & H3 & _).
  split; [exact H1 |]. split; [exact H2 | exact H3].
Defined.

(** C3 as stated fails on doubles.  A source of 693x1232 pixels has exactly
    the ratio of the canvas, so the width is kept at 720 and the height is
    scaled: [1232 * (720 / 693)] rounds to 1279.9999999999998, below the
    1280 of the canvas, and the vertical offset is positive. *)
Lemma drawRect_short_of_canvas :
  (Binary64.drawHeight Binary64.rect693 <? 1280)%float = true /\
  (0 <? Binary64.offsetY Binary64.rect693)%float = true /\
  Binary64.drawWidth Binary64.rect693 = 720%float /\
  Binary64.offsetX Binary64.rect693 = 0%float /\
  Binary64.covers Binary64.rect693 = false /\
  Binary64.coversWithin Binary64.rect693 = true.
Proof. repeat split; vm_compute; reflexivity. Qed.

End GeometryFacts.

(** ** Facts about one export *)

Module ExportFacts.
Import PortraitExport.

(** *** Counting effects *)

Lemma issued_app (e : Effect) (a b : list (Q * Effect)) :
  issued e (a ++ b) = (issued e a + issued e b)%nat.
Proof. unfold issued. now rewrite filter_app, length_app. Qed.

Lemma issued_cons (e : Effect) (x : Q * Effect) (l : list (Q * Effect)) :
  issued e (x :: l) = ((if sameEffect e (snd x) then 1 else 0) + issued e l)%nat.
Proof.
  unfold issued. cbn [filter]. destruct (sameEffect e (snd x)); reflexivity.
Qed.

Lemma issued_trackStops (now : Q) (t : TrackId) (l : list TrackId) :
  issued (TrackStop t) (map (pair now) (map TrackStop l)) = count_occ Nat.eq_dec l t.
Proof.
  induction l as [| u l IH]; [reflexivity |].
  cbn [map]. rewrite issued_cons, IH. cbn [snd sameEffect count_occ].
  destruct (Nat.eq_dec u t) as [Heq | Hne].
  - subst u. now rewrite Nat.eqb_refl.
  - assert (Hb : Nat.eqb t u = false) by (apply Nat.eqb_neq; congruence).
    now rewrite Hb.
Qed.

Lemma issued_other_trackStops (now : Q) (e : Effect) (l : list TrackId) :
  (forall t, e <> TrackStop t) ->
  issued e (map (pair now) (map TrackStop l)) = 0%nat.
Proof.
  intros H. induction l as [| u l IH]; [reflexivity |].
  cbn [map]. rewrite issued_cons, IH. cbn [snd].
  destruct e; try reflexivity. now elim (H t).
Qed.

(** The log of the first call of the stop path. *)
Lemma stopRecording_first (now : Q) (j : Job) :
  recordingStopped j = false ->
  trace (stopRecording now j) =
  trace j ++ map (pair now)
    ([RecorderStop] ++ map TrackStop (composedTracks j)
       ++ map TrackStop (sourceTracks j) ++ [VideoPause]) /\
  recordingStopped (stopRecording now j) = true /\
  recorder (stopRecording now j) = Some inactive /\
  composedTracks (stopRecording now j) = composedTracks j /\
  sourceTracks (stopRecording now j) = sourceTracks j /\
  timer (stopRecording now j) = timer j /\
  phase (stopRecording now j) = phase j /\
  chunks (stopRecording now j) = chunks j /\
  recordingPromise (stopRecording now j) = recordingPromise j.
Proof.
  intros H. unfold stopRecording. rewrite H. simpl. repeat split; reflexivity.
Qed.

Lemma stopRecording_again (now : Q) (j : Job) :
  recordingStopped j = true -> stopRecording now j = j.
Proof. intros H. unfold stopRecording. now rewrite H. Qed.

Lemma stopRepeatedly_stopped (times : list Q) (j : Job) :
  recordingStopped j = true -> stopRepeatedly times j = j.
Proof.
  revert j. induction times as [| now rest IH]; intros j H; [reflexivity |].
  simpl. rewrite stopRecording_again by exact H. now apply IH.
Qed.

Lemma stopRecording_counts (now : Q) (j : Job) :
  recordingStopped j = false ->
  issued RecorderStop (trace (stopRecording now j)) = S (issued RecorderStop (trace j)) /\
  issued VideoPause (trace (stopRecording now j)) = S (issued VideoPause (trace j)) /\
  forall t, issued (TrackStop t) (trace (stopRecording now j)) =
            (issued (TrackStop t) (trace j) +
             (count_occ Nat.eq_dec (composedTracks j) t +
              count_occ Nat.eq_dec (sourceTracks j) t))%nat.
Proof.
  intros H. destruct (stopRecording_first now j H) as (Htr & _).
  rewrite Htr. rewrite !map_app. repeat split.
  - rewrite !issued_app.
    rewrite !issued_other_trackStops by discriminate.
    unfold issued at 2 3. simpl. lia.
  - rewrite !issued_app.
    rewrite !issued_other_trackStops by discriminate.
    unfold issued at 2 3. simpl. lia.
  - intros t. rewrite !issued_app, !issued_trackStops.
    unfold issued at 2 3. simpl. lia.
Qed.

(** *** The stop bookkeeping along a run *)

Lemma issued_nil (e : Effect) : issued e [] = 0%nat.
Proof. reflexivity. Qed.

#[local] Opaque issued.

Ltac count_effects :=
  repeat progress
    (rewrite ?map_app, ?issued_app, ?issued_trackStops;
     rewrite ?issued_other_trackStops by discriminate;
     cbn [map app]; rewrite ?issued_app, ?issued_cons, ?issued_nil;
     cbn [snd sameEffect]).

Lemma stopInv_fresh (clip : VideoClip) :
  stopInv (mkJob clip AwaitMetadata false None [] EmptyString [] [] None false Pending []).
Proof.
  unfold stopInv. cbn. repeat split; try reflexivity; try discriminate.
  intros [H | H]; discriminate H.
Qed.

Ltac saturate :=
  repeat match goal with
         | H : ?a = ?a -> _ |- _ => specialize (H eq_refl)
         | H : ?a = ?a \/ _ -> _ |- _ => specialize (H (or_introl eq_refl))
         | H : _ \/ ?a = ?a -> _ |- _ => specialize (H (or_intror eq_refl))
         | H : ?P, H' : ?P -> _ |- _ =>
             match type of P with Prop => specialize (H' H) end
         | H : _ /\ _ |- _ => destruct H
         end.

Ltac close_stopInv :=
  unfold stopInv; cbn;
  repeat match goal with
         | |- _ /\ _ => split
         | |- _ -> _ => intro
         | H : _ \/ _ |- _ => destruct H
         end;
  try discriminate; saturate; subst; saturate; try discriminate; try congruence;
  count_effects;
  repeat match goal with
         | H : issued _ _ = _ |- _ => rewrite H
         | H : forall t, issued (TrackStop t) _ = _ |- _ => rewrite H
         end;
  try reflexivity; try lia.

(** Unfold one step down to its branches. *)
Ltac step_branches :=
  cbn [step]; unfold prepareCapture, startDrawing, onstop, onerror, finishExport,
    failExport, stopRecording, drawFrame, ondataavailable;
  cbn -[Qle_bool Nat.ltb find preferredMimeTypes downloadName drawRect Qplus Qmult];
  repeat match goal with
         | |- context [match ?x with _ => _ end] =>
             destruct x eqn:?;
             cbn -[Qle_bool Nat.ltb find preferredMimeTypes downloadName drawRect Qplus Qmult]
         end.

Lemma step_stopInv (env : Env) (now : Q) (ev : Event) (j : Job) (s : State) :
  stopInv j -> stopInv (fst (step env now ev (j, s))).
Proof.
  intros Hinv.
  assert (Hinv' := Hinv).
  destruct Hinv' as (Hrun & Hdone & Hnone & Hearly & Hlate).
  destruct j as [clip ph rs rec ch mime comp src tm fr pr tr].
  cbn [recordingStopped recorder composedTracks sourceTracks timer frameRequested
       recordingPromise phase trace] in *.
  destruct ev; step_branches; try exact Hinv; close_stopInv.
Qed.

Lemma run_stopInv (env : Env) (evs : list (Q * Event)) :
  forall (j : Job) (s : State), stopInv j -> stopInv (fst (run env evs (j, s))).
Proof.
  induction evs as [| [now ev] rest IH]; intros j s Hinv; [exact Hinv |].
  cbn [run]. destruct (step env now ev (j, s)) as [j' s'] eqn:Hstep.
  apply IH. change j' with (fst (j', s')). rewrite <- Hstep.
  now apply step_stopInv.
Qed.

(** A job that [exportPortraitClip] has just created. *)
Lemma exportPortraitClip_job (env : Env) (clip : VideoClip) (s s0 : State) (j0 : Job) :
  exportPortraitClip env clip s = (Some j0, s0) ->
  j0 = mkJob clip AwaitMetadata false None [] EmptyString [] [] None false Pending [] /\
  s0 = setExportingClipId (Some (clip_id clip)) (setErrorMessage None s) /\
  videoUrl s <> EmptyString /\ hasMediaRecorder env = true.
Proof.
  unfold exportPortraitClip. intros H.
  destruct (String.eqb (videoUrl s) EmptyString) eqn:Hurl; [discriminate |].
  destruct (hasMediaRecorder env); cbn in H; [| discriminate].
  inversion H. repeat split.
  intros Habs. rewrite Habs in Hurl. discriminate.
Qed.

(** C5 as amended.  The first call of the stop path sets the one-shot flag,
    stops the recorder once, pauses the source once and calls [stop] on
    every track of the composed stream and on every track of the source
    stream, once per stream that carries the track; every later call
    changes nothing.  Over a whole export, whatever events arrive, the
    recorder is stopped at most once, the source is paused at most once and
    a track is stopped at most once per stream that carries it. *)
Theorem stopRecording_idempotent :
  (forall (now : Q) (j : Job),
      recordingStopped j = false ->
      recordingStopped (stopRecording now j) = true /\
      issued RecorderStop (trace (stopRecording now j)) = S (issued RecorderStop (trace j)) /\
      issued VideoPause (trace (stopRecording now j)) = S (issued VideoPause (trace j)) /\
      (forall t, issued (TrackStop t) (trace (stopRecording now j)) =
                 (issued (TrackStop t) (trace j) +
                  (count_occ Nat.eq_dec (composedTracks j) t +
                   count_occ Nat.eq_dec (sourceTracks j) t))%nat) /\
      (forall t, In t (composedTracks j ++ sourceTracks j) ->
                 (issued (TrackStop t) (trace j) <
                  issued (TrackStop t) (trace (stopRecording now j)))%nat) /\
      (forall later : list Q,
          stopRepeatedly later (stopRecording now j) = stopRecording now j))
  /\ (forall (now : Q) (j : Job),
         recordingStopped j = true -> stopRecording now j = j)
  /\ (forall (env : Env) (clip : VideoClip) (s s0 : State) (j0 : Job)
             (evs : list (Q * Event)),
         exportPortraitClip env clip s = (Some j0, s0) ->
         (issued RecorderStop (trace (fst (run env evs (j0, s0)))) <= 1)%nat /\
         (issued VideoPause (trace (fst (run env evs (j0, s0)))) <= 1)%nat /\
         (forall t,
             (issued (TrackStop t) (trace (fst (run env evs (j0, s0)))) <=
              count_occ Nat.eq_dec (composedTracks (fst (run env evs (j0, s0)))) t +
              count_occ Nat.eq_dec (sourceTracks (fst (run env evs (j0, s0)))) t)%nat)).
Proof.
  split; [| split].
  - intros now j Hrs.
    destruct (stopRecording_first now j Hrs) as (_ & Hflag & _).
    destruct (stopRecording_counts now j Hrs) as (Hstop & Hpause & Htracks).
    split; [exact Hflag |]. split; [exact Hstop |]. split; [exact Hpause |].
    split; [exact Htracks |]. split.
    + intros t Hin. rewrite Htracks.
      apply in_app_or in Hin. destruct Hin as [Hin | Hin];
        apply (count_occ_In Nat.eq_dec) in Hin; lia.
    + intros later. now apply stopRepeatedly_stopped.
  - exact stopRecording_again.
  - intros env clip s s0 j0 evs Hstart.
    destruct (exportPortraitClip_job env clip s s0 j0 Hstart) as (-> & _).
    pose proof (run_stopInv env evs _ s0 (stopInv_fresh clip)) as Hinv.
    destruct Hinv as (Hrun & Hdone & _).
    destruct (recordingStopped (fst (run env evs _))) eqn:Hrs.
    + destruct (Hdone eq_refl) as (H1 & H2 & H3). rewrite H1, H2.
      repeat split; try lia. intros t. rewrite H3. lia.
    + destruct (Hrun eq_refl) as (H1 & H2 & H3). rewrite H1, H2.
      repeat split; try lia. intros t. rewrite H3. lia.
Qed.

Lemma stopRecording_idempotent_witness :
  recordingStopped jobRecording = false /\
  stopRepeatedly [10020; 10040] (stopRecording 10000 jobRecording) =
  stopRecording 10000 jobRecording.
Proof.
  assert (Hrs : recordingStopped jobRecording = false) by reflexivity.
  split; [exact Hrs |].
  destruct (proj1 stopRecording_idempotent 10000 jobRecording Hrs)
    as (_ & _ & _ & _ & _ & Hlater).
  exact (Hlater [10020; 10040]).
Defined.

(** C5 as stated fails: the audio track of the source belongs to the
    composed stream and to the source stream, and the first call of the
    stop path calls its [stop] once for each. *)
Lemma stopRecording_audio_track_twice :
  In 2%nat (composedTracks jobRecording) /\ In 2%nat (sourceTracks jobRecording) /\
  issued (TrackStop 2%nat) (trace (stopRepeatedly [10000; 10020] jobRecording)) = 2%nat /\
  ~ stopsEachOnce (stopRepeatedly [10000; 10020] jobRecording).
Proof.
  assert (H2 : issued (TrackStop 2%nat) (trace (stopRepeatedly [10000; 10020] jobRecording))
               = 2%nat) by (vm_compute; reflexivity).
  assert (Hin : In 2%nat (composedTracks jobRecording)) by (vm_compute; tauto).
  repeat split; trivial.
  - vm_compute; tauto.
  - intros (_ & _ & Hall).
    specialize (Hall 2%nat).
    assert (Hin' : In 2%nat (composedTracks (stopRepeatedly [10000; 10020] jobRecording)
                            ++ sourceTracks (stopRepeatedly [10000; 10020] jobRecording)))
      by (vm_compute; tauto).
    specialize (Hall Hin'). rewrite H2 in Hall. discriminate.
Qed.

(** *** Browsers that cannot record *)

Lemma never_app (p : Effect -> bool) (a b : list (Q * Effect)) :
  never p (a ++ b) <-> never p a /\ never p b.
Proof. unfold never. rewrite forallb_app. apply andb_true_iff. Qed.

Lemma find_unsupported (env : Env) :
  Forall (fun m => isTypeSupported env m = false) preferredMimeTypes ->
  find (isTypeSupported env) preferredMimeTypes = None.
Proof.
  intros H. destruct (find (isTypeSupported env) preferredMimeTypes) as [m |] eqn:Hf;
    [| reflexivity].
  apply find_some in Hf. destruct Hf as [Hin Hsup].
  rewrite Forall_forall in H. rewrite (H m Hin) in Hsup. discriminate.
Qed.

(** The candidates are probed in the order vp9, vp8, plain WebM. *)
Lemma mime_probe_order (env : Env) :
  find (isTypeSupported env) preferredMimeTypes =
  if isTypeSupported env "video/webm;codecs=vp9" then Some "video/webm;codecs=vp9"%string
  else if isTypeSupported env "video/webm;codecs=vp8" then Some "video/webm;codecs=vp8"%string
  else if isTypeSupported env "video/webm" then Some "video/webm"%string
  else None.
Proof. reflexivity. Qed.

Lemma idleInv_fresh (clip : VideoClip) (s : State) :
  idleInv (mkJob clip AwaitMetadata false None [] EmptyString [] [] None false Pending [], s).
Proof. unfold idleInv, never. cbn. repeat split. now left. Qed.

Section Unsupported.

(** A browser in which [prepareCapture] cannot get as far as the recorder. *)
Variable env : Env.
Hypothesis no_capture :
  hasCaptureStream env = false \/
  find (isTypeSupported env) preferredMimeTypes = None.

Lemma step_idleInv (now : Q) (ev : Event) (js : Job * State) :
  idleInv js -> idleInv (step env now ev js).
Proof.
  intros Hinv. assert (Hinv' := Hinv).
  destruct js as [j s].
  destruct Hinv' as (Hrec & Hch & Htm & Hfr & Hstart & Hblob & Hsave & Hph).
  destruct j as [clip ph rs rec ch mime comp src tm fr pr tr].
  cbn [fst snd recorder chunks timer frameRequested phase trace] in *.
  subst rec ch tm fr.
  destruct ev; step_branches; try exact Hinv;
    try (destruct no_capture as [Henv | Henv]; rewrite Henv in *; discriminate);
    try (destruct Hph as [Hph | [Hph | (Hph & _)]]; discriminate Hph);
    unfold idleInv; cbn [fst snd recorder chunks timer frameRequested phase trace];
    repeat split; trivial;
    try (apply never_app; split; [assumption | reflexivity]);
    try (apply never_app; split; [apply never_app; split; [assumption |] |]; reflexivity);
    auto.
Qed.

Lemma run_idleInv (evs : list (Q * Event)) :
  forall js, idleInv js -> idleInv (run env evs js).
Proof.
  induction evs as [| [now ev] rest IH]; intros js Hinv; [exact Hinv |].
  cbn [run]. apply IH. now apply step_idleInv.
Qed.

End Unsupported.

(** C6.  In a browser without [MediaRecorder], without [captureStream] on
    the video element, or without any of the containers probed in the order
    vp9, vp8, plain WebM, an export never records: whatever events arrive,
    no recorder exists or is started, no chunk is kept, no blob is built
    and nothing is saved.  Without [MediaRecorder] the function returns at
    once with an error message and no job; otherwise it fails when the seek
    completes, and whenever it has returned the error message is shown and
    the in-flight flag is cleared. *)
Theorem unsupported_never_records :
  forall (env : Env) (clip : VideoClip) (s : State),
    unsupported env ->
    (forall (j0 : Job) (s0 : State) (evs : list (Q * Event)),
        exportPortraitClip env clip s = (Some j0, s0) ->
        never isRecorderStart (trace (fst (run env evs (j0, s0)))) /\
        recorder (fst (run env evs (j0, s0))) = None /\
        chunks (fst (run env evs (j0, s0))) = [] /\
        never isCreateBlob (trace (fst (run env evs (j0, s0)))) /\
        never isDownload (trace (fst (run env evs (j0, s0)))) /\
        (phase (fst (run env evs (j0, s0))) = AwaitMetadata \/
         phase (fst (run env evs (j0, s0))) = AwaitSeeked \/
         (phase (fst (run env evs (j0, s0))) = Returned /\
          errorMessage (snd (run env evs (j0, s0))) = Some msgExportFailed /\
          exportingClipId (snd (run env evs (j0, s0))) = None))) /\
    (forall (j0 : Job) (s0 : State) (t1 t2 : Q),
        exportPortraitClip env clip s = (Some j0, s0) ->
        phase (fst (run env [(t1, LoadedMetadata); (t2, Seeked)] (j0, s0))) = Returned /\
        errorMessage (snd (run env [(t1, LoadedMetadata); (t2, Seeked)] (j0, s0)))
        = Some msgExportFailed) /\
    (forall s' : State,
        exportPortraitClip env clip s = (None, s') ->
        errorMessage s' = Some msgNotReady \/ errorMessage s' = Some msgNoMediaRecorder) /\
    (hasMediaRecorder env = false ->
     exists s', exportPortraitClip env clip s = (None, s') /\ errorMessage s' <> None) /\
    (Forall (fun m => isTypeSupported env m = false) preferredMimeTypes <->
     isTypeSupported env "video/webm;codecs=vp9" = false /\
     isTypeSupported env "video/webm;codecs=vp8" = false /\
     isTypeSupported env "video/webm" = false).
Proof.
  intros env clip s Hun.
  assert (Hjob : forall j0 s0, exportPortraitClip env clip s = (Some j0, s0) ->
                 j0 = mkJob clip AwaitMetadata false None [] EmptyString [] [] None false
                        Pending [] /\
                 (hasCaptureStream env = false \/
                  find (isTypeSupported env) preferredMimeTypes = None)).
  { intros j0 s0 Hstart.
    destruct (exportPortraitClip_job env clip s s0 j0 Hstart) as (Hj & _ & _ & Hmr).
    split; [exact Hj |].
    destruct Hun as [Hno | [Hno | Hno]]; [congruence | now left |].
    right. now apply find_unsupported. }
  split; [| split; [| split; [| split]]].
  - intros j0 s0 evs Hstart. destruct (Hjob j0 s0 Hstart) as (-> & Henv).
    pose proof (run_idleInv env Henv evs _ (idleInv_fresh clip s0)) as Hinv.
    destruct Hinv as (Hrec & Hch & _ & _ & Hstarted & Hblob & Hsave & Hph).
    repeat split; assumption.
  - intros j0 s0 t1 t2 Hstart. destruct (Hjob j0 s0 Hstart) as (-> & Henv).
    cbn [run step phase]. unfold prepareCapture. cbn [phase with_phase emit].
    destruct Henv as [Hcap | Hmime].
    + rewrite Hcap. cbn. split; reflexivity.
    + destruct (negb (hasCaptureStream env)); [cbn; split; reflexivity |].
      destruct (negb (hasContext2d env)); [cbn; split; reflexivity |].
      rewrite Hmime. cbn. split; reflexivity.
  - intros s' Hstart. unfold exportPortraitClip in Hstart.
    destruct (String.eqb (videoUrl s) EmptyString).
    + inversion Hstart. left. reflexivity.
    + destruct (negb (hasMediaRecorder env)); inversion Hstart. right. reflexivity.
  - intros Hmr. unfold exportPortraitClip. rewrite Hmr.
    destruct (String.eqb (videoUrl s) EmptyString); cbn;
      eexists; (split; [reflexivity | discriminate]).
  - unfold preferredMimeTypes. split.
    + intros H. rewrite Forall_forall in H.
      repeat split; apply H; cbn; tauto.
    + intros (H1 & H2 & H3). repeat constructor; assumption.
Qed.

Lemma unsupported_never_records_witness :
  unsupported envNoWebm /\
  never isRecorderStart
    (trace (fst (run envNoWebm [(120, LoadedMetadata); (180, Seeked)]
                   (mkJob clipA AwaitMetadata false None [] EmptyString [] [] None false
                      Pending [],
                    setExportingClipId (Some (clip_id clipA))
                      (setErrorMessage None readyState))))).
Proof.
  assert (Hun : unsupported envNoWebm).
  { right. right. repeat constructor. }
  split; [exact Hun |].
  destruct (unsupported_never_records envNoWebm clipA readyState Hun) as (Hrun & _).
  destruct (Hrun _ _ [(120, LoadedMetadata); (180, Seeked)] eq_refl) as (H & _).
  exact H.
Defined.

(** *** When the stop timer is armed *)

Lemma Forall_stamped (now bound : Q) (effs : list Effect) :
  now <= bound -> Forall (fun te : Q * Effect => fst te <= bound) (map (pair now) effs).
Proof.
  intros H. apply Forall_forall. intros te Hin.
  apply in_map_iff in Hin. destruct Hin as (e & <- & _). exact H.
Qed.

Lemma timerInv_fresh (t : Q) (clip : VideoClip) :
  timerInv t clip (mkJob clip AwaitMetadata false None [] EmptyString [] [] None false
                     Pending []).
Proof.
  unfold timerInv. cbn.
  split; [reflexivity |]. split; [constructor |]. split; intros; discriminate.
Qed.

Ltac job_cbn :=
  cbn [fst snd trace emit with_phase with_recordingStopped with_recorder with_chunks
       with_mimeType with_streams with_timer with_frameRequested
       with_recordingPromise recordingStopped recorder composedTracks sourceTracks
       timer frameRequested recordingPromise phase job_clip chunks mimeType] in *.

Ltac solve_In := rewrite ?in_app_iff; cbn [In map]; auto 12.

Ltac solve_stamps :=
  rewrite ?Forall_app; repeat split; try assumption;
  repeat (first [ apply Forall_nil
                | apply Forall_cons; [cbn [fst]; apply Qle_refl |]
                | apply Forall_stamped; apply Qle_refl ]).

Lemma step_timerInv (env : Env) (bound now : Q) (clip : VideoClip) (ev : Event)
      (j : Job) (s : State) :
  bound <= now -> timerInv bound clip j -> timerInv now clip (fst (step env now ev (j, s))).
Proof.
  intros Hle Hinv.
  assert (Hsame : timerInv now clip j).
  { destruct Hinv as (Hc & Hb & Hp & Ht). repeat split; trivial.
    eapply Forall_impl; [| exact Hb]. intros te Hte. cbn in Hte. lra. }
  clear Hinv. assert (Hinv := Hsame).
  destruct Hinv as (Hclip & Hb & Hplay & Harmed).
  destruct j as [c ph rs rec ch mime comp src tm fr pr tr].
  cbn [job_clip trace phase timer] in *. subst c.
  destruct ev; step_branches; try exact Hsame;
    unfold timerInv, armedAt in *; job_cbn;
    (split; [reflexivity |]); (split; [solve_stamps |]).
  all: split;
    [ intros Hph; try discriminate Hph;
      try (saturate;
           match goal with H : exists _, _ |- _ => destruct H as (t0 & ? & ?) end;
           exists t0; split; solve_In);
      try (exists now; split; solve_In)
    | intros due Hdue; try discriminate Hdue ].
  all: try (destruct (Harmed due Hdue) as (t0 & tArm & H1 & H2 & H3 & H4 & H5 & H6);
            exists t0, tArm; repeat split; trivial; solve_In).
  all: try (inversion Hdue; subst due; saturate;
            match goal with H : exists _, _ |- _ => destruct H as (t0 & Hs & Hv) end;
            exists t0, now; repeat split; trivial; try solve_In).
  all: rewrite Forall_forall in Hb; exact (Hb _ Hs).
Qed.

Lemma run_timerInv (env : Env) (clip : VideoClip) (evs : list (Q * Event)) :
  forall (bound : Q) (j : Job) (s : State),
    sortedFrom bound evs -> timerInv bound clip j ->
    exists bound', timerInv bound' clip (fst (run env evs (j, s))).
Proof.
  induction evs as [| [now ev] rest IH]; intros bound j s Hsorted Hinv.
  - exists bound. exact Hinv.
  - destruct Hsorted as [Hle Hrest]. cbn [run].
    destruct (step env now ev (j, s)) as [j' s'] eqn:Hstep.
    apply (IH now j' s' Hrest).
    change j' with (fst (j', s')). rewrite <- Hstep.
    now apply (step_timerInv env bound now).
Qed.

(** What the timer event does to a job whose timer is armed. *)
Lemma timer_fires (env : Env) (now due : Q) (j : Job) (s : State) :
  timer j = Some due -> recordingStopped j = false -> due <= now ->
  step env now TimerExpired (j, s) = (stopRecording now (with_timer None j), s) /\
  In (now, RecorderStop) (trace (fst (step env now TimerExpired (j, s)))) /\
  timer (fst (step env now TimerExpired (j, s))) = None /\
  recordingStopped (fst (step env now TimerExpired (j, s))) = true.
Proof.
  intros Htm Hrs Hdue. cbn [step]. rewrite Htm.
  assert (Hb : Qle_bool due now = true) by (now apply Qle_bool_iff).
  rewrite Hb. split; [reflexivity |].
  unfold stopRecording. cbn [recordingStopped with_timer]. rewrite Hrs.
  cbn. repeat split. apply in_or_app. right. left. reflexivity.
Qed.

Lemma timer_waits (env : Env) (now due : Q) (j : Job) (s : State) :
  timer j = Some due -> now < due -> step env now TimerExpired (j, s) = (j, s).
Proof.
  intros Htm Hdue. cbn [step]. rewrite Htm.
  destruct (Qle_bool due now) eqn:Hb; [| reflexivity].
  apply Qle_bool_iff in Hb. lra.
Qed.

(** The step in which the awaited [play()] resolves requests the first
    frame and arms the timer, whatever the clip. *)
Lemma play_resolved_arms (env : Env) (now : Q) (j : Job) (s : State) :
  phase j = AwaitPlay ->
  timer (fst (step env now PlayResolved (j, s)))
  = Some (now + clip_duration (job_clip j) * 1000) /\
  In (now, RequestAnimationFrame) (trace (fst (step env now PlayResolved (j, s)))) /\
  In (now, SetTimeout (clip_duration (job_clip j) * 1000))
     (trace (fst (step env now PlayResolved (j, s)))).
Proof.
  destruct j as [c ph rs rec ch mime comp src tm fr pr tr]. cbn [phase job_clip].
  intros ->. step_branches; cbn [fst timer trace]; (split; [reflexivity |]);
    split; solve_In.
Qed.

(** The first three events of an export in a browser that supports it. *)
Lemma run_to_recording (env : Env) (mime : string) (clip : VideoClip) (s : State)
      (t1 t2 t3 : Q) :
  ExportObs.supports env mime ->
  run env [(t1, LoadedMetadata); (t2, Seeked); (t3, PlayResolved)]
      (ExportObs.freshJob clip, ExportObs.startedState clip s) =
  (mkJob clip AwaitRecording false (Some recording) [] mime
         (canvasVideoTracks env ++ sourceAudioTracks env)
         (sourceVideoTracks env ++ sourceAudioTracks env)
         (Some (t3 + clip_duration clip * 1000)) true Pending
         [(t1, SetCurrentTime (start_time clip)); (t2, CanvasCaptureStream);
          (t2, SourceCaptureStream); (t2, RecorderNew mime); (t2, RecorderStart);
          (t2, VideoPlay); (t3, RequestAnimationFrame);
          (t3, SetTimeout (clip_duration clip * 1000))],
   ExportObs.startedState clip s).
Proof.
  intros (Hcap & Hctx & Hmime).
  cbn [run step ExportObs.freshJob phase]. unfold prepareCapture.
  rewrite Hcap, Hctx, Hmime. cbn [negb]. reflexivity.
Qed.

(** C4 as amended.  For every clip, the step in which the awaited start of
    playback resolves requests the first frame and arms the stop timer with
    a delay of the clip's duration times 1000 milliseconds; in a browser
    that supports the export this step is reached after the metadata and
    the seek, and the recorder was started before it, when the seek
    completed.  So an armed timer is due exactly the clip's duration after
    it was armed; it does nothing before it is due; when it fires it stops
    the recorder, at least the clip's duration after the arming and at most
    one tick more if the timer is at most one tick late; counted from the
    start of the recorder the elapsed time also contains the time the
    playback took to start.  For a clip of 10 seconds the delay is 10000
    milliseconds. *)
Theorem stop_timer_armed_after_play :
  (forall (env : Env) (clip : VideoClip) (s s0 : State) (j0 : Job) (t : Q)
          (evs : list (Q * Event)) (due : Q),
      exportPortraitClip env clip s = (Some j0, s0) ->
      sortedFrom t evs ->
      timer (fst (run env evs (j0, s0))) = Some due ->
      exists t0 tArm : Q,
        armedAt clip (fst (run env evs (j0, s0))) t0 tArm due /\
        due == tArm + clip_duration clip * 1000 /\
        (forall now, now < due ->
           step env now TimerExpired (run env evs (j0, s0)) = run env evs (j0, s0)) /\
        (forall now, due <= now ->
           recordingStopped (fst (run env evs (j0, s0))) = false ->
           In (now, RecorderStop)
              (trace (fst (step env now TimerExpired (run env evs (j0, s0))))) /\
           clip_duration clip * 1000 <= now - tArm /\
           now - t0 == (tArm - t0) + clip_duration clip * 1000 + (now - due) /\
           (forall tick, now <= due + tick ->
                         now - tArm <= clip_duration clip * 1000 + tick)))
  /\ (forall (env : Env) (now : Q) (j : Job) (s : State),
         phase j = AwaitPlay ->
         timer (fst (step env now PlayResolved (j, s)))
         = Some (now + clip_duration (job_clip j) * 1000) /\
         In (now, RequestAnimationFrame) (trace (fst (step env now PlayResolved (j, s)))) /\
         In (now, SetTimeout (clip_duration (job_clip j) * 1000))
            (trace (fst (step env now PlayResolved (j, s)))))
  /\ (forall (env : Env) (mime : string) (clip : VideoClip) (s s0 : State) (j0 : Job)
             (t1 t2 t3 : Q),
         exportPortraitClip env clip s = (Some j0, s0) ->
         ExportObs.supports env mime ->
         let j := fst (run env [(t1, LoadedMetadata); (t2, Seeked); (t3, PlayResolved)]
                         (j0, s0)) in
         job_clip j = clip /\ phase j = AwaitRecording /\
         timer j = Some (t3 + clip_duration clip * 1000) /\
         In (t2, RecorderStart) (trace j) /\
         In (t3, RequestAnimationFrame) (trace j) /\
         In (t3, SetTimeout (clip_duration clip * 1000)) (trace j))
  /\ (forall clip : VideoClip,
         clip_duration clip == 10 -> clip_duration clip * 1000 == 10000).
Proof.
  split; [| split; [| split]].
  - intros env clip s s0 j0 t evs due Hstart Hsorted Htimer.
    destruct (exportPortraitClip_job env clip s s0 j0 Hstart) as (-> & _).
    destruct (run_timerInv env clip evs t _ s0 Hsorted (timerInv_fresh t clip))
      as (bound & _ & _ & _ & Harmed).
    destruct (Harmed due Htimer) as (t0 & tArm & Harm).
    exists t0, tArm. split; [exact Harm |].
    destruct Harm as (_ & _ & _ & _ & Hle & Hdue).
    split; [rewrite Hdue; reflexivity |].
    destruct (run env evs _) as [j s'] eqn:Hrun. cbn [fst] in *.
    split.
    + intros now Hnow. now apply (timer_waits env now due).
    + intros now Hnow Hrs.
      destruct (timer_fires env now due j s' Htimer Hrs Hnow) as (_ & Hin & _).
      split; [exact Hin |]. subst due. repeat split; try lra.
      intros tick Htick. lra.
  - exact play_resolved_arms.
  - intros env mime clip s s0 j0 t1 t2 t3 Hstart Hsup j.
    destruct (exportPortraitClip_job env clip s s0 j0 Hstart) as (Hj & Hs & _).
    assert (Hrun : run env [(t1, LoadedMetadata); (t2, Seeked); (t3, PlayResolved)] (j0, s0)
                   = run env [(t1, LoadedMetadata); (t2, Seeked); (t3, PlayResolved)]
                       (ExportObs.freshJob clip, ExportObs.startedState clip s)).
    { rewrite Hj, Hs. reflexivity. }
    unfold j. rewrite Hrun, (run_to_recording env mime clip s t1 t2 t3 Hsup).
    cbn [fst job_clip phase timer trace].
    repeat split; solve_In.
  - intros clip H. rewrite H. reflexivity.
Qed.

Lemma stop_timer_armed_after_play_witness :
  exists t0 tArm : Q,
    armedAt clipA
      (fst (run env1080 [(0, LoadedMetadata); (100, Seeked); (600, PlayResolved)]
              (mkJob clipA AwaitMetadata false None [] EmptyString [] [] None false
                 Pending [],
               setExportingClipId (Some (clip_id clipA))
                 (setErrorMessage None readyState))))
      t0 tArm (600 + 10 * 1000).
Proof.
  destruct (proj1 stop_timer_armed_after_play env1080 clipA readyState _ _ 0
              [(0, LoadedMetadata); (100, Seeked); (600, PlayResolved)]
              (600 + 10 * 1000) eq_refl)
    as (t0 & tArm & Harm & _).
  - cbn. repeat split; discriminate.
  - reflexivity.
  - exists t0, tArm. exact Harm.
Defined.

(** C4 as stated fails: the recorder is started when the seek completes,
    the timer is armed only when the playback has started.  Here the
    playback takes 500 ms to start and the timer fires the moment it is
    due: the recorder runs 10500 ms for a clip of 10 seconds. *)
Lemma stop_later_than_duration :
  timeOf isRecorderStart (trace jobSlowPlay) = Some 100 /\
  timeOf isRecorderStop (trace jobSlowPlay) = Some 10600 /\
  In (600, SetTimeout (10 * 1000)) (trace jobSlowPlay) /\
  ~ stopsOnTime 17 jobSlowPlay /\ ~ stopsOnTime 100 jobSlowPlay.
Proof.
  assert (H0 : timeOf isRecorderStart (trace jobSlowPlay) = Some 100)
    by (vm_compute; reflexivity).
  assert (H1 : timeOf isRecorderStop (trace jobSlowPlay) = Some 10600)
    by (vm_compute; reflexivity).
  split; [exact H0 |]. split; [exact H1 |].
  split; [vm_compute; tauto |].
  split; intros H; destruct (H 100 10600 H0 H1) as [_ Hup];
    change (clip_duration (job_clip jobSlowPlay)) with 10 in Hup; lra.
Qed.

End ExportFacts.

(** ** Facts about the view and its exports *)

Module ViewFacts.
Import PortraitExport.

(** *** The in-flight flag *)

Lemma exportDisabled_iff (s : State) (clip : VideoClip) :
  exportDisabled s clip = true <-> exportingClipId s = Some (clip_id clip).
Proof.
  unfold exportDisabled. destruct (exportingClipId s) as [id |].
  - rewrite String.eqb_eq. split; congruence.
  - split; discriminate.
Qed.

(** A step of an export either leaves its in-flight status and the flag
    alone, or is the step in which the export returns and clears the flag. *)
Lemma step_flag (env : Env) (now : Q) (ev : Event) (j : Job) (s : State) :
  (inFlight (fst (step env now ev (j, s))) = inFlight j /\
   exportingClipId (snd (step env now ev (j, s))) = exportingClipId s) \/
  (inFlight j = true /\ inFlight (fst (step env now ev (j, s))) = false /\
   exportingClipId (snd (step env now ev (j, s))) = None).
Proof.
  destruct j as [c ph rs rec ch mime comp src tm fr pr tr].
  destruct ev; ExportFacts.step_branches; cbn; auto.
Qed.

Lemma step_job_clip (env : Env) (now : Q) (ev : Event) (j : Job) (s : State) :
  job_clip (fst (step env now ev (j, s))) = job_clip j.
Proof.
  destruct j as [c ph rs rec ch mime comp src tm fr pr tr].
  destruct ev; ExportFacts.step_branches; reflexivity.
Qed.

(** *** Counting exports in flight *)

Lemma count_replaceAt (p : Job -> bool) (l : list Job) :
  forall (i : nat) (j j' : Job),
    nth_error l i = Some j ->
    (length (filter p (replaceAt i j' l)) + b2n (p j) =
     length (filter p l) + b2n (p j'))%nat.
Proof.
  induction l as [| x rest IH]; intros i j j' Hnth.
  - destruct i; discriminate Hnth.
  - destruct i as [| i]; cbn in Hnth.
    + inversion Hnth; subst x. cbn [replaceAt filter].
      destruct (p j), (p j'); cbn; lia.
    + cbn [replaceAt filter]. specialize (IH i j j' Hnth).
      destruct (p x); cbn; lia.
Qed.

Lemma nth_error_replaceAt (l : list Job) :
  forall (i : nat) (j j' : Job),
    nth_error l i = Some j -> nth_error (replaceAt i j' l) i = Some j'.
Proof.
  induction l as [| x rest IH]; intros i j j' Hnth.
  - destruct i; discriminate Hnth.
  - destruct i as [| i]; cbn in *; [reflexivity | now apply (IH i j)].
Qed.


(** *** Sessions that export one clip only *)

Lemma viewStep_singleInv (env : Env) (now : Q) (clip : VideoClip) (ev : ViewEvent)
      (v : View) :
  (forall c, ev = ClickExport c -> clip_id c = clip_id clip) ->
  singleInv clip v -> singleInv clip (viewStep env now ev v).
Proof.
  intros Hclick (Hle & Hflag). unfold singleInv, inFlightCount in *.
  destruct ev as [c | i ev' |]; cbn [viewStep].
  - specialize (Hclick c eq_refl).
    destruct (mounted v && negb (exportDisabled (cells v) c)) eqn:Hen;
      [| split; assumption].
    apply andb_true_iff in Hen. destruct Hen as [_ Hen].
    apply negb_true_iff in Hen.
    assert (Hnot : exportingClipId (cells v) <> Some (clip_id clip)).
    { intros Habs. rewrite <- Hclick in Habs.
      apply exportDisabled_iff in Habs. congruence. }
    assert (Hzero : length (filter inFlight (jobs v)) = 0%nat).
    { destruct (length (filter inFlight (jobs v))) as [| [| n]] eqn:Hn;
        [reflexivity | now elim Hnot; apply Hflag | lia]. }
    unfold exportPortraitClip.
    destruct (String.eqb (videoUrl (cells v)) EmptyString);
      [cbn [jobs cells]; rewrite Hzero; split; [lia | discriminate] |].
    destruct (negb (hasMediaRecorder env));
      cbn [jobs cells]; [rewrite Hzero; split; [lia | discriminate] |].
    rewrite filter_app, length_app, Hzero. cbn. split; [lia |].
    intros _. now rewrite Hclick.
  - destruct (nth_error (jobs v) i) as [j |] eqn:Hnth; [| split; assumption].
    pose proof (step_flag env now ev' j (cells v)) as Hstep.
    destruct (step env now ev' (j, cells v)) as [j' s'].
    cbn [fst snd jobs cells] in *.
    pose proof (count_replaceAt inFlight (jobs v) i j j' Hnth) as Hcount.
    destruct Hstep as [(Hsame & Hkeep) | (Hwas & Hnow & Hclear)].
    + rewrite Hsame in Hcount.
      assert (Heq : length (filter inFlight (replaceAt i j' (jobs v)))
                    = length (filter inFlight (jobs v))) by lia.
      rewrite Heq, Hkeep. split; assumption.
    + rewrite Hwas, Hnow in Hcount. cbn in Hcount. split; lia.
  - cbn [jobs cells]. split; assumption.
Qed.

Lemma viewRun_singleInv (env : Env) (clip : VideoClip) (evs : list (Q * ViewEvent)) :
  forall v : View,
    (forall t c, In (t, ClickExport c) evs -> clip_id c = clip_id clip) ->
    singleInv clip v -> singleInv clip (viewRun env evs v).
Proof.
  induction evs as [| [now ev] rest IH]; intros v Hclicks Hinv; [exact Hinv |].
  cbn [viewRun]. apply IH.
  - intros t c Hin. apply (Hclicks t c). now right.
  - apply viewStep_singleInv; [| exact Hinv].
    intros c ->. apply (Hclicks now c). now left.
Qed.

(** *** Instances of the creator *)







(** *** Closing the view *)

Lemma viewStep_mounted_irrelevant (env : Env) (now : Q) (ev : ViewEvent) (v v' : View) :
  isClick ev = false -> cells v = cells v' -> jobs v = jobs v' ->
  cells (viewStep env now ev v) = cells (viewStep env now ev v') /\
  jobs (viewStep env now ev v) = jobs (viewStep env now ev v').
Proof.
  intros Hev Hc Hj. destruct ev as [c | i ev' |]; [discriminate Hev | |].
  - cbn [viewStep]. rewrite Hc, Hj.
    destruct (nth_error (jobs v') i) as [j |]; [| now split].
    destruct (step env now ev' (j, cells v')) as [j' s']. now split.
  - cbn. now split.
Qed.

Lemma viewRun_mounted_irrelevant (env : Env) (evs : list (Q * ViewEvent)) :
  forall v v' : View,
    forallb (fun te => negb (isClick (snd te))) evs = true ->
    cells v = cells v' -> jobs v = jobs v' ->
    cells (viewRun env evs v) = cells (viewRun env evs v') /\
    jobs (viewRun env evs v) = jobs (viewRun env evs v').
Proof.
  induction evs as [| [now ev] rest IH]; intros v v' Hno Hc Hj; [now split |].
  cbn [forallb snd] in Hno. apply andb_true_iff in Hno. destruct Hno as [Hev Hrest].
  apply negb_true_iff in Hev.
  destruct (viewStep_mounted_irrelevant env now ev v v' Hev Hc Hj) as [Hc' Hj'].
  cbn [viewRun]. now apply IH.
Qed.

(** The timer of a recording export fires and the recorder then reports
    its stop: the stop path runs, every track is stopped, the file is saved. *)
Lemma timer_then_stop_saves (env : Env) (t1 t2 due : Q) (j : Job) (s : State) :
  phase j = AwaitRecording -> recordingStopped j = false ->
  recordingPromise j = Pending -> recorder j = Some recording ->
  timer j = Some due -> due <= t1 ->
  let j' := fst (step env t2 RecorderStopped (step env t1 TimerExpired (j, s))) in
  phase j' = Returned /\ timer j' = None /\ recordingStopped j' = true /\
  In (t1, RecorderStop) (trace j') /\
  (forall t, In t (composedTracks j ++ sourceTracks j) -> In (t1, TrackStop t) (trace j')) /\
  In (t2, Download (downloadName (clip_title (job_clip j)))) (trace j').
Proof.
  intros Hph Hrs Hpr Hrec Htm Hdue.
  destruct j as [c ph rs rec ch mime comp src tm fr pr tr].
  cbn [phase recordingStopped recordingPromise recorder timer composedTracks
       sourceTracks job_clip] in *.
  subst ph rs pr rec tm.
  assert (Hb : Qle_bool due t1 = true) by (now apply Qle_bool_iff).
  cbn [step timer]. rewrite Hb.
  ExportFacts.step_branches.
  split; [reflexivity |]. split; [reflexivity |]. split; [reflexivity |].
  rewrite !map_app. split; [| split].
  - ExportFacts.solve_In.
  - intros t Hin. rewrite !in_app_iff. apply in_app_or in Hin.
    left. left. right. right. rewrite in_app_iff.
    destruct Hin as [Hin | Hin]; [left | right; apply in_or_app; left];
      apply in_map; apply in_map; exact Hin.
  - ExportFacts.solve_In.
Qed.

(** C9 as amended.  Closing the view unmounts it and nothing else: the
    state cells and every export, its recorder, its tracks and its armed
    timer, are as before, and whatever events follow, the exports evolve as
    if the view had stayed open.  In particular an export that is recording
    keeps recording until its timer fires; then the usual stop path runs
    (recorder stopped, every track stopped) and when the recorder reports
    its stop the file is saved. *)
Theorem close_does_not_cancel :
  forall (env : Env) (now : Q) (v : View),
    mounted (viewStep env now CloseView v) = false /\
    cells (viewStep env now CloseView v) = cells v /\
    jobs (viewStep env now CloseView v) = jobs v /\
    (forall evs : list (Q * ViewEvent),
        forallb (fun te => negb (isClick (snd te))) evs = true ->
        cells (viewRun env evs (viewStep env now CloseView v)) = cells (viewRun env evs v) /\
        jobs (viewRun env evs (viewStep env now CloseView v)) = jobs (viewRun env evs v)) /\
    (forall (i : nat) (j : Job) (due t1 t2 : Q),
        nth_error (jobs v) i = Some j ->
        phase j = AwaitRecording -> recordingStopped j = false ->
        recordingPromise j = Pending -> recorder j = Some recording ->
        timer j = Some due -> due <= t1 ->
        exists j' : Job,
          nth_error
            (jobs (viewRun env [(t1, JobEvent i TimerExpired); (t2, JobEvent i RecorderStopped)]
                     (viewStep env now CloseView v))) i = Some j' /\
          phase j' = Returned /\ timer j' = None /\ recordingStopped j' = true /\
          In (t1, RecorderStop) (trace j') /\
          (forall t, In t (composedTracks j ++ sourceTracks j) ->
                     In (t1, TrackStop t) (trace j')) /\
          In (t2, Download (downloadName (clip_title (job_clip j)))) (trace j')).
Proof.
  intros env now v.
  split; [reflexivity |]. split; [reflexivity |]. split; [reflexivity |].
  split.
  - intros evs Hno. now apply viewRun_mounted_irrelevant.
  - intros i j due t1 t2 Hnth Hph Hrs Hpr Hrec Htm Hdue.
    pose proof (timer_then_stop_saves env t1 t2 due j (cells v) Hph Hrs Hpr Hrec Htm Hdue)
      as Hsaved.
    cbn [viewRun viewStep jobs cells]. rewrite Hnth.
    destruct (step env t1 TimerExpired (j, cells v)) as [j1 s1] eqn:H1.
    cbn [jobs cells]. rewrite (nth_error_replaceAt (jobs v) i j j1 Hnth).
    destruct (step env t2 RecorderStopped (j1, s1)) as [j2 s2] eqn:H2.
    cbn [jobs fst] in *.
    exists j2. split; [| exact Hsaved].
    apply (nth_error_replaceAt _ i j1 j2).
    now apply (nth_error_replaceAt (jobs v) i j j1).
Qed.

Lemma close_does_not_cancel_witness :
  exists j' : Job,
    nth_error
      (jobs (viewRun env1080 [(10150, JobEvent 0 TimerExpired);
                              (10170, JobEvent 0 RecorderStopped)]
               (viewStep env1080 5000 CloseView
                  (viewRun env1080 (firstn 4 closeRun) readyView)))) 0 = Some j' /\
    In (10170, Download (downloadName (clip_title (job_clip jobAtClose)))) (trace j').
Proof.
  assert (H1 : nth_error (jobs (viewRun env1080 (firstn 4 closeRun) readyView)) 0
               = Some jobAtClose) by (vm_compute; reflexivity).
  assert (H2 : phase jobAtClose = AwaitRecording) by (vm_compute; reflexivity).
  assert (H3 : recordingStopped jobAtClose = false) by (vm_compute; reflexivity).
  assert (H4 : recordingPromise jobAtClose = Pending) by (vm_compute; reflexivity).
  assert (H5 : recorder jobAtClose = Some recording) by (vm_compute; reflexivity).
  assert (H6 : timer jobAtClose = Some 10150) by (vm_compute; reflexivity).
  assert (H7 : 10150 <= 10150) by (apply Qle_refl).
  destruct (close_does_not_cancel env1080 5000 (viewRun env1080 (firstn 4 closeRun) readyView))
    as (_ & _ & _ & _ & Hlate).
  destruct (Hlate 0%nat jobAtClose 10150 10150 10170 H1 H2 H3 H4 H5 H6 H7)
    as (j' & Hnth & _ & _ & _ & _ & _ & Hsave).
  exists j'. split; [exact Hnth | exact Hsave].
Defined.

(** C9 as stated fails: the component has no cleanup.  After the view is
    closed five seconds into a recording the export is still recording, no
    track is stopped, the timer is still armed; when it fires and the
    recorder delivers its data the file is saved. *)
Lemma close_leaves_export_running :
  mounted (viewRun env1080 closeRun readyView) = false /\
  (exists j : Job,
      nth_error (jobs (viewRun env1080 closeRun readyView)) 0 = Some j /\
      isRecording j = true /\ recordingStopped j = false /\
      timer j = Some 10150 /\ never isTrackStop (trace j)) /\
  ~ cancelledOnClose (viewRun env1080 closeRun readyView) /\
  (exists j' : Job,
      nth_error (jobs (viewRun env1080 afterClose (viewRun env1080 closeRun readyView))) 0
      = Some j' /\
      In (10170, CreateBlob [4096%nat] "video/webm;codecs=vp9") (trace j') /\
      In (10170, Download "clip-1-portrait.webm") (trace j')).
Proof.
  split; [vm_compute; reflexivity |].
  split.
  { eexists. split; [vm_compute; reflexivity |].
    repeat split; vm_compute; reflexivity. }
  split.
  { intros H.
    destruct (nth_error (jobs (viewRun env1080 closeRun readyView)) 0) as [j |] eqn:Hj;
      [| vm_compute in Hj; discriminate Hj].
    destruct (H j (nth_error_In _ _ Hj)) as (Hrs & _).
    vm_compute in Hj. inversion Hj; subst j. discriminate Hrs. }
  eexists. split; [vm_compute; reflexivity |].
  split; vm_compute; tauto.
Qed.

End ViewFacts.

(** ** More facts about the planner *)

Module DraftsFacts.
Import Planner Drafts.

(** *** Confirming the drafts *)

(** The shape of [generateClips] past its guards. *)
Lemma generateClips_guards (video : Video) (b : Backend) (s : State) :
  draftsAccepted (clips s) = true ->
  generateClips video b s =
  match currentUser b with
  | None =>
      (setGenerating false (setGenerating true s),
       [GetUser; ConsoleError; Alert "Failed to generate clips. Please try again."%string])
  | Some _ =>
      if existsb (insertRefused b) (clips s) then
        (setGenerating false (setGenerating true s),
         GetUser :: map (insertCall video) (clips s) ++
           [ConsoleError; Alert "Failed to generate clips. Please try again."%string])
      else
        (setGenerating false
           (setClips [] (fst (loadExistingClips video b (setGenerating true s)))),
         GetUser :: map (insertCall video) (clips s) ++
           snd (loadExistingClips video b (setGenerating true s)) ++
           [Alert "Clips created successfully!"%string])
  end.
Proof.
  intros H. unfold draftsAccepted in H. apply andb_true_iff in H.
  destruct H as [H1 H2]. apply negb_true_iff in H1, H2.
  unfold generateClips. rewrite H1, H2.
  destruct (currentUser b); [| reflexivity].
  destruct (existsb (insertRefused b) (clips s)); [reflexivity |].
  destruct (loadExistingClips video b (setGenerating true s)). reflexivity.
Qed.

Lemma generateClips_rejected (video : Video) (b : Backend) (s : State) :
  draftsAccepted (clips s) = false ->
  exists msg, generateClips video b s = (s, [Alert msg]).
Proof.
  intros H. unfold draftsAccepted in H. unfold generateClips.
  destruct (Nat.eqb (length (clips s)) 0); [eexists; reflexivity |].
  cbn [negb andb] in H. apply negb_false_iff in H. rewrite H. eexists; reflexivity.
Qed.

Lemma filter_isInsert_map (video : Video) (l : list ClipSegment) :
  filter isInsert (map (insertCall video) l) = map (insertCall video) l.
Proof.
  induction l as [| c l IH]; [reflexivity |]. cbn. now rewrite IH.
Qed.

Lemma no_select_in_inserts (video : Video) (l : list ClipSegment) :
  existsb isSelect (map (insertCall video) l) = false.
Proof. induction l as [| c l IH]; [reflexivity | exact IH]. Qed.

Lemma loadExistingClips_calls (video : Video) (b : Backend) (s : State) :
  filter isInsert (snd (loadExistingClips video b s)) = [] /\
  clips (fst (loadExistingClips video b s)) = clips s /\
  generating (fst (loadExistingClips video b s)) = generating s.
Proof.
  unfold loadExistingClips. destruct (selectedRows b); cbn; repeat split.
Qed.

(** X1.  Inserts are issued only when the drafts pass both guards and a
    user is signed in, and then there is exactly one per draft, in the
    order of the drafts, each carrying the id and the file path of the
    source video and the draft's own title, start and duration; this holds
    whether or not the store then refuses some of them. *)
Theorem generateClips_inserts :
  forall (video : Video) (b : Backend) (s : State),
    filter isInsert (snd (generateClips video b s)) =
    if draftsAccepted (clips s) && signedIn b
    then map (fun clip => Insert (video_id video) (title clip) (file_path video)
                                 (start clip) (duration clip)) (clips s)
    else [].
Proof.
  intros video b s.
  destruct (draftsAccepted (clips s)) eqn:Hacc.
  - rewrite (generateClips_guards video b s Hacc). unfold signedIn.
    destruct (currentUser b); cbn [andb]; [| reflexivity].
    destruct (existsb (insertRefused b) (clips s)); cbn [snd filter isInsert].
    + rewrite filter_app, filter_isInsert_map. cbn. now rewrite app_nil_r.
    + rewrite !filter_app, filter_isInsert_map.
      destruct (loadExistingClips_calls video b (setGenerating true s)) as (Hl & _).
      rewrite Hl. cbn. now rewrite app_nil_r.
  - destruct (generateClips_rejected video b s Hacc) as [msg Hr]. rewrite Hr. reflexivity.
Qed.

(** X2.  The drafts are cleared exactly when they passed the guards, a user
    was signed in and no insert was refused; on every other path they are
    kept as they were, and the persisted list is not touched either (a
    refused insert rolls nothing back and reloads nothing). *)
Theorem generateClips_clears_on_success :
  forall (video : Video) (b : Backend) (s : State),
    (draftsAccepted (clips s) && signedIn b && allAccepted b (clips s) = true ->
     clips (fst (generateClips video b s)) = [] /\
     existsb isSelect (snd (generateClips video b s)) = true /\
     (forall rows, selectedRows b = Some rows ->
                   generatedClips (fst (generateClips video b s)) = rows)) /\
    (draftsAccepted (clips s) && signedIn b && allAccepted b (clips s) = false ->
     clips (fst (generateClips video b s)) = clips s /\
     generatedClips (fst (generateClips video b s)) = generatedClips s /\
     errorMessage (fst (generateClips video b s)) = errorMessage s /\
     existsb isSelect (snd (generateClips video b s)) = false).
Proof.
  intros video b s. unfold signedIn, allAccepted.
  destruct (draftsAccepted (clips s)) eqn:Hacc.
  - rewrite (generateClips_guards video b s Hacc).
    destruct (currentUser b); cbn [andb].
    + destruct (existsb (insertRefused b) (clips s)); cbn [negb]; split;
        try discriminate; intros _.
      * cbn [fst snd]. repeat split.
        cbn [existsb isSelect orb]. rewrite existsb_app, no_select_in_inserts.
        reflexivity.
      * cbn [fst snd]. split; [reflexivity |]. split.
        -- cbn [existsb isSelect orb]. rewrite !existsb_app, no_select_in_inserts.
           unfold loadExistingClips. destruct (selectedRows b); reflexivity.
        -- intros rows Hrows. unfold loadExistingClips. rewrite Hrows. reflexivity.
    + split; [discriminate |]. intros _. cbn. repeat split.
  - cbn [andb]. split; [discriminate |]. intros _.
    destruct (generateClips_rejected video b s Hacc) as [msg Hr]. rewrite Hr.
    cbn. repeat split.
Qed.

Lemma generateClips_clears_on_success_witness :
  clips (fst (generateClips video95 backendOk twoDrafts)) = [] /\
  clips (fst (generateClips video95 (backendRefusing 30) twoDrafts)) = clips twoDrafts.
Proof.
  split.
  - apply (proj1 (generateClips_clears_on_success video95 backendOk twoDrafts)).
    reflexivity.
  - apply (proj2 (generateClips_clears_on_success video95 (backendRefusing 30) twoDrafts)).
    reflexivity.
Defined.

(** X3.  [generateClips] never leaves the busy flag set: if [generating]
    was false before the call it is false after it, on the rejected paths
    (where it is not touched) and on every path past the guards (where
    [finally] resets it). *)
Theorem generateClips_resets_generating :
  forall (video : Video) (b : Backend) (s : State),
    generating s = false -> generating (fst (generateClips video b s)) = false.
Proof.
  intros video b s Hg.
  destruct (draftsAccepted (clips s)) eqn:Hacc.
  - rewrite (generateClips_guards video b s Hacc).
    destruct (currentUser b); [| reflexivity].
    destruct (existsb (insertRefused b) (clips s)); reflexivity.
  - destruct (generateClips_rejected video b s Hacc) as [msg Hr]. now rewrite Hr.
Qed.

Lemma generateClips_resets_generating_witness :
  generating (fst (generateClips video95 backendSignedOut twoDrafts)) = false.
Proof.
  apply generateClips_resets_generating. reflexivity.
Defined.

(** *** Marking and removing *)

(** X5.  [addClip] appends one draft and leaves the others as they are.
    The new draft starts at the playback position, is called
    [Clip (n + 1)] and is never longer than the slice length; its duration
    is positive exactly when the slice length is positive and the position
    is before the end.  The slice length and the persisted clips are not
    touched. *)
Theorem addClip_appends :
  forall (video : Video) (currentTime : Q) (s : State),
    exists d : Q,
      clips (addClip video currentTime s) =
      clips s ++ [mkClipSegment currentTime d (clipTitle (length (clips s) + 1))] /\
      d <= clipDuration s /\
      (0 < d <-> 0 < clipDuration s /\ currentTime < video_duration video) /\
      clipDuration (addClip video currentTime s) = clipDuration s /\
      generatedClips (addClip video currentTime s) = generatedClips s.
Proof.
  intros video cur s.
  exists (Math_min (clipDuration s) (video_duration video - cur)).
  split; [reflexivity |].
  pose proof (PlannerFacts.Math_min_le_l (clipDuration s) (video_duration video - cur)).
  pose proof (PlannerFacts.Math_min_le_r (clipDuration s) (video_duration video - cur)).
  split; [assumption |]. split; [| split; reflexivity].
  split.
  - intros Hpos. split; lra.
  - intros [HL Hcur]. apply PlannerFacts.Math_min_pos; lra.
Qed.

(** X6.  A mark set at or after the end of the video gets a duration that
    is not positive, and from then on [generateClips] refuses the whole
    draft list, the good drafts with it: one alert, the state unchanged, no
    call to the session provider or the store. *)
Theorem addClip_at_end_blocks_confirm :
  forall (video : Video) (b : Backend) (currentTime : Q) (s : State),
    video_duration video <= currentTime ->
    draftsAccepted (clips (addClip video currentTime s)) = false /\
    exists msg : string,
      generateClips video b (addClip video currentTime s) =
      (addClip video currentTime s, [Alert msg]).
Proof.
  intros video b cur s Hend.
  assert (Hacc : draftsAccepted (clips (addClip video cur s)) = false).
  { unfold draftsAccepted. apply andb_false_iff. right. apply negb_false_iff.
    apply existsb_exists.
    exists (mkClipSegment cur (Math_min (clipDuration s) (video_duration video - cur))
              (clipTitle (length (clips s) + 1))).
    split.
    - unfold addClip. cbn [clips setClips]. apply in_or_app. right. now left.
    - cbn [duration].
      pose proof (PlannerFacts.Math_min_le_r (clipDuration s) (video_duration video - cur)).
      destruct (Qlt_le_dec 0 (Math_min (clipDuration s) (video_duration video - cur)));
        [lra | reflexivity]. }
  split; [exact Hacc |]. now apply generateClips_rejected.
Qed.

Lemma addClip_at_end_blocks_confirm_witness :
  exists msg : string,
    generateClips video95 backendOk (addClip video95 95 twoDrafts) =
    (addClip video95 95 twoDrafts, [Alert msg]).
Proof.
  assert (H : video_duration video95 <= 95) by (apply Qle_refl).
  exact (proj2 (addClip_at_end_blocks_confirm video95 backendOk 95 twoDrafts H)).
Defined.

Lemma filter_index_spec (l : list ClipSegment) :
  forall index i : nat,
    (i <= index)%nat ->
    filter_index index i l = firstn (index - i) l ++ skipn (S (index - i)) l.
Proof.
  induction l as [| c rest IH]; intros index i Hle.
  - cbn. now destruct (index - i)%nat.
  - cbn [filter_index]. destruct (Nat.eqb i index) eqn:Heq.
    + apply Nat.eqb_eq in Heq. subst i. rewrite Nat.sub_diag. cbn.
      clear IH Hle. revert index.
      assert (Hkeep : forall index i, (index < i)%nat -> filter_index index i rest = rest).
      { induction rest as [| x r IHr]; intros index i Hlt; [reflexivity |].
        cbn [filter_index].
        assert (Hne : Nat.eqb i index = false) by (apply Nat.eqb_neq; lia).
        rewrite Hne. f_equal. apply IHr. lia. }
      intros index. apply Hkeep. lia.
    + apply Nat.eqb_neq in Heq.
      rewrite (IH index (S i)) by lia.
      replace (index - i)%nat with (S (index - S i)) by lia.
      reflexivity.
Qed.

(** X7.  [removeClip] drops the draft at the given index and keeps the
    others in their order, with their titles as they were; an index past
    the end changes nothing. *)
Theorem removeClip_drops_one :
  forall (index : nat) (s : State),
    clips (removeClip index s) = firstn index (clips s) ++ skipn (S index) (clips s) /\
    ((index < length (clips s))%nat ->
     S (length (clips (removeClip index s))) = length (clips s)) /\
    ((length (clips s) <= index)%nat -> removeClip index s = s) /\
    (forall c, In c (clips (removeClip index s)) -> In c (clips s)).
Proof.
  intros index s.
  assert (Hspec : clips (removeClip index s)
                  = firstn index (clips s) ++ skipn (S index) (clips s)).
  { unfold removeClip. cbn [clips setClips].
    rewrite (filter_index_spec (clips s) index 0) by lia.
    now rewrite Nat.sub_0_r. }
  split; [exact Hspec |]. split; [| split].
  - intros Hlt. rewrite Hspec, length_app, length_firstn, length_skipn. lia.
  - intros Hge. destruct s as [cl cd g gc ex er vu]. unfold removeClip, setClips.
    cbn [clips clipDuration generating generatedClips exportingClipId errorMessage
         videoUrl] in *.
    f_equal. rewrite (filter_index_spec cl index 0) by lia. rewrite Nat.sub_0_r.
    rewrite firstn_all2 by lia. rewrite skipn_all2 by lia. apply app_nil_r.
  - intros c Hin. rewrite Hspec in Hin. apply in_app_or in Hin.
    destruct Hin as [Hin | Hin].
    + rewrite <- (firstn_skipn index (clips s)). apply in_or_app. now left.
    + rewrite <- (firstn_skipn (S index) (clips s)). apply in_or_app. now right.
Qed.

Lemma removeClip_drops_one_witness :
  S (length (clips (removeClip 0 twoDrafts))) = length (clips twoDrafts) /\
  removeClip 7 twoDrafts = twoDrafts.
Proof.
  split.
  - apply (proj1 (proj2 (removeClip_drops_one 0 twoDrafts))). cbn. lia.
  - apply (proj1 (proj2 (proj2 (removeClip_drops_one 7 twoDrafts)))). cbn. lia.
Defined.

(** *** Renaming *)

Lemma setTitleAt_spec (l : list ClipSegment) :
  forall (index : nat) (value : string),
    ((index < length l)%nat ->
     exists l', setTitleAt index value l = Some l' /\
                map start l' = map start l /\ map duration l' = map duration l /\
                length l' = length l /\
                title (nth index l' dummy) = value /\
                (forall k, k <> index -> nth k l' dummy = nth k l dummy)) /\
    ((length l <= index)%nat -> setTitleAt index value l = None).
Proof.
  induction l as [| c rest IH]; intros index value; split.
  - cbn. lia.
  - intros _. now destruct index.
  - intros Hlt. destruct index as [| i]; cbn [setTitleAt].
    + eexists. split; [reflexivity |]. cbn. repeat split.
      intros k Hk. destruct k; [now elim Hk | reflexivity].
    + destruct (proj1 (IH i value)) as (l' & Hset & Hs & Hd & Hlen & Ht & Hrest);
        [cbn in Hlt; lia |].
      rewrite Hset. eexists. split; [reflexivity |]. cbn.
      rewrite Hs, Hd, Hlen. repeat split; trivial.
      intros k Hk. destruct k; [reflexivity |]. apply Hrest. lia.
  - intros Hge. destruct index as [| i]; cbn in Hge; [lia |].
    cbn [setTitleAt]. rewrite (proj2 (IH i value)) by lia. reflexivity.
Qed.

Lemma existsb_on_durations (p : Q -> bool) (l : list ClipSegment) :
  existsb (fun c => p (duration c)) l = existsb p (map duration l).
Proof. induction l as [| c l IH]; [reflexivity | cbn; now rewrite IH]. Qed.

Lemma draftsAccepted_durations (l l' : list ClipSegment) :
  map duration l' = map duration l -> draftsAccepted l' = draftsAccepted l.
Proof.
  intros H. unfold draftsAccepted.
  assert (Hlen : length l' = length l)
    by (rewrite <- (length_map duration l'), H; apply length_map).
  rewrite Hlen. f_equal. f_equal.
  rewrite (existsb_on_durations (fun d => if Qlt_le_dec 0 d then false else true) l').
  rewrite (existsb_on_durations (fun d => if Qlt_le_dec 0 d then false else true) l).
  now rewrite H.
Qed.

(** X21.  Renaming a draft changes that draft's title and nothing else:
    the number of drafts, every start and every duration, and every other
    title stay, so the outcome of the guards of [generateClips] is the
    same as before. *)
Theorem editTitle_only_title :
  forall (index : nat) (value : string) (s : State),
    (index < length (clips s))%nat ->
    exists s' : State,
      editTitle index value s = Some s' /\
      map start (clips s') = map start (clips s) /\
      map duration (clips s') = map duration (clips s) /\
      title (nth index (clips s') dummy) = value /\
      (forall k, k <> index -> nth k (clips s') dummy = nth k (clips s) dummy) /\
      draftsAccepted (clips s') = draftsAccepted (clips s) /\
      clipDuration s' = clipDuration s /\ generatedClips s' = generatedClips s.
Proof.
  intros index value s Hlt.
  destruct (proj1 (setTitleAt_spec (clips s) index value) Hlt)
    as (l' & Hset & Hs & Hd & Hlen & Ht & Hrest).
  exists (setClips l' s). unfold editTitle. rewrite Hset.
  cbn [clips setClips clipDuration generatedClips].
  repeat split; trivial. now apply draftsAccepted_durations.
Qed.

Lemma editTitle_only_title_witness :
  exists s' : State,
    editTitle 1 "Intro" twoDrafts = Some s' /\
    map duration (clips s') = map duration (clips twoDrafts).
Proof.
  destruct (editTitle_only_title 1 "Intro" twoDrafts) as (s' & H1 & _ & H2 & _).
  - cbn. lia.
  - exists s'. split; assumption.
Defined.

End DraftsFacts.

(** ** More facts about the export *)

Module ExportMoreFacts.
Import PortraitExport ExportObs.

(** *** Geometry *)

(** X8.  The draw step never distorts the picture: for a source of positive
    size the drawn rectangle has the aspect ratio of the source, in both
    branches; and a source that is exactly 9:16 is drawn at 720x1280 with no
    offset. *)
Theorem drawRect_keeps_aspect :
  forall w h : Q,
    0 < w -> 0 < h ->
    drawWidth (drawRect w h) * h == drawHeight (drawRect w h) * w /\
    drawWidth (drawRect w h) / drawHeight (drawRect w h) == w / h /\
    (w / h == canvas_width / canvas_height ->
     drawWidth (drawRect w h) == 720 /\ drawHeight (drawRect w h) == 1280 /\
     offsetX (drawRect w h) == 0 /\ offsetY (drawRect w h) == 0).
Proof.
  intros w h Hw Hh.
  pose proof (GeometryFacts.drawRect_covers w h Hw Hh) as (Hcw & Hch & _).
  assert (Hcross : drawWidth (drawRect w h) * h == drawHeight (drawRect w h) * w).
  { destruct (Qlt_le_dec (canvas_width / canvas_height) (w / h)) as [Hwide | Hnarrow].
    - rewrite (GeometryFacts.drawRect_wider w h Hwide). cbn [drawWidth drawHeight].
      field. lra.
    - rewrite (GeometryFacts.drawRect_narrower w h Hnarrow). cbn [drawWidth drawHeight].
      field. lra. }
  split; [exact Hcross |]. split.
  - unfold canvas_width, canvas_height in *.
    set (dw := drawWidth (drawRect w h)) in *. set (dh := drawHeight (drawRect w h)) in *.
    assert (Hdh : 0 < dh) by lra.
    assert (E : dw == dh * w / h) by (rewrite <- Hcross; field; lra).
    rewrite E. field. split; lra.
  - intros Heq.
    assert (Hnarrow : w / h <= canvas_width / canvas_height)
      by (rewrite Heq; apply Qle_refl).
    rewrite (GeometryFacts.drawRect_narrower w h Hnarrow).
    cbn [drawWidth drawHeight offsetX offsetY].
    assert (Hw' : w == (9 # 16) * h).
    { rewrite GeometryFacts.targetRatio_value in Heq. rewrite <- Heq. field. lra. }
    assert (Hdh : h * (canvas_width / w) == 1280).
    { unfold canvas_width. rewrite Hw'. field. lra. }
    split; [reflexivity |]. split; [exact Hdh |]. split; [reflexivity |].
    rewrite Hdh. reflexivity.
Qed.

Lemma drawRect_keeps_aspect_witness :
  drawWidth (drawRect 1080 1920) == 720 /\ drawHeight (drawRect 1080 1920) == 1280.
Proof.
  assert (Hw : 0 < 1080) by reflexivity.
  assert (Hh : 0 < 1920) by reflexivity.
  assert (Heq : 1080 / 1920 == canvas_width / canvas_height) by reflexivity.
  destruct (drawRect_keeps_aspect 1080 1920 Hw Hh) as (_ & _ & Hfit).
  destruct (Hfit Heq) as (H1 & H2 & _). split; assumption.
Defined.

(** *** Counting in the log *)

Lemma occurrences_nil (p : Effect -> bool) : occurrences p [] = 0%nat.
Proof. reflexivity. Qed.

Lemma occurrences_cons (p : Effect -> bool) (x : Q * Effect) (l : list (Q * Effect)) :
  occurrences p (x :: l) = ((if p (snd x) then 1 else 0) + occurrences p l)%nat.
Proof. unfold occurrences. cbn [filter]. destruct (p (snd x)); reflexivity. Qed.

Lemma occurrences_app (p : Effect -> bool) (a b : list (Q * Effect)) :
  occurrences p (a ++ b) = (occurrences p a + occurrences p b)%nat.
Proof. unfold occurrences. now rewrite filter_app, length_app. Qed.

Lemma occurrences_trackStops (p : Effect -> bool) (now : Q) (l : list TrackId) :
  (forall t, p (TrackStop t) = false) ->
  occurrences p (map (pair now) (map TrackStop l)) = 0%nat.
Proof.
  intros H. induction l as [| t l IH]; [reflexivity |].
  cbn [map]. rewrite occurrences_cons, IH. cbn [snd]. now rewrite H.
Qed.

Lemma occurrences_isTrackStop (now : Q) (l : list TrackId) :
  occurrences isTrackStop (map (pair now) (map TrackStop l)) = length l.
Proof.
  induction l as [| t l IH]; [reflexivity |].
  cbn [map]. rewrite occurrences_cons, IH. reflexivity.
Qed.

#[local] Opaque occurrences.

Ltac count_log :=
  repeat progress
    (rewrite ?map_app, ?occurrences_app;
     rewrite ?occurrences_trackStops by reflexivity;
     cbn [map app]; rewrite ?occurrences_app, ?occurrences_cons, ?occurrences_nil;
     cbn [snd isDownload isDrawImage isRecorderStart isRecorderStop isTrackStop]).

Ltac split_all :=
  repeat match goal with
         | |- _ /\ _ => split
         end.

(** *** At most one file *)

Lemma step_saveInv (env : Env) (now : Q) (ev : Event) (j : Job) (s : State) :
  saveInv j -> saveInv (fst (step env now ev (j, s))).
Proof.
  intros Hinv. assert (Hinv' := Hinv). destruct Hinv' as (Hph & Hd).
  destruct j as [clip ph rs rec ch mime comp src tm fr pr tr].
  cbn [phase trace recordingPromise recordingStopped] in *.
  destruct ev; ExportFacts.step_branches; try exact Hinv;
    unfold saveInv; ExportFacts.job_cbn; (split; [auto 8 |]);
    destruct Hd as [Hd | (Hd & Hp & Hr & Hs)]; try discriminate; subst;
      try discriminate;
      count_log; rewrite ?Hd; auto.
Qed.

Lemma run_saveInv (env : Env) (evs : list (Q * Event)) :
  forall (j : Job) (s : State), saveInv j -> saveInv (fst (run env evs (j, s))).
Proof.
  induction evs as [| [now ev] rest IH]; intros j s Hinv; [exact Hinv |].
  cbn [run]. destruct (step env now ev (j, s)) as [j' s'] eqn:Hstep.
  apply IH. change j' with (fst (j', s')). rewrite <- Hstep. now apply step_saveInv.
Qed.

(** X9.  Whatever events arrive, one export saves at most one file, and a
    file is saved only by an export that has returned with its recording
    promise resolved and its stop path run; an export whose promise was
    rejected, or that has not returned, has saved nothing. *)
Theorem export_saves_at_most_once :
  forall (env : Env) (clip : VideoClip) (s : State) (evs : list (Q * Event)),
    (occurrences isDownload (trace (fst (run env evs (freshJob clip, s)))) <= 1)%nat /\
    (occurrences isDownload (trace (fst (run env evs (freshJob clip, s)))) = 1%nat ->
     phase (fst (run env evs (freshJob clip, s))) = Returned /\
     recordingPromise (fst (run env evs (freshJob clip, s))) = Resolved /\
     recordingStopped (fst (run env evs (freshJob clip, s))) = true) /\
    (recordingPromise (fst (run env evs (freshJob clip, s))) <> Resolved \/
     phase (fst (run env evs (freshJob clip, s))) <> Returned ->
     occurrences isDownload (trace (fst (run env evs (freshJob clip, s)))) = 0%nat).
Proof.
  intros env clip s evs.
  assert (Hfresh : saveInv (freshJob clip)).
  { unfold saveInv, freshJob. cbn. split; [auto |]. left. reflexivity. }
  destruct (run_saveInv env evs _ s Hfresh) as (_ & Hd).
  destruct Hd as [Hd | (Hd & Hp & Hr & Hs)]; rewrite Hd.
  - split; [lia |]. split; [discriminate | reflexivity].
  - split; [lia |]. split; [auto |].
    intros [H | H]; contradiction.
Qed.

Lemma export_saves_at_most_once_witness :
  occurrences isDownload
    (trace (fst (run env1080
                   [(0, LoadedMetadata); (100, Seeked); (150, PlayResolved);
                    (10150, TimerExpired); (10160, DataAvailable 4096);
                    (10170, RecorderStopped); (10180, RecorderStopped)]
                   (freshJob clipA, readyState)))) = 1%nat /\
  phase (fst (run env1080
                   [(0, LoadedMetadata); (100, Seeked); (150, PlayResolved);
                    (10150, TimerExpired); (10160, DataAvailable 4096);
                    (10170, RecorderStopped); (10180, RecorderStopped)]
                   (freshJob clipA, readyState))) = Returned.
Proof.
  assert (H1 : occurrences isDownload
    (trace (fst (run env1080
                   [(0, LoadedMetadata); (100, Seeked); (150, PlayResolved);
                    (10150, TimerExpired); (10160, DataAvailable 4096);
                    (10170, RecorderStopped); (10180, RecorderStopped)]
                   (freshJob clipA, readyState)))) = 1%nat) by (vm_compute; reflexivity).
  split; [exact H1 |].
  exact (proj1 (proj1 (proj2 (export_saves_at_most_once env1080 clipA readyState _)) H1)).
Defined.

(** *** A playback that does not start *)

Lemma step_leakInv (env : Env) (now : Q) (ev : Event) (js : Job * State) :
  leakInv js -> leakInv (step env now ev js).
Proof.
  intros Hinv. assert (Hinv' := Hinv). destruct js as [j s].
  destruct Hinv' as (Hph & Htm & Hrs & Hrec & H1 & H2 & H3 & H4 & Herr & Hflag).
  destruct j as [clip ph rs rec ch mime comp src tm fr pr tr].
  cbn [fst snd phase timer recordingStopped recorder trace] in *. subst ph tm rs rec.
  destruct ev; ExportFacts.step_branches; try exact Hinv;
    unfold leakInv; ExportFacts.job_cbn; split_all; trivial;
    count_log; rewrite ?H1, ?H2, ?H3, ?H4; reflexivity.
Qed.

Lemma run_leakInv (env : Env) (evs : list (Q * Event)) :
  forall js, leakInv js -> leakInv (run env evs js).
Proof.
  induction evs as [| [now ev] rest IH]; intros js Hinv; [exact Hinv |].
  cbn [run]. apply IH. now apply step_leakInv.
Qed.

(** X10.  When the awaited start of playback is rejected the function
    returns through [catch] and [finally]: the failure is shown and the
    flag is cleared.  But the recorder was already started and no stop
    timer was armed, so whatever events arrive afterwards the code never
    stops the recorder or any track of this export, and saves nothing. *)
Theorem play_rejected_never_stops :
  forall (env : Env) (mime : string) (clip : VideoClip) (s : State) (t1 t2 t3 : Q)
         (later : list (Q * Event)),
    supports env mime ->
    let final := run env ([(t1, LoadedMetadata); (t2, Seeked); (t3, PlayRejected)] ++ later)
                     (freshJob clip, startedState clip s) in
    phase (fst final) = Returned /\
    errorMessage (snd final) = Some msgExportFailed /\
    exportingClipId (snd final) = None /\
    occurrences isRecorderStart (trace (fst final)) = 1%nat /\
    recorder (fst final) = Some recording /\
    timer (fst final) = None /\
    occurrences isRecorderStop (trace (fst final)) = 0%nat /\
    occurrences isTrackStop (trace (fst final)) = 0%nat /\
    occurrences isDownload (trace (fst final)) = 0%nat.
Proof.
  intros env mime clip s t1 t2 t3 later (Hcap & Hctx & Hmime) final.
  assert (Hinv : leakInv final).
  { unfold final. cbn [run app]. apply run_leakInv.
    cbn [step freshJob phase]. unfold prepareCapture.
    rewrite Hcap, Hctx, Hmime. cbn [negb]. cbn [step phase with_phase].
    unfold failExport, leakInv. ExportFacts.job_cbn. split_all; try reflexivity;
      count_log; reflexivity. }
  destruct Hinv as (Hph & Htm & Hrs & Hrec & H1 & H2 & H3 & H4 & Herr & Hflag).
  split_all; assumption.
Qed.

Lemma play_rejected_never_stops_witness :
  occurrences isRecorderStop
    (trace (fst (run env1080
                   ([(0, LoadedMetadata); (100, Seeked); (150, PlayRejected)] ++
                    [(9000, TimerExpired); (9500, RecorderStopped)])
                   (freshJob clipA, startedState clipA readyState)))) = 0%nat.
Proof.
  assert (Hs : supports env1080 "video/webm;codecs=vp9").
  { repeat split. }
  exact (proj1 (proj2 (proj2 (proj2 (proj2 (proj2 (proj2
           (play_rejected_never_stops env1080 _ clipA readyState 0 100 150
              [(9000, TimerExpired); (9500, RecorderStopped)] Hs)))))))).
Defined.

(** *** The draw loop after the stop *)

Lemma step_stoppedInv (env : Env) (now : Q) (ev : Event) (k : nat) (j : Job) (s : State) :
  stoppedInv k j -> stoppedInv k (fst (step env now ev (j, s))).
Proof.
  intros Hinv. assert (Hinv' := Hinv). destruct Hinv' as (Hrs & Hk).
  destruct j as [clip ph rs rec ch mime comp src tm fr pr tr].
  cbn [recordingStopped trace] in *. subst rs.
  destruct ev; ExportFacts.step_branches; try exact Hinv;
    unfold stoppedInv; ExportFacts.job_cbn; (split; [reflexivity |]);
    count_log; rewrite ?Hk; lia.
Qed.

Lemma run_stoppedInv (env : Env) (k : nat) (evs : list (Q * Event)) :
  forall (j : Job) (s : State), stoppedInv k j -> stoppedInv k (fst (run env evs (j, s))).
Proof.
  induction evs as [| [now ev] rest IH]; intros j s Hinv; [exact Hinv |].
  cbn [run]. destruct (step env now ev (j, s)) as [j' s'] eqn:Hstep.
  apply IH. change j' with (fst (j', s')). rewrite <- Hstep. now apply step_stoppedInv.
Qed.

(** X11.  The draw loop ends with the recording: once the stop path has
    run, no event makes the export draw another frame; the flag stays set,
    and a frame callback that was still pending neither draws nor requests
    the next one. *)
Theorem no_frame_after_stop :
  forall (env : Env) (j : Job) (s : State) (evs : list (Q * Event)),
    recordingStopped j = true ->
    recordingStopped (fst (run env evs (j, s))) = true /\
    occurrences isDrawImage (trace (fst (run env evs (j, s)))) =
    occurrences isDrawImage (trace j) /\
    (forall now,
        trace (fst (step env now AnimationFrame (j, s))) = trace j /\
        frameRequested (fst (step env now AnimationFrame (j, s))) = false).
Proof.
  intros env j s evs Hrs.
  destruct (run_stoppedInv env (occurrences isDrawImage (trace j)) evs j s
              (conj Hrs eq_refl)) as (H1 & H2).
  split; [exact H1 |]. split; [exact H2 |].
  intros now. destruct j as [clip ph rs rec ch mime comp src tm fr pr tr].
  cbn [recordingStopped] in Hrs. subst rs.
  cbn [step frameRequested]. destruct fr; cbn; split; reflexivity.
Qed.

Lemma no_frame_after_stop_witness :
  occurrences isDrawImage
    (trace (fst (run env1080 [(10010, AnimationFrame); (10020, AnimationFrame)]
                   (stopRecording 10000 jobRecording, readyState)))) =
  occurrences isDrawImage (trace (stopRecording 10000 jobRecording)).
Proof.
  assert (H : recordingStopped (stopRecording 10000 jobRecording) = true) by reflexivity.
  exact (proj1 (proj2 (no_frame_after_stop env1080 _ readyState
                         [(10010, AnimationFrame); (10020, AnimationFrame)] H))).
Defined.

(** *** The chunks and the file *)

Lemma run_app (env : Env) (a b : list (Q * Event)) :
  forall js, run env (a ++ b) js = run env b (run env a js).
Proof.
  induction a as [| [now ev] rest IH]; intros js; [reflexivity |].
  cbn [app run]. apply IH.
Qed.

Lemma run_dataEvents (env : Env) (data : list (Q * nat)) :
  forall (j : Job) (s : State),
    recorder j <> None ->
    run env (dataEvents data) (j, s) =
    (with_chunks (chunks j ++ filter (Nat.ltb 0) (map snd data)) j, s).
Proof.
  induction data as [| [t n] rest IH]; intros j s Hrec.
  - destruct j. cbn. now rewrite app_nil_r.
  - cbn [dataEvents map fst snd run step].
    destruct (recorder j) as [r |] eqn:Hr; [| now elim Hrec].
    unfold ondataavailable. cbn [filter].
    destruct (Nat.ltb 0 n).
    + change (map (fun tn : Q * nat => (fst tn, DataAvailable (snd tn))) rest)
        with (dataEvents rest).
      rewrite IH by (destruct j; cbn in *; congruence).
      destruct j. cbn. now rewrite <- app_assoc.
    + change (map (fun tn : Q * nat => (fst tn, DataAvailable (snd tn))) rest)
        with (dataEvents rest).
      apply IH. congruence.
Qed.

(** X12.  The recorder's data reaches the file in arrival order and
    without the empty pieces: while a recorder exists, a series of
    [dataavailable] events appends exactly the sizes that are positive to
    the chunk list and does nothing else. *)
Theorem chunks_keep_positive_in_order :
  forall (env : Env) (data : list (Q * nat)) (j : Job) (s : State),
    recorder j <> None ->
    chunks (fst (run env (dataEvents data) (j, s))) =
    chunks j ++ filter (Nat.ltb 0) (map snd data) /\
    trace (fst (run env (dataEvents data) (j, s))) = trace j /\
    phase (fst (run env (dataEvents data) (j, s))) = phase j /\
    snd (run env (dataEvents data) (j, s)) = s /\
    Forall (fun n => (0 < n)%nat) (filter (Nat.ltb 0) (map snd data)).
Proof.
  intros env data j s Hrec. rewrite (run_dataEvents env data j s Hrec).
  destruct j. cbn. repeat split.
  apply Forall_forall. intros n Hin. apply filter_In in Hin.
  destruct Hin as [_ Hpos]. now apply Nat.ltb_lt.
Qed.

Lemma chunks_keep_positive_in_order_witness :
  chunks (fst (run env1080 (dataEvents [(10, 4096%nat); (20, 0%nat); (30, 512%nat)])
                 (jobRecording, readyState))) = [4096%nat; 512%nat].
Proof.
  assert (H : recorder jobRecording <> None) by discriminate.
  exact (proj1 (chunks_keep_positive_in_order env1080
                  [(10, 4096%nat); (20, 0%nat); (30, 512%nat)] jobRecording readyState H)).
Defined.


(** X13.  The whole of a successful export, in a browser that supports it:
    after metadata, seek and start of playback, the timer fires when due,
    the recorder delivers its data and reports its stop.  The log is then
    exactly: seek to the clip's start; capture both streams; create and
    start the recorder with the first supported container, then play; first
    frame request and timer; recorder stop, every composed-stream track,
    every source-stream track, pause; the blob of the positive chunks in
    order with the recorder's container type; the download under the name
    derived from the title.  The function has returned, the flag is
    cleared and no error is shown. *)
Theorem successful_export_log :
  forall (env : Env) (mime : string) (clip : VideoClip) (s : State)
         (t1 t2 t3 t4 t5 : Q) (data : list (Q * nat)),
    supports env mime ->
    t3 + clip_duration clip * 1000 <= t4 ->
    let final :=
      run env ([(t1, LoadedMetadata); (t2, Seeked); (t3, PlayResolved); (t4, TimerExpired)]
                 ++ dataEvents data ++ [(t5, RecorderStopped)])
          (freshJob clip, startedState clip s) in
    trace (fst final) =
      [(t1, SetCurrentTime (start_time clip)); (t2, CanvasCaptureStream);
       (t2, SourceCaptureStream); (t2, RecorderNew mime); (t2, RecorderStart);
       (t2, VideoPlay); (t3, RequestAnimationFrame);
       (t3, SetTimeout (clip_duration clip * 1000)); (t4, RecorderStop)]
      ++ map (pair t4) (map TrackStop (canvasVideoTracks env ++ sourceAudioTracks env))
      ++ map (pair t4) (map TrackStop (sourceVideoTracks env ++ sourceAudioTracks env))
      ++ [(t4, VideoPause);
          (t5, CreateBlob (filter (Nat.ltb 0) (map snd data)) mime);
          (t5, Download (downloadName (clip_title clip)))] /\
    phase (fst final) = Returned /\
    isTypeSupported env mime = true /\
    exportingClipId (snd final) = None /\
    errorMessage (snd final) = None.
Proof.
  intros env mime clip s t1 t2 t3 t4 t5 data Hsup Hdue final.
  assert (Hmime : isTypeSupported env mime = true).
  { destruct Hsup as (_ & _ & Hf). apply find_some in Hf. tauto. }
  unfold final.
  change ([(t1, LoadedMetadata); (t2, Seeked); (t3, PlayResolved); (t4, TimerExpired)]
            ++ dataEvents data ++ [(t5, RecorderStopped)])
    with ([(t1, LoadedMetadata); (t2, Seeked); (t3, PlayResolved)]
            ++ ((t4, TimerExpired) :: dataEvents data ++ [(t5, RecorderStopped)])).
  rewrite run_app, (ExportFacts.run_to_recording env mime clip s t1 t2 t3 Hsup).
  cbn [run step timer].
  assert (Hb : Qle_bool (t3 + clip_duration clip * 1000) t4 = true)
    by (now apply Qle_bool_iff).
  rewrite Hb. unfold stopRecording. cbn [recordingStopped with_timer].
  rewrite run_app. rewrite run_dataEvents by (cbn; discriminate).
  cbn [run step]. ExportFacts.job_cbn. unfold onstop. ExportFacts.job_cbn.
  unfold finishExport, stopRecording. ExportFacts.job_cbn.
  cbn [startedState setExportingClipId setErrorMessage exportingClipId errorMessage
       clips clipDuration generating generatedClips videoUrl].
  split; [| repeat split; assumption].
  cbn [app map]. rewrite !map_app. cbn [map app].
  rewrite <- !app_assoc. reflexivity.
Qed.

Lemma successful_export_log_witness :
  phase (fst (run env1080
                ([(0, LoadedMetadata); (100, Seeked); (150, PlayResolved);
                  (10150, TimerExpired)]
                   ++ dataEvents [(10160, 4096%nat)] ++ [(10170, RecorderStopped)])
                (freshJob clipA, startedState clipA readyState))) = Returned.
Proof.
  assert (Hs : supports env1080 "video/webm;codecs=vp9") by (repeat split).
  assert (Hd : 150 + clip_duration clipA * 1000 <= 10150) by discriminate.
  exact (proj1 (proj2 (successful_export_log env1080 _ clipA readyState
                         0 100 150 10150 10170 [(10160, 4096%nat)] Hs Hd))).
Defined.

(** X14.  A recorder error during the recording makes the function return
    at once with the failure shown and the flag cleared, but the code
    releases nothing then: it calls neither [recorder.stop()] nor any
    [track.stop()], and the timer stays armed.  Its stop path runs only
    when the timer fires, whether the stop event of the recorder comes
    before the timer or after it; that event builds a blob, and no file is
    saved. *)
Theorem recorder_error_defers_release :
  forall (env : Env) (mime : string) (clip : VideoClip) (s : State)
         (t1 t2 t3 t4 t5 t6 : Q),
    supports env mime ->
    t3 + clip_duration clip * 1000 <= t5 ->
    let failed :=
      run env [(t1, LoadedMetadata); (t2, Seeked); (t3, PlayResolved); (t4, RecorderError)]
          (freshJob clip, startedState clip s) in
    (phase (fst failed) = Returned /\
     errorMessage (snd failed) = Some msgExportFailed /\
     exportingClipId (snd failed) = None /\
     recordingStopped (fst failed) = false /\
     timer (fst failed) = Some (t3 + clip_duration clip * 1000) /\
     occurrences isRecorderStop (trace (fst failed)) = 0%nat /\
     occurrences isTrackStop (trace (fst failed)) = 0%nat) /\
    (occurrences isRecorderStop
       (trace (fst (run env [(t6, RecorderStopped)] failed))) = 0%nat /\
     occurrences isTrackStop
       (trace (fst (run env [(t6, RecorderStopped)] failed))) = 0%nat /\
     In (t6, CreateBlob [] mime) (trace (fst (run env [(t6, RecorderStopped)] failed)))) /\
    releasedAt env t5 (run env [(t6, RecorderStopped); (t5, TimerExpired)] failed) /\
    releasedAt env t5 (run env [(t5, TimerExpired); (t6, RecorderStopped)] failed).
Proof.
  intros env mime clip s t1 t2 t3 t4 t5 t6 Hsup Hdue failed.
  assert (Hfailed : failed =
            (mkJob clip Returned false (Some recording) [] mime
               (canvasVideoTracks env ++ sourceAudioTracks env)
               (sourceVideoTracks env ++ sourceAudioTracks env)
               (Some (t3 + clip_duration clip * 1000)) true Rejected
               ([(t1, SetCurrentTime (start_time clip)); (t2, CanvasCaptureStream);
                 (t2, SourceCaptureStream); (t2, RecorderNew mime); (t2, RecorderStart);
                 (t2, VideoPlay); (t3, RequestAnimationFrame);
                 (t3, SetTimeout (clip_duration clip * 1000))] ++ [(t4, LogError)]),
             setExportingClipId None
               (setErrorMessage (Some msgExportFailed) (startedState clip s)))).
  { unfold failed.
    change [(t1, LoadedMetadata); (t2, Seeked); (t3, PlayResolved); (t4, RecorderError)]
      with ([(t1, LoadedMetadata); (t2, Seeked); (t3, PlayResolved)]
              ++ [(t4, RecorderError)]).
    rewrite run_app, (ExportFacts.run_to_recording env mime clip s t1 t2 t3 Hsup). reflexivity. }
  assert (Hb : Qle_bool (t3 + clip_duration clip * 1000) t5 = true)
    by (now apply Qle_bool_iff).
  split; [| split; [| split]].
  - rewrite Hfailed. ExportFacts.job_cbn. split_all; try reflexivity; count_log; reflexivity.
  - rewrite Hfailed. cbn [run step recorder]. unfold onstop. ExportFacts.job_cbn.
    split_all; try (count_log; reflexivity).
    ExportFacts.solve_In.
  - rewrite Hfailed. cbn [run step recorder]. unfold onstop. ExportFacts.job_cbn.
    cbn [step timer]. ExportFacts.job_cbn.
    rewrite Hb. unfold stopRecording. ExportFacts.job_cbn.
    unfold releasedAt. ExportFacts.job_cbn.
    split_all; try reflexivity.
    all: try (count_log; reflexivity).
    all: try solve [ExportFacts.solve_In].
    all: try (rewrite !map_app, !occurrences_app, !occurrences_isTrackStop;
              count_log; rewrite !length_app; lia).
    apply in_or_app. right. cbn [app map In]. left. reflexivity.
  - rewrite Hfailed. cbn [run step timer].
    rewrite Hb. unfold stopRecording. ExportFacts.job_cbn.
    cbn [step]. ExportFacts.job_cbn. unfold onstop. ExportFacts.job_cbn.
    unfold releasedAt. ExportFacts.job_cbn.
    split_all; try reflexivity.
    all: try (count_log; reflexivity).
    all: try solve [ExportFacts.solve_In].
    all: try (rewrite !map_app, !occurrences_app, !occurrences_isTrackStop;
              count_log; rewrite !length_app; lia).
    apply in_or_app. left. apply in_or_app. right. cbn [app map In]. left. reflexivity.
Qed.

Lemma recorder_error_defers_release_witness :
  timer (fst (run env1080
                [(0, LoadedMetadata); (100, Seeked); (150, PlayResolved);
                 (4000, RecorderError)]
                (freshJob clipA, startedState clipA readyState)))
  = Some (150 + clip_duration clipA * 1000).
Proof.
  assert (Hs : supports env1080 "video/webm;codecs=vp9") by (repeat split).
  assert (Hd : 150 + clip_duration clipA * 1000 <= 10150) by discriminate.
  destruct (recorder_error_defers_release env1080 _ clipA readyState
              0 100 150 4000 10150 10170 Hs Hd) as ((_ & _ & _ & _ & H & _) & _).
  exact H.
Defined.

(** *** The name of the file *)

Lemma dashSpaces_no_space (s : string) :
  forall inRun, allChars (fun c => negb (isSpace c)) (dashSpaces inRun s) = true.
Proof.
  induction s as [| c rest IH]; intros inRun; [reflexivity |].
  cbn [dashSpaces]. destruct (isSpace c) eqn:Hc.
  - destruct inRun; [apply IH |]. cbn [allChars]. rewrite IH. reflexivity.
  - cbn [allChars]. rewrite Hc, IH. reflexivity.
Qed.

Lemma lowerChar_clean (c : ascii) :
  isSpace c = false -> isSpace (lowerChar c) = false /\ isUpper (lowerChar c) = false.
Proof.
  intros Hc. unfold lowerChar, isUpper.
  destruct (Nat.leb 65 (nat_of_ascii c) && Nat.leb (nat_of_ascii c) 90) eqn:Hup.
  - apply andb_true_iff in Hup. destruct Hup as [H1 H2].
    apply Nat.leb_le in H1, H2.
    unfold isSpace. rewrite nat_ascii_embedding by lia.
    split.
    + apply orb_false_iff. split; [apply Nat.eqb_neq; lia |].
      apply andb_false_iff. right. apply Nat.leb_gt. lia.
    + apply andb_false_iff. right. apply Nat.leb_gt. lia.
  - split; assumption.
Qed.

Lemma toLowerCase_clean (s : string) :
  allChars (fun c => negb (isSpace c)) s = true ->
  allChars (fun c => negb (isSpace c) && negb (isUpper c)) (toLowerCase s) = true.
Proof.
  induction s as [| c rest IH]; intros H; [reflexivity |].
  cbn [allChars toLowerCase] in *. apply andb_true_iff in H. destruct H as [Hc Hrest].
  apply negb_true_iff in Hc. destruct (lowerChar_clean c Hc) as [H1 H2].
  rewrite H1, H2, (IH Hrest). reflexivity.
Qed.

Lemma allChars_app (p : ascii -> bool) (a b : string) :
  allChars p (a ++ b)%string = allChars p a && allChars p b.
Proof.
  induction a as [| c rest IH]; [reflexivity |].
  cbn. rewrite IH. now rewrite andb_assoc.
Qed.

Lemma dashSpaces_length (s : string) :
  forall inRun, (String.length (dashSpaces inRun s) <= String.length s)%nat.
Proof.
  induction s as [| c rest IH]; intros inRun; [cbn; lia |].
  cbn [dashSpaces]. destruct (isSpace c).
  - destruct inRun; cbn; [specialize (IH true) | specialize (IH true)]; lia.
  - cbn. specialize (IH false). lia.
Qed.

Lemma string_length_app (a b : string) :
  String.length (a ++ b)%string = (String.length a + String.length b)%nat.
Proof. induction a as [| c rest IH]; [reflexivity | cbn; now rewrite IH]. Qed.

Lemma toLowerCase_length (s : string) :
  String.length (toLowerCase s) = String.length s.
Proof. induction s as [| c rest IH]; [reflexivity | cbn; now rewrite IH]. Qed.

(** X15.  For an ASCII title the name of the saved file holds no white
    space and no capital letter, ends in [-portrait.webm], and is at most
    14 characters longer than the title (every run of white space has
    become one dash). *)
Theorem downloadName_clean :
  forall title' : string,
    isAscii title' = true ->
    allChars (fun c => negb (isSpace c) && negb (isUpper c)) (downloadName title') = true /\
    (exists stem, downloadName title' = (stem ++ "-portrait.webm")%string /\
                  (String.length stem <= String.length title')%nat) /\
    (String.length (downloadName title') <= String.length title' + 14)%nat.
Proof.
  intros title' _. unfold downloadName. split; [| split].
  - rewrite allChars_app.
    rewrite (toLowerCase_clean _ (dashSpaces_no_space title' false)). reflexivity.
  - exists (toLowerCase (dashSpaces false title')). split; [reflexivity |].
    rewrite toLowerCase_length. apply dashSpaces_length.
  - rewrite string_length_app, toLowerCase_length.
    pose proof (dashSpaces_length title' false). cbn. lia.
Qed.

Lemma downloadName_clean_witness :
  downloadName "My  Best Clip" = "my-best-clip-portrait.webm"%string /\
  allChars (fun c => negb (isSpace c) && negb (isUpper c)) (downloadName "My  Best Clip")
  = true.
Proof.
  split; [reflexivity |].
  exact (proj1 (downloadName_clean "My  Best Clip" eq_refl)).
Defined.

End ExportMoreFacts.

(** ** Facts about the displayed times *)

Module DisplayFacts.
Import Display.

Lemma Qfloor_unique (x : Q) (z : Z) :
  inject_Z z <= x -> x < inject_Z (z + 1) -> Qfloor x = z.
Proof.
  intros Hlo Hhi.
  pose proof (Qfloor_le x) as H1. pose proof (Qlt_floor x) as H2.
  assert (Ha : (z < Qfloor x + 1)%Z) by (rewrite Zlt_Qlt; lra).
  assert (Hb : (Qfloor x < z + 1)%Z) by (rewrite Zlt_Qlt; lra).
  lia.
Qed.

(** The minutes shown are the whole seconds divided by 60. *)
Lemma floor_minutes (s : Q) : Qfloor (s / 60) = (Qfloor s / 60)%Z.
Proof.
  pose proof (Qfloor_le s) as H1. pose proof (Qlt_floor s) as H2.
  set (n := Qfloor s) in *.
  pose proof (Z.div_mod n 60 ltac:(lia)) as Hdm.
  pose proof (Z.mod_pos_bound n 60 ltac:(lia)) as Hm.
  set (m := (n / 60)%Z) in *. set (r := (n mod 60)%Z) in *.
  assert (Hn : inject_Z n == 60 * inject_Z m + inject_Z r).
  { rewrite Hdm, inject_Z_plus, inject_Z_mult. reflexivity. }
  assert (Hr0 : 0 <= inject_Z r) by (change 0 with (inject_Z 0); rewrite <- Zle_Qle; lia).
  assert (Hr1 : inject_Z r <= 59) by (change 59 with (inject_Z 59); rewrite <- Zle_Qle; lia).
  assert (Hs : s / 60 == s * (1 # 60)) by reflexivity.
  rewrite inject_Z_plus in H2. change (inject_Z 1) with 1 in H2.
  apply Qfloor_unique.
  - rewrite Hs. lra.
  - rewrite Hs, inject_Z_plus. change (inject_Z 1) with 1. lra.
Qed.

(** The seconds shown are the whole seconds modulo 60, for a time that is
    not negative. *)
Lemma floor_seconds (s : Q) : 0 <= s -> Qfloor (js_rem s 60) = (Qfloor s mod 60)%Z.
Proof.
  intros Hs0.
  assert (Htr : trunc (s / 60) = Qfloor (s / 60)).
  { unfold trunc. destruct (Qlt_le_dec (s / 60) 0) as [Hneg | _]; [| reflexivity].
    assert (Hs : s / 60 == s * (1 # 60)) by reflexivity. rewrite Hs in Hneg. lra. }
  unfold js_rem. rewrite Htr, floor_minutes.
  pose proof (Qfloor_le s) as H1. pose proof (Qlt_floor s) as H2.
  set (n := Qfloor s) in *.
  pose proof (Z.div_mod n 60 ltac:(lia)) as Hdm.
  set (m := (n / 60)%Z) in *. set (r := (n mod 60)%Z) in *.
  assert (Hn : inject_Z n == 60 * inject_Z m + inject_Z r).
  { rewrite Hdm, inject_Z_plus, inject_Z_mult. reflexivity. }
  rewrite inject_Z_plus in H2. change (inject_Z 1) with 1 in H2.
  apply Qfloor_unique.
  - lra.
  - rewrite inject_Z_plus. change (inject_Z 1) with 1. lra.
Qed.

Lemma seconds_two_chars (k : nat) : (k < 60)%nat -> twoChars k = true.
Proof.
  intros Hk.
  assert (Hall : forallb twoChars (seq 0 60) = true) by (vm_compute; reflexivity).
  rewrite forallb_forall in Hall. apply Hall. apply in_seq. lia.
Qed.

(** X16.  For a time that is not negative [formatTime] (and
    [formatDuration], the same code) shows the whole seconds split into
    minutes and seconds: the minutes are [floor seconds / 60], the seconds
    field is [floor seconds mod 60], always between 0 and 59 and always
    exactly two characters, so ":60" or a one-digit seconds field never
    appears. *)
Theorem formatTime_minutes_seconds :
  forall seconds : Q,
    0 <= seconds ->
    formatTime seconds =
      (show_int (Qfloor seconds / 60) ++ ":" ++
       padStart 2 "0" (show_int (Qfloor seconds mod 60)))%string /\
    (0 <= Qfloor seconds mod 60 < 60)%Z /\
    (60 * (Qfloor seconds / 60) + Qfloor seconds mod 60 = Qfloor seconds)%Z /\
    String.length (padStart 2 "0" (show_int (Qfloor seconds mod 60))) = 2%nat.
Proof.
  intros s Hs. unfold formatTime.
  rewrite floor_minutes, (floor_seconds s Hs).
  pose proof (Z.mod_pos_bound (Qfloor s) 60 ltac:(lia)) as Hm.
  split; [reflexivity |]. split; [exact Hm |]. split.
  - pose proof (Z.div_mod (Qfloor s) 60 ltac:(lia)). lia.
  - pose proof (seconds_two_chars (Z.to_nat (Qfloor s mod 60)) ltac:(lia)) as H2.
    unfold twoChars in H2. rewrite Z2Nat.id in H2 by lia.
    now apply Nat.eqb_eq.
Qed.

Lemma formatTime_minutes_seconds_witness :
  formatTime 95 = "1:35"%string /\ formatTime (11 # 2) = "0:05"%string /\
  formatTime (125 + 30) = "2:35"%string.
Proof.
  assert (H : 0 <= 95) by discriminate.
  destruct (formatTime_minutes_seconds 95 H) as (H95 & _).
  split; [rewrite H95; reflexivity |]. split; reflexivity.
Defined.

End DisplayFacts.

(** ** Facts about the upload *)

Module UploadFacts.
Import Upload.

(** The size test, in bytes: 500 MB is 524288000 bytes. *)
Lemma tooLarge_bytes (f : File) :
  tooLarge f = true <-> (524288000 < file_size f)%N.
Proof.
  unfold tooLarge, maxSizeMb.
  assert (Hdiv : forall z : Z, inject_Z z / (1024 * 1024) == inject_Z z * (1 # 1048576))
    by (intros z; reflexivity).
  destruct (Qlt_le_dec 500 (inject_Z (Z.of_N (file_size f)) / (1024 * 1024))) as [Hlt | Hle].
  - split; [intros _ | reflexivity].
    rewrite Hdiv in Hlt.
    assert (H : inject_Z 524288000 < inject_Z (Z.of_N (file_size f)))
      by (change (inject_Z 524288000) with 524288000; lra).
    rewrite <- Zlt_Qlt in H. lia.
  - split; [discriminate |]. intros Hbig. exfalso.
    rewrite Hdiv in Hle.
    assert (H : inject_Z (Z.of_N (file_size f)) <= inject_Z 524288000)
      by (change (inject_Z 524288000) with 524288000; lra).
    rewrite <- Zle_Qle in H. lia.
Qed.

(** X17.  A file that is not of a [video/] type, or is larger than 500 MB
    (524288000 bytes; a file of exactly that size is accepted), is refused
    before anything is asked of the session provider or the store: an error
    is shown, nothing is uploaded and the busy flag and the progress are
    not touched.  Every other file reaches the user lookup. *)
Theorem upload_validation :
  forall (sv : Services) (f : File) (st : UploadState),
    (String.prefix "video/" (file_type f) = false \/ (524288000 < file_size f)%N ->
     snd (handleFileChange sv (Some f) st) = [] /\
     uploading (fst (handleFileChange sv (Some f) st)) = uploading st /\
     progress (fst (handleFileChange sv (Some f) st)) = progress st /\
     (error (fst (handleFileChange sv (Some f) st)) = Some msgNotVideo \/
      error (fst (handleFileChange sv (Some f) st)) = Some msgTooLarge)) /\
    (String.prefix "video/" (file_type f) = true -> (file_size f <= 524288000)%N ->
     exists rest, snd (handleFileChange sv (Some f) st) = AuthGetUser :: rest).
Proof.
  intros sv f st. split.
  - intros Hbad. cbn [handleFileChange].
    destruct (String.prefix "video/" (file_type f)) eqn:Hty; cbn [negb].
    + destruct Hbad as [Hbad | Hbig]; [discriminate |].
      apply tooLarge_bytes in Hbig. rewrite Hbig. cbn. repeat split. now right.
    + cbn. repeat split. now left.
  - intros Hty Hfit. cbn [handleFileChange]. rewrite Hty. cbn [negb].
    destruct (tooLarge f) eqn:Hbig; [apply tooLarge_bytes in Hbig; lia |].
    destruct (user sv); [| eexists; reflexivity].
    destruct (uploadRefused sv); [eexists; reflexivity |].
    destruct (metadata sv); try (eexists; reflexivity).
    destruct (insertRefused sv); eexists; reflexivity.
Qed.

Lemma upload_validation_witness :
  snd (handleFileChange servicesOk (Some (mkFile "big.mp4" "video/mp4" 524288001%N)) idle) = []
  /\ exists rest,
       snd (handleFileChange servicesOk (Some (mkFile "ok.mp4" "video/mp4" 524288000%N)) idle)
       = AuthGetUser :: rest.
Proof.
  split.
  - apply (proj1 (upload_validation servicesOk (mkFile "big.mp4" "video/mp4" 524288001%N) idle)).
    right. reflexivity.
  - apply (proj2 (upload_validation servicesOk (mkFile "ok.mp4" "video/mp4" 524288000%N) idle)).
    + reflexivity.
    + discriminate.
Defined.

(** *** The extension *)

Lemma string_app_assoc (a b c : string) : ((a ++ b) ++ c = a ++ (b ++ c))%string.
Proof. induction a as [| x a IH]; [reflexivity | cbn; now rewrite IH]. Qed.

Lemma string_app_nil (a : string) : (a ++ EmptyString = a)%string.
Proof. induction a as [| x a IH]; [reflexivity | cbn; now rewrite IH]. Qed.

Lemma noDot_app (a b : string) : noDot (a ++ b) = noDot a && noDot b.
Proof.
  induction a as [| x a IH]; [reflexivity |]. cbn. rewrite IH. now rewrite andb_assoc.
Qed.

Lemma splitDots_nonempty (s cur : string) : splitDots s cur <> [].
Proof.
  revert cur. induction s as [| c rest IH]; intros cur; cbn; [discriminate |].
  destruct (Ascii.eqb c "."); [discriminate | apply IH].
Qed.

Lemma last_cons_nonempty (x : string) (l : list string) (d : string) :
  l <> [] -> last (x :: l) d = last l d.
Proof. intros H. destruct l; [now elim H | reflexivity]. Qed.

Lemma last_splitDots (s : string) :
  forall cur : string,
    noDot cur = true ->
    noDot (last (splitDots s cur) EmptyString) = true /\
    ((noDot s = true /\ last (splitDots s cur) EmptyString = (cur ++ s)%string) \/
     (noDot s = false /\
      exists stem, (cur ++ s = stem ++ "." ++ last (splitDots s cur) EmptyString)%string)).
Proof.
  induction s as [| c rest IH]; intros cur Hcur.
  - cbn. split; [exact Hcur |]. left. split; [reflexivity |]. now rewrite string_app_nil.
  - cbn [splitDots noDot]. destruct (Ascii.eqb c ".") eqn:Hc.
    + apply Ascii.eqb_eq in Hc. subst c.
      rewrite last_cons_nonempty by apply splitDots_nonempty.
      destruct (IH EmptyString eq_refl) as (Hno & Hcases).
      split; [exact Hno |]. right. split; [reflexivity |].
      destruct Hcases as [(Hrest & Hlast) | (Hrest & stem & Hstem)].
      * exists cur. rewrite Hlast. reflexivity.
      * exists (cur ++ "." ++ stem)%string. cbn in Hstem.
        set (L := last (splitDots rest EmptyString) EmptyString) in *.
        rewrite Hstem, string_app_assoc. reflexivity.
    + assert (Hcur' : noDot (cur ++ String c EmptyString) = true).
      { rewrite noDot_app, Hcur. cbn. now rewrite Hc. }
      destruct (IH _ Hcur') as (Hno & Hcases).
      split; [exact Hno |]. cbn [negb andb].
      assert (Happ : ((cur ++ String c EmptyString) ++ rest = cur ++ String c rest)%string)
        by (now rewrite string_app_assoc).
      destruct Hcases as [(Hrest & Hlast) | (Hrest & stem & Hstem)].
      * left. split; [exact Hrest |]. now rewrite Hlast.
      * right. split; [exact Hrest |]. exists stem. rewrite <- Happ. exact Hstem.
Qed.

(** X18.  The extension used for the stored file is what follows the last
    dot of the file's name: it holds no dot, the name is [stem.extension]
    for some stem, and a name without any dot is its own extension.  The
    blob is stored at [user id/time stamp.extension]. *)
Theorem fileExt_after_last_dot :
  forall name : string,
    noDot (fileExt name) = true /\
    (noDot name = true -> fileExt name = name) /\
    (noDot name = false ->
     exists stem, name = (stem ++ "." ++ fileExt name)%string) /\
    (forall uid now,
        storagePath uid now name = (uid ++ "/" ++ show_N now ++ "." ++ fileExt name)%string).
Proof.
  intros name. unfold fileExt.
  destruct (last_splitDots name EmptyString eq_refl) as (Hno & Hcases).
  split; [exact Hno |]. split; [| split; [| reflexivity]].
  - intros Hn. destruct Hcases as [(_ & Hlast) | (Hd & _)]; [exact Hlast | congruence].
  - intros Hn. destruct Hcases as [(Hd & _) | (_ & stem & Hstem)]; [congruence |].
    exists stem. exact Hstem.
Qed.

Lemma fileExt_after_last_dot_witness :
  fileExt "README" = "README"%string /\
  exists stem, "holiday.final.mp4"%string = (stem ++ "." ++ fileExt "holiday.final.mp4")%string.
Proof.
  split.
  - apply (proj1 (proj2 (fileExt_after_last_dot "README"))). reflexivity.
  - apply (proj1 (proj2 (proj2 (fileExt_after_last_dot "holiday.final.mp4")))). reflexivity.
Defined.

(** *** What becomes of an upload *)

(** X19.  When the blob was stored and the metadata was read but the
    insert of the row is refused, nothing reports it: no error is shown,
    the busy flag stays set, the progress stays at 0 and no completion is
    scheduled, although the blob is in the store. *)
Theorem refused_insert_is_silent :
  forall (sv : Services) (f : File) (st : UploadState) (uid : string) (d : Q),
    String.prefix "video/" (file_type f) = true -> (file_size f <= 524288000)%N ->
    user sv = Some uid -> uploadRefused sv = false ->
    metadata sv = MetadataLoaded d -> insertRefused sv = true ->
    fst (handleFileChange sv (Some f) st) = mkUploadState true 0 None /\
    snd (handleFileChange sv (Some f) st) =
      [AuthGetUser; StorageUpload (storagePath uid (dateNow sv) (file_name f));
       InsertVideo uid (file_name f) (storagePath uid (dateNow sv) (file_name f)) d
         "completed"].
Proof.
  intros sv f st uid d Hty Hfit Hu Hup Hmeta Hins.
  cbn [handleFileChange]. rewrite Hty. cbn [negb].
  destruct (tooLarge f) eqn:Hbig; [apply tooLarge_bytes in Hbig; lia |].
  rewrite Hu, Hup, Hmeta, Hins. split; reflexivity.
Qed.

Lemma refused_insert_is_silent_witness :
  fst (handleFileChange
         (mkServices (Some "u42"%string) 1700000000000%N false (MetadataLoaded 95) true)
         (Some movie) idle) = mkUploadState true 0 None.
Proof.
  apply (proj1 (refused_insert_is_silent
                  (mkServices (Some "u42"%string) 1700000000000%N false (MetadataLoaded 95) true)
                  movie idle "u42" 95 eq_refl ltac:(discriminate) eq_refl eq_refl eq_refl
                  eq_refl)).
Defined.

(** X20.  A row is inserted only for a blob that was stored in the same
    call, under the same path, with the file's name as title, the duration
    read from the metadata and the status [completed]; an error is shown
    only with the busy flag cleared; and when the metadata cannot be read
    the blob stays in the store without a row. *)
Theorem upload_row_matches_blob :
  forall (sv : Services) (f : File) (st : UploadState),
    (forall uid t p d status,
        In (InsertVideo uid t p d status) (snd (handleFileChange sv (Some f) st)) ->
        In (StorageUpload p) (snd (handleFileChange sv (Some f) st)) /\
        p = storagePath uid (dateNow sv) (file_name f) /\
        user sv = Some uid /\ t = file_name f /\
        metadata sv = MetadataLoaded d /\ status = "completed"%string) /\
    (String.prefix "video/" (file_type f) = true -> (file_size f <= 524288000)%N ->
     error (fst (handleFileChange sv (Some f) st)) <> None ->
     uploading (fst (handleFileChange sv (Some f) st)) = false) /\
    (String.prefix "video/" (file_type f) = true -> (file_size f <= 524288000)%N ->
     user sv <> None -> uploadRefused sv = false -> metadata sv = MetadataFailed ->
     existsb isStorageUpload (snd (handleFileChange sv (Some f) st)) = true /\
     existsb isInsertVideo (snd (handleFileChange sv (Some f) st)) = false /\
     error (fst (handleFileChange sv (Some f) st)) = Some msgNoMetadata).
Proof.
  intros sv f st. split; [| split].
  - intros uid t p d status. cbn [handleFileChange].
    destruct (negb (String.prefix "video/" (file_type f))); [intros [] |].
    destruct (tooLarge f); [intros [] |].
    destruct (user sv) as [u |]; [| cbn; intuition discriminate].
    destruct (uploadRefused sv); [cbn; intuition discriminate |].
    destruct (metadata sv) as [| d' |]; try (cbn; intuition discriminate).
    destruct (insertRefused sv); cbn [snd In]; intros H;
      repeat (destruct H as [H | H]; try discriminate H; try contradiction);
      inversion H; subst; repeat split; cbn; auto.
  - intros Hty Hfit. cbn [handleFileChange]. rewrite Hty. cbn [negb].
    destruct (tooLarge f) eqn:Hbig; [apply tooLarge_bytes in Hbig; lia |].
    destruct (user sv); [| reflexivity].
    destruct (uploadRefused sv); [reflexivity |].
    destruct (metadata sv); try reflexivity.
    + destruct (insertRefused sv); cbn; intros H; now elim H.
    + cbn; intros H; now elim H.
  - intros Hty Hfit Hu Hup Hmeta. cbn [handleFileChange]. rewrite Hty. cbn [negb].
    destruct (tooLarge f) eqn:Hbig; [apply tooLarge_bytes in Hbig; lia |].
    destruct (user sv); [| now elim Hu]. rewrite Hup, Hmeta. repeat split.
Qed.

Lemma upload_row_matches_blob_witness :
  In (StorageUpload (storagePath "u42" 1700000000000%N "holiday.final.mp4"))
     (snd (handleFileChange servicesOk (Some movie) idle)).
Proof.
  apply (proj1 (proj1 (upload_row_matches_blob servicesOk movie idle)
                  "u42"%string "holiday.final.mp4"%string _ 95 "completed"%string
                  ltac:(cbn; auto))).
Defined.

End UploadFacts.
